(** * PID-demo: the discrete-time control core, embedded and checked

    The repository is a set of React simulators (hot tub, inverted pendulum
    on a cart, drone altitude).  This development embeds their numerical
    core: the PID controllers, the plant step functions, the fixed-step
    accumulator loop and the setpoint generators.

    Numbers.  A JavaScript number is modelled by a real number: arithmetic
    is exact, there is no rounding, no NaN and no infinity.  The one
    exception is the accumulator loop, whose step count turns on the
    rounding of the accumulator: it is given both in exact arithmetic
    ([Loop]) and in binary64 ([FloatLoop]).  Where the
    source uses [-Infinity]/[Infinity] as the default anti-windup bounds the
    bound is an [option R] whose [None] stands for "unbounded on that side".
    Mutable [stateRef.current] objects become records threaded through the
    step functions; [Math.random()] becomes an explicit argument. *)

From Stdlib Require Import Reals Lra Lia List Bool ZArith.
From Stdlib Require String.
From Stdlib Require QArith Qround Qabs Qpower Qreduction.
From Stdlib Require PrimFloat FloatOps SpecFloat Uint63.
Import ListNotations.
Open Scope R_scope.

(* ================================================================== *)
(** ** JavaScript helpers *)
(* ================================================================== *)

Module JS.

(** [Math.max(lo, v)] for a lower bound that may be [-Infinity]. *)
Definition max_lo (lo : option R) (v : R) : R :=
  match lo with
  | Some l => Rmax l v
  | None => v
  end.

(** [Math.min(hi, v)] for an upper bound that may be [Infinity]. *)
Definition min_hi (hi : option R) (v : R) : R :=
  match hi with
  | Some h => Rmin h v
  | None => v
  end.

(** [Math.max(lo, Math.min(hi, v))], the clamping idiom of the source. *)
Definition clamp (v lo hi : R) : R := Rmax lo (Rmin hi v).

(** The same idiom with possibly infinite bounds. *)
Definition clamp_opt (v : R) (lo hi : option R) : R :=
  max_lo lo (min_hi hi v).

(** [v] lies in the closed interval from [lo] to [hi]. *)
Definition within (lo hi : option R) (v : R) : Prop :=
  match lo with Some l => l <= v | None => True end /\
  match hi with Some h => v <= h | None => True end.

(** The bounds describe a non-empty interval. *)
Definition ordered (lo hi : option R) : Prop :=
  match lo, hi with
  | Some l, Some h => l <= h
  | _, _ => True
  end.

(** [array.reduce((sum, val) => sum + val, 0)]. *)
Definition sum (xs : list R) : R :=
  fold_left (fun sum val => sum + val) xs 0.

(** [array.shift()]: drop the first element. *)
Definition shift (xs : list R) : list R := tl xs.

(** [array.push(v)]: append at the end. *)
Definition push (xs : list R) (v : R) : list R := xs ++ [v].

(** [Math.sign(x)]. *)
Definition sign (x : R) : R :=
  if Rlt_dec 0 x then 1 else if Rlt_dec x 0 then -1 else 0.

(** Truncation toward zero. *)
Definition trunc (x : R) : Z :=
  if Rle_dec 0 x then Int_part x else (- Int_part (- x))%Z.

(** [x % y]: the remainder of the truncated division, with the sign of
    the dividend. *)
Definition rem (x y : R) : R := x - y * IZR (trunc (x / y)).

(** [while (theta > Math.PI) theta -= 2 * Math.PI], at most [fuel]
    iterations. *)
Fixpoint wrapDown (fuel : nat) (theta : R) : R :=
  match fuel with
  | O => theta
  | S fuel' =>
      if Rgt_dec theta PI then wrapDown fuel' (theta - 2 * PI) else theta
  end.

(** [while (theta < -Math.PI) theta += 2 * Math.PI], at most [fuel]
    iterations. *)
Fixpoint wrapUp (fuel : nat) (theta : R) : R :=
  match fuel with
  | O => theta
  | S fuel' =>
      if Rlt_dec theta (- PI) then wrapUp fuel' (theta + 2 * PI) else theta
  end.

(** A number of iterations that suffices for either loop. *)
Definition turns (theta : R) : nat :=
  Z.to_nat (up (Rabs theta / (2 * PI))).

(** The two normalisation loops, one after the other. *)
Definition normalizeAngle (theta : R) : R :=
  wrapUp (turns theta) (wrapDown (turns theta) theta).

End JS.

(** Gains [{kp, ki, kd}], supplied by the caller on every call. *)
Record Gains := mkGains { kp : R; ki : R; kd : R }.

(* ================================================================== *)
(** ** utils/pidController.js *)
(* ================================================================== *)

Module PidUtil.

Record Config := mkConfig {
  integralMin : option R;   (* default -Infinity *)
  integralMax : option R    (* default Infinity *)
}.

Definition defaults : Config := mkConfig None None.

Record State := mkState {
  integral : R;
  prevError : R
}.

(** The object [computePID] returns: [{output, integral, prevError}]. *)
Record Result := mkResult {
  output : R;
  r_integral : R;
  r_prevError : R
}.

(** [computePID({error, integral, prevError, kp, ki, kd, dt,
    integralMin, integralMax})]. *)
Definition computePID (error integral prevError kp ki kd dt : R)
    (integralMin integralMax : option R) : Result :=
  let newIntegral :=
    JS.max_lo integralMin (JS.min_hi integralMax (integral + error * dt)) in
  let derivative := (error - prevError) / dt in
  let output := kp * error + ki * newIntegral + kd * derivative in
  mkResult output newIntegral error.

(** [createPIDController(config)]: the fresh state. *)
Definition create : State := mkState 0 0.

(** [compute(error, gains, dt)]: the returned output and the new state. *)
Definition compute (cfg : Config) (st : State) (error : R) (gains : Gains)
    (dt : R) : R * State :=
  let result :=
    computePID error (integral st) (prevError st)
               (kp gains) (ki gains) (kd gains) dt
               (integralMin cfg) (integralMax cfg) in
  (output result, mkState (r_integral result) (r_prevError result)).

Definition reset (st : State) : State := mkState 0 0.

Definition resetIntegral (st : State) : State := mkState 0 (prevError st).

(** The states after each call of a sequence of [compute] calls. *)
Fixpoint run (cfg : Config) (st : State) (calls : list (R * Gains * R))
    : list State :=
  match calls with
  | [] => []
  | (error, gains, dt) :: rest =>
      let st' := snd (compute cfg st error gains dt) in
      st' :: run cfg st' rest
  end.

End PidUtil.

(* ================================================================== *)
(** ** The controller embedded in the standalone simulators
       (InvertedPendulumStandalone.jsx, DroneAltitudeStandalone.jsx) *)
(* ================================================================== *)

Module Pid.

Record Config := mkConfig {
  integralMin : option R;          (* default -Infinity *)
  integralMax : option R;          (* default Infinity *)
  derivativeWindowSize : nat       (* default 5 *)
}.

Definition defaults : Config := mkConfig None None 5.

Record State := mkState {
  integral : R;
  prevError : R;
  initialized : bool;
  derivativeHistory : list R
}.

Record Result := mkResult {
  output : R;
  errorP : R;
  errorI : R;
  errorD : R
}.

(** [createPIDController(config)]: the fresh state. *)
Definition create : State := mkState 0 0 false [].

(** The raw derivative of one call. *)
Definition rawDerivative (st : State) (error dt : R) : R :=
  if initialized st then (error - prevError st) / dt else 0.

(** [push] then [shift] when the window is exceeded. *)
Definition pushHistory (cfg : Config) (history : list R) (raw : R)
    : list R :=
  let pushed := JS.push history raw in
  if (derivativeWindowSize cfg <? length pushed)%nat
  then JS.shift pushed
  else pushed.

(** The mean of the samples held. *)
Definition mean (history : list R) : R :=
  JS.sum history / INR (length history).

(** [compute(error, gains, dt)]: the result and the new state. *)
Definition compute (cfg : Config) (st : State) (error : R) (gains : Gains)
    (dt : R) : Result * State :=
  let newIntegral :=
    JS.max_lo (integralMin cfg)
              (JS.min_hi (integralMax cfg) (integral st + error * dt)) in
  let raw := rawDerivative st error dt in
  let history := pushHistory cfg (derivativeHistory st) raw in
  let derivative := mean history in
  let output :=
    kp gains * error + ki gains * newIntegral + kd gains * derivative in
  (mkResult output error newIntegral derivative,
   mkState newIntegral error true history).

Definition reset (st : State) : State := mkState 0 0 false [].

Definition resetIntegral (st : State) : State :=
  mkState 0 (prevError st) (initialized st) (derivativeHistory st).

(** The results and states after each call of a sequence of calls. *)
Fixpoint run (cfg : Config) (st : State) (calls : list (R * Gains * R))
    : list (Result * State) :=
  match calls with
  | [] => []
  | (error, gains, dt) :: rest =>
      let rs := compute cfg st error gains dt in
      rs :: run cfg (snd rs) rest
  end.

(** The result and state after the last call of a sequence; the state is
    unchanged and there is no result when the sequence is empty. *)
Fixpoint runLast (cfg : Config) (st : State) (last : option Result)
    (calls : list (R * Gains * R)) : option Result * State :=
  match calls with
  | [] => (last, st)
  | (error, gains, dt) :: rest =>
      let rs := compute cfg st error gains dt in
      runLast cfg (snd rs) (Some (fst rs)) rest
  end.

End Pid.

(* ================================================================== *)
(** ** The hot tub (simulators/HotTub.jsx, HotTubSimulator) *)
(* ================================================================== *)

Module HotTub.

Definition WATER_MASS : R := 1500.
Definition SPECIFIC_HEAT : R := 4186.
Definition THERMAL_MASS : R := WATER_MASS * SPECIFIC_HEAT.
Definition HEAT_LOSS_COEFFICIENT : R := 500.
Definition MAX_HEATER_POWER : R := 15000.
Definition MIN_HEATER_POWER : R := 0.
Definition DT : R := 0.1.
Definition TIME_SCALE : R := 600.

Record State := mkState {
  temperature : R;
  setpoint : R;
  ambient : R;
  time : R;
  heaterPower : R
}.

(** The state installed by [resetSimulation]. *)
Definition initial : State := mkState 38 38 20 0 0.

(** [simulateStep(power)]. *)
Definition simulateStep (power : R) (state : State) : State :=
  let power := Rmax MIN_HEATER_POWER (Rmin MAX_HEATER_POWER power) in
  let heatLoss :=
    HEAT_LOSS_COEFFICIENT * (temperature state - ambient state) in
  let netPower := power - heatLoss in
  let dT := (netPower * DT) / THERMAL_MASS in
  let temperature1 := temperature state + dT in
  mkState (Rmax 0 (Rmin 50 temperature1))
          (setpoint state)
          (ambient state)
          (time state + DT)
          power.

(** ['pid'] or ['user']. *)
Inductive ControlMode := pid | user.

(** [computePIDPower()]: the controller output and its new state. *)
Definition computePIDPower (pidGains : Gains) (ctl : PidUtil.State)
    (state : State) : R * PidUtil.State :=
  let error := setpoint state - temperature state in
  PidUtil.compute PidUtil.defaults ctl error pidGains DT.

(** One iteration of the drain loop: pick the power, then step. *)
Definition tick (controlMode : ControlMode) (userInput : R)
    (pidGains : Gains) (s : State * PidUtil.State) : State * PidUtil.State :=
  let (state, ctl) := s in
  match controlMode with
  | pid =>
      let (power, ctl') := computePIDPower pidGains ctl state in
      (simulateStep power state, ctl')
  | user => (simulateStep (userInput * MAX_HEATER_POWER) state, ctl)
  end.

(** The temperature after [n] steps under the constant actuation
    [power]. *)
Fixpoint temperatureAfter (n : nat) (power : R) (state : State) : R :=
  match n with
  | O => temperature state
  | S n' => temperatureAfter n' power (simulateStep power state)
  end.

End HotTub.

(* ================================================================== *)
(** ** The drone with a hover baseline
       (DroneAltitudeSimulator, second component of simulators/HotTub.jsx;
       drone_simulator.jsx has the same step on a state with three more
       fields) *)
(* ================================================================== *)

Module Drone.

Definition GRAVITY : R := 9.81.
Definition BASE_DRONE_MASS : R := 2.0.
Definition MASS_INCREMENT : R := 1.0.
Definition MAX_THRUST : R := 500.
Definition MIN_THRUST : R := -500.
Definition DT : R := 0.001.
Definition MAX_ALTITUDE : R := 100.

Record State := mkState {
  altitude : R;
  velocity : R;
  mass : R;
  setpoint : R;
  time : R;
  thrust : R;
  crashed : bool
}.

(** The state installed by [resetSimulation]. *)
Definition initial : State := mkState 50 0 BASE_DRONE_MASS 50 0 0 false.

(** The local constants of [simulateStep], in source order. *)
Definition clampSignal (controlSignal : R) : R :=
  Rmax MIN_THRUST (Rmin MAX_THRUST controlSignal).

Definition netForce (controlSignal : R) (state : State) : R :=
  let controlSignal := clampSignal controlSignal in
  let baseHoverThrust := BASE_DRONE_MASS * GRAVITY in
  let actualThrust := baseHoverThrust + controlSignal in
  let gravityForce := mass state * GRAVITY in
  actualThrust - gravityForce.

Definition acceleration (controlSignal : R) (state : State) : R :=
  if Rlt_dec 0 (mass state)
  then netForce controlSignal state / mass state
  else 0.

(** [simulateStep(controlSignal)]. *)
Definition simulateStep (controlSignal : R) (state : State) : State :=
  if crashed state then state
  else
    let velocity1 := velocity state + acceleration controlSignal state * DT in
    let altitude1 := altitude state + velocity1 * DT in
    let time1 := time state + DT in
    if orb (if Rle_dec altitude1 0 then true else false)
           (if Rge_dec altitude1 MAX_ALTITUDE then true else false)
    then mkState (Rmax 0 (Rmin MAX_ALTITUDE altitude1)) 0 (mass state)
                 (setpoint state) time1 (clampSignal controlSignal) true
    else mkState altitude1 velocity1 (mass state)
                 (setpoint state) time1 (clampSignal controlSignal)
                 (crashed state).

(** [changeSetpoint()], the random setpoint being an argument. *)
Definition changeSetpoint (newSetpoint : R) (state : State) : State :=
  if crashed state then state
  else mkState (altitude state) (velocity state) (mass state) newSetpoint
               (time state) (thrust state) (crashed state).

(** [addWeight()]. *)
Definition addWeight (state : State) : State :=
  if crashed state then state
  else mkState (altitude state) (velocity state)
               (mass state + MASS_INCREMENT) (setpoint state)
               (time state) (thrust state) (crashed state).

(** [resetSimulation()]. *)
Definition resetSimulation (state : State) : State := initial.

(** What can write the simulation state. *)
Inductive Event :=
| Step (controlSignal : R)
| ChangeSetpoint (newSetpoint : R)
| AddWeight
| Reset.

Definition apply (state : State) (ev : Event) : State :=
  match ev with
  | Step controlSignal => simulateStep controlSignal state
  | ChangeSetpoint newSetpoint => changeSetpoint newSetpoint state
  | AddWeight => addWeight state
  | Reset => resetSimulation state
  end.

Definition isReset (ev : Event) : bool :=
  match ev with Reset => true | _ => false end.

End Drone.

(* ================================================================== *)
(** ** drone_simulator.jsx (DroneAltitudeSimulator with an inline PID) *)
(* ================================================================== *)

Module DroneSimulator.

Definition GRAVITY : R := 9.81.
Definition BASE_DRONE_MASS : R := 2.0.
Definition MASS_INCREMENT : R := 1.0.
Definition MAX_THRUST : R := 500.
Definition MIN_THRUST : R := -500.
Definition DT : R := 0.001.
Definition CRASH_CEILING : R := 100.
Definition CRASH_FLOOR : R := 0.

Record State := mkState {
  altitude : R;
  velocity : R;
  mass : R;
  setpoint : R;
  integral : R;
  prevError : R;
  time : R;
  thrust : R;
  massAdded : R;
  crashed : bool
}.

Definition clampSignal (controlSignal : R) : R :=
  Rmax MIN_THRUST (Rmin MAX_THRUST controlSignal).

Definition netForce (controlSignal : R) (state : State) : R :=
  let controlSignal := clampSignal controlSignal in
  let baseHoverThrust := BASE_DRONE_MASS * GRAVITY in
  let actualThrust := baseHoverThrust + controlSignal in
  let gravityForce := mass state * GRAVITY in
  actualThrust - gravityForce.

Definition acceleration (controlSignal : R) (state : State) : R :=
  if Rlt_dec 0 (mass state)
  then netForce controlSignal state / mass state
  else 0.

(** [simulateStep(controlSignal)]. *)
Definition simulateStep (controlSignal : R) (state : State) : State :=
  if crashed state then state
  else
    let velocity1 := velocity state + acceleration controlSignal state * DT in
    let altitude1 := altitude state + velocity1 * DT in
    let time1 := time state + DT in
    if orb (if Rle_dec altitude1 CRASH_FLOOR then true else false)
           (if Rge_dec altitude1 CRASH_CEILING then true else false)
    then mkState (Rmax CRASH_FLOOR (Rmin CRASH_CEILING altitude1)) 0
                 (mass state) (setpoint state) (integral state)
                 (prevError state) time1 (clampSignal controlSignal)
                 (massAdded state) true
    else mkState altitude1 velocity1
                 (mass state) (setpoint state) (integral state)
                 (prevError state) time1 (clampSignal controlSignal)
                 (massAdded state) (crashed state).

End DroneSimulator.

(* ================================================================== *)
(** ** simulators/DroneAltitudeStandalone.jsx *)
(* ================================================================== *)

Module DroneStandalone.

Definition GRAVITY : R := 9.81.
Definition DEFAULT_MASS : R := 10.0.
Definition MAX_THRUST : R := 2000.
Definition MIN_THRUST : R := -2000.
Definition DT : R := 0.001.
Definition MAX_ALTITUDE : R := 100.

(** [SETPOINT_MODES]. *)
Inductive SetpointMode := CONSTANT | SINE | BOX.

(** The React state [calculateSetpoint] closes over. *)
Record SetpointConfig := mkSetpointConfig {
  setpointMode : SetpointMode;
  constantSetpoint : R;
  sineAmplitude : R;
  sineFrequency : R;
  boxAmplitude : R;
  boxFrequency : R
}.

(** [calculateSetpoint(time)]. *)
Definition calculateSetpoint (cfg : SetpointConfig) (time : R) : R :=
  let baseSetpoint := 50 in
  match setpointMode cfg with
  | CONSTANT => constantSetpoint cfg
  | SINE =>
      baseSetpoint +
      sineAmplitude cfg * sin (2 * PI * sineFrequency cfg * time)
  | BOX =>
      let period := 1 / boxFrequency cfg in
      let phase := JS.rem time period / period in
      baseSetpoint +
      (if Rlt_dec phase 0.5 then boxAmplitude cfg else - boxAmplitude cfg)
  end.

Record State := mkState {
  altitude : R;
  velocity : R;
  mass : R;
  setpoint : R;
  time : R;
  thrust : R;
  crashed : bool
}.

(** [resetSimulation()], [droneMass] being the slider value. *)
Definition resetSimulation (cfg : SetpointConfig) (droneMass : R) : State :=
  let initialSetpoint := calculateSetpoint cfg 0 in
  mkState 50 0 droneMass initialSetpoint 0 0 false.

Definition clampSignal (controlSignal : R) : R :=
  Rmax MIN_THRUST (Rmin MAX_THRUST controlSignal).

Definition netForce (controlSignal : R) (state : State) : R :=
  let thrust := clampSignal controlSignal in
  let gravityForce := mass state * GRAVITY in
  thrust - gravityForce.

Definition acceleration (controlSignal : R) (state : State) : R :=
  netForce controlSignal state / mass state.

(** [simulateStep(controlSignal)]. *)
Definition simulateStep (cfg : SetpointConfig) (controlSignal : R)
    (state : State) : State :=
  if crashed state then state
  else
    let velocity1 := velocity state + acceleration controlSignal state * DT in
    let altitude1 := altitude state + velocity1 * DT in
    let time1 := time state + DT in
    let setpoint1 := calculateSetpoint cfg time1 in
    if orb (if Rle_dec altitude1 0 then true else false)
           (if Rge_dec altitude1 MAX_ALTITUDE then true else false)
    then mkState (Rmax 0 (Rmin MAX_ALTITUDE altitude1)) 0 (mass state)
                 setpoint1 time1 (clampSignal controlSignal) true
    else mkState altitude1 velocity1 (mass state)
                 setpoint1 time1 (clampSignal controlSignal)
                 (crashed state).

End DroneStandalone.

(* ================================================================== *)
(** ** The pendulum with an inline PID
       (InvertedPendulumSimulator, second component of
       hooks/usePhysicsSimulation.js): bounces at the track limit *)
(* ================================================================== *)

Module Pendulum.

Definition GRAVITY : R := 9.81.
Definition PENDULUM_LENGTH : R := 2.0.
Definition PENDULUM_MASS : R := 0.25.
Definition CART_MASS : R := 1.0.
Definition FRICTION_CART : R := 0.1.
Definition FRICTION_PENDULUM : R := 0.01.
Definition NOISE_AMPLITUDE : R := 0.002.
Definition DT : R := 0.001.
Definition TRACK_WIDTH : R := 10.0.

Record State := mkState {
  theta : R;
  thetaDot : R;
  x : R;
  xDot : R;
  integral : R;
  prevError : R;
  time : R;
  fallen : bool
}.

(** [resetSimulation()], [random] being the value of [Math.random()]. *)
Definition resetSimulation (random : R) : State :=
  mkState ((random - 0.5) * 0.1) 0 0 0 0 0 0 false.

(** The Euler update and the angle normalisation of [simulateStep]:
    the state as it stands when the failure checks begin. *)
Definition integrate (force random : R) (state : State) : State :=
  let m := PENDULUM_MASS in
  let M := CART_MASS in
  let l := PENDULUM_LENGTH in
  let g := GRAVITY in
  let b := FRICTION_CART in
  let c := FRICTION_PENDULUM in
  let noise := (random - 0.5) * 2 * NOISE_AMPLITUDE in
  let sinTheta := sin (theta state) in
  let cosTheta := cos (theta state) in
  let denom := l * (4.0 / 3.0 - (m * cosTheta * cosTheta) / (M + m)) in
  let thetaDDot :=
    (g * sinTheta +
     cosTheta * ((- force - m * l * thetaDot state * thetaDot state * sinTheta
                  + b * xDot state) / (M + m)) -
     c * thetaDot state / (m * l) + noise) / denom in
  let xDDot :=
    (force + m * l * (thetaDot state * thetaDot state * sinTheta
                      - thetaDDot * cosTheta) - b * xDot state) / (M + m) in
  let thetaDot1 := thetaDot state + thetaDDot * DT in
  let theta1 := theta state + thetaDot1 * DT in
  let xDot1 := xDot state + xDDot * DT in
  let x1 := x state + xDot1 * DT in
  mkState (JS.normalizeAngle theta1) thetaDot1 x1 xDot1
          (integral state) (prevError state) (time state + DT)
          (fallen state).

(** The failure checks of [simulateStep]. *)
Definition checks (state : State) : State :=
  let fallen1 :=
    if Rgt_dec (Rabs (theta state)) (PI / 2) then true else fallen state in
  if Rgt_dec (Rabs (x state)) (TRACK_WIDTH / 2 - 0.2)
  then mkState (theta state) (thetaDot state)
               (JS.sign (x state) * (TRACK_WIDTH / 2 - 0.2))
               (- xDot state * 0.5)
               (integral state) (prevError state) (time state) fallen1
  else mkState (theta state) (thetaDot state) (x state) (xDot state)
               (integral state) (prevError state) (time state) fallen1.

(** [simulateStep(force)]. *)
Definition simulateStep (force random : R) (state : State) : State :=
  if fallen state then state
  else checks (integrate force random state).

End Pendulum.

(* ================================================================== *)
(** ** The pendulum of the component-based simulator
       (InvertedPendulumSimulator using createPIDController and the shared
       components): both failure conditions set [fallen] *)
(* ================================================================== *)

Module PendulumPanel.

Definition GRAVITY : R := 9.81.
Definition PENDULUM_LENGTH : R := 2.0.
Definition PENDULUM_MASS : R := 0.25.
Definition CART_MASS : R := 1.0.
Definition FRICTION_CART : R := 0.1.
Definition FRICTION_PENDULUM : R := 0.01.
Definition NOISE_AMPLITUDE : R := 0.002.
Definition DT : R := 0.001.
Definition TRACK_WIDTH : R := 20.0.

Record State := mkState {
  theta : R;
  thetaDot : R;
  x : R;
  xDot : R;
  time : R;
  fallen : bool;
  force : R
}.

(** The Euler update and the angle normalisation of [simulateStep]. *)
Definition integrate (force0 random : R) (state : State) : State :=
  let m := PENDULUM_MASS in
  let M := CART_MASS in
  let l := PENDULUM_LENGTH in
  let g := GRAVITY in
  let b := FRICTION_CART in
  let c := FRICTION_PENDULUM in
  let noise := (random - 0.5) * 2 * NOISE_AMPLITUDE in
  let sinTheta := sin (theta state) in
  let cosTheta := cos (theta state) in
  let denom := l * (4.0 / 3.0 - (m * cosTheta * cosTheta) / (M + m)) in
  let thetaDDot :=
    (g * sinTheta +
     cosTheta * ((- force0 - m * l * thetaDot state * thetaDot state * sinTheta
                  + b * xDot state) / (M + m)) -
     c * thetaDot state / (m * l) + noise) / denom in
  let xDDot :=
    (force0 + m * l * (thetaDot state * thetaDot state * sinTheta
                       - thetaDDot * cosTheta) - b * xDot state) / (M + m) in
  let thetaDot1 := thetaDot state + thetaDDot * DT in
  let theta1 := theta state + thetaDot1 * DT in
  let xDot1 := xDot state + xDDot * DT in
  let x1 := x state + xDot1 * DT in
  mkState (JS.normalizeAngle theta1) thetaDot1 x1 xDot1
          (time state + DT) (fallen state) force0.

(** The failure checks of [simulateStep]. *)
Definition checks (state : State) : State :=
  let fallen1 :=
    if Rgt_dec (Rabs (theta state)) (PI / 2) then true else fallen state in
  let fallen2 :=
    if Rgt_dec (Rabs (x state)) (TRACK_WIDTH / 2 - 0.2)
    then true else fallen1 in
  mkState (theta state) (thetaDot state) (x state) (xDot state)
          (time state) fallen2 (force state).

(** [simulateStep(force)]. *)
Definition simulateStep (force0 random : R) (state : State) : State :=
  if fallen state then state
  else checks (integrate force0 random state).

End PendulumPanel.

(* ================================================================== *)
(** ** simulators/InvertedPendulumStandalone.jsx *)
(* ================================================================== *)

Module PendulumStandalone.

Definition GRAVITY : R := 9.81.
Definition PENDULUM_LENGTH : R := 2.0.
Definition PENDULUM_MASS : R := 0.25.
Definition CART_MASS : R := 1.0.
Definition FRICTION_CART : R := 0.1.
Definition FRICTION_PENDULUM : R := 0.01.
Definition NOISE_AMPLITUDE : R := 0.002.
Definition DT : R := 0.001.
Definition TRACK_WIDTH : R := 20.0.

Record State := mkState {
  theta : R;
  thetaDot : R;
  x : R;
  xDot : R;
  time : R;
  force : R;
  floorTilt : R
}.

(** The value [simulateStep] returns besides [null]. *)
Inductive Failure := crashed | fallen.

(** The Euler update and the angle normalisation of [simulateStep]. *)
Definition integrate (force0 floorTilt0 random : R) (state : State)
    : State :=
  let m := PENDULUM_MASS in
  let M := CART_MASS in
  let l := PENDULUM_LENGTH in
  let g := GRAVITY in
  let b := FRICTION_CART in
  let c := FRICTION_PENDULUM in
  let noise := (random - 0.5) * 2 * NOISE_AMPLITUDE in
  let effectiveTheta := theta state + floorTilt0 in
  let sinTheta := sin effectiveTheta in
  let cosTheta := cos effectiveTheta in
  let cartGravityForce := (M + m) * g * sin floorTilt0 in
  let denom := l * (4.0 / 3.0 - (m * cosTheta * cosTheta) / (M + m)) in
  let thetaDDot :=
    (g * sinTheta +
     cosTheta * ((- force0 - cartGravityForce
                  - m * l * thetaDot state * thetaDot state * sinTheta
                  + b * xDot state) / (M + m)) -
     c * thetaDot state / (m * l) + noise) / denom in
  let xDDot :=
    (force0 + cartGravityForce
     + m * l * (thetaDot state * thetaDot state * sinTheta
                - thetaDDot * cosTheta) - b * xDot state) / (M + m) in
  let thetaDot1 := thetaDot state + thetaDDot * DT in
  let theta1 := theta state + thetaDot1 * DT in
  let xDot1 := xDot state + xDDot * DT in
  let x1 := x state + xDot1 * DT in
  mkState (JS.normalizeAngle theta1) thetaDot1 x1 xDot1
          (time state + DT) force0 floorTilt0.

(** The failure checks of [simulateStep], in source order. *)
Definition checks (state : State) : option Failure :=
  if Rgt_dec (Rabs (x state)) (TRACK_WIDTH / 2 - 0.2) then Some crashed
  else if Rgt_dec (Rabs (theta state)) (PI / 2) then Some fallen
  else None.

(** [simulateStep(force, currentFallen, floorTilt)]: the state left in
    [stateRef.current] and the value returned. *)
Definition simulateStep (force0 : R) (currentFallen : bool)
    (floorTilt0 random : R) (state : State) : State * option Failure :=
  if currentFallen then (state, None)
  else
    let state1 := integrate force0 floorTilt0 random state in
    (state1, checks state1).

(** The update of [localFallen] in the animation loop:
    [if (failureResult && !localFallen) localFallen = true]. *)
Definition noteFailure (localFallen : bool) (failureResult : option Failure)
    : bool :=
  match failureResult with
  | Some _ => if negb localFallen then true else localFallen
  | None => localFallen
  end.

End PendulumStandalone.

(* ================================================================== *)
(** ** The fixed-step accumulator loop
       (hooks/usePhysicsSimulation.js, and the same loop in every
       simulator), in exact arithmetic *)
(* ================================================================== *)

Module Loop.

Section Accumulator.

(** The simulation state and one physics step on it (the body of the
    [while] loop but for the accumulator update). *)
Variable Sim : Type.
Variable tick : Sim -> Sim.
Variables dt timeScale : R.

(** The variables of the animation effect: [lastTime], [accumulator], the
    simulation state, and (for the statements below) the states on which a
    physics step was run, oldest first. *)
Record LoopState := mkLoopState {
  lastTime : R;
  accumulator : R;
  sim : Sim;
  stepped : list Sim
}.

(** [while (accumulator >= dt * 1000) { tick; accumulator -= dt * 1000 }],
    at most [fuel] iterations; [None] when the fuel runs out. *)
Fixpoint drain (fuel : nat) (accumulator : R) (sim : Sim) (stepped : list Sim)
    : option (R * Sim * list Sim) :=
  match fuel with
  | O => None
  | S fuel' =>
      if Rge_dec accumulator (dt * 1000)
      then drain fuel' (accumulator - dt * 1000) (tick sim) (stepped ++ [sim])
      else Some (accumulator, sim, stepped)
  end.

(** [loop(currentTime)], up to the physics updates. *)
Definition loop (fuel : nat) (ls : LoopState) (currentTime : R)
    : option LoopState :=
  let deltaTime := Rmin (currentTime - lastTime ls) 50 in
  let accumulator1 := accumulator ls + deltaTime * timeScale in
  match drain fuel accumulator1 (sim ls) (stepped ls) with
  | Some (accumulator2, sim2, stepped2) =>
      Some (mkLoopState currentTime accumulator2 sim2 stepped2)
  | None => None
  end.

(** The frames at the successive times [stamps]. *)
Fixpoint frames (fuel : nat) (ls : LoopState) (stamps : list R)
    : option LoopState :=
  match stamps with
  | [] => Some ls
  | currentTime :: rest =>
      match loop fuel ls currentTime with
      | Some ls' => frames fuel ls' rest
      | None => None
      end
  end.

(** The state when the effect starts at time [now]. *)
Definition start (now : R) (sim0 : Sim) : LoopState :=
  mkLoopState now 0 sim0 [].

End Accumulator.

(** The frame times that follow [lastTime] with the given deltas. *)
Fixpoint stampsFrom (lastTime : R) (deltas : list R) : list R :=
  match deltas with
  | [] => []
  | delta :: rest => (lastTime + delta) :: stampsFrom (lastTime + delta) rest
  end.

(** The sum of the deltas. *)
Fixpoint total (deltas : list R) : R :=
  match deltas with
  | [] => 0
  | delta :: rest => delta + total rest
  end.

(** [n] physics steps in a row. *)
Fixpoint iter {Sim : Type} (tick : Sim -> Sim) (n : nat) (s : Sim) : Sim :=
  match n with
  | O => s
  | S n' => iter tick n' (tick s)
  end.

(** The states on which these [n] steps run. *)
Fixpoint trace {Sim : Type} (tick : Sim -> Sim) (n : nat) (s : Sim)
    : list Sim :=
  match n with
  | O => []
  | S n' => s :: trace tick n' (tick s)
  end.

End Loop.

(** The hook [usePhysicsSimulation]: the state carries [time] next to the
    caller's fields, and a physics step is the caller's [onPhysicsStep]
    followed by [time += dt]. *)
Module Hook.

Record State (F : Type) := mkState { time : R; fields : F }.
Arguments mkState {F} _ _.
Arguments time {F} _.
Arguments fields {F} _.

Definition tick {F : Type} (onPhysicsStep : option (State F -> R -> State F))
    (dt : R) (state : State F) : State F :=
  let state1 :=
    match onPhysicsStep with
    | Some callback => callback state dt
    | None => state
    end in
  mkState (time state1 + dt) (fields state1).

Definition loop {F : Type} (onPhysicsStep : option (State F -> R -> State F))
    (dt timeScale : R) :=
  Loop.loop (State F) (tick onPhysicsStep dt) dt timeScale.

Definition frames {F : Type}
    (onPhysicsStep : option (State F -> R -> State F)) (dt timeScale : R) :=
  Loop.frames (State F) (tick onPhysicsStep dt) dt timeScale.

End Hook.

(** The animation loop of the hot tub. *)
Module HotTubLoop.

Definition frames (controlMode : HotTub.ControlMode) (userInput : R)
    (pidGains : Gains) :=
  Loop.frames (HotTub.State * PidUtil.State)
              (HotTub.tick controlMode userInput pidGains)
              HotTub.DT HotTub.TIME_SCALE.

End HotTubLoop.

(* ================================================================== *)
(** ** The accumulator loop in binary64 *)
(* ================================================================== *)

(** Binary64 on the rationals.  A finite double is the rational it
    denotes, and an operation is the exact operation followed by [round]:
    rounding to the nearest number with a 53-bit significand, ties to the
    even significand.  The exponent range is not bounded (no overflow to
    [Infinity], no subnormal numbers) and there is no NaN and no negative
    zero; comparisons and [Math.min] are exact, as they are in binary64. *)
Module Binary64.

Import QArith Qround Qabs Qreduction.
Local Open Scope Q_scope.

(** The exponent of the leading bit: [2 ^ magnitude q <= |q| <
    2 ^ (magnitude q + 1)] for [q] other than 0. *)
Definition magnitude (q : Q) : Z :=
  let guess := (Z.log2 (Z.abs (Qnum q)) - Z.log2 (Zpos (Qden q)))%Z in
  if Qle_bool (2 ^ guess) (Qabs q) then guess else (guess - 1)%Z.

(** The distance between the doubles around [q]. *)
Definition ulp (q : Q) : Q := 2 ^ (magnitude q - 52).

(** The nearest integer, the even one of the two when [q] is half way. *)
Definition nearestEven (q : Q) : Z :=
  let low := Qfloor q in
  match Qcompare (q - inject_Z low) (1 # 2) with
  | Lt => low
  | Gt => (low + 1)%Z
  | Eq => if Z.even low then low else (low + 1)%Z
  end.

(** The double nearest to [q]. *)
Definition round (q : Q) : Q :=
  let r := Qred q in
  if Qeq_bool r 0 then 0
  else inject_Z (nearestEven (r / ulp r)) * ulp r.

(** [a + b], [a - b], [a * b], [a >= b] and [Math.min(a, b)]. *)
Definition add (a b : Q) : Q := round (a + b).
Definition sub (a b : Q) : Q := round (a - b).
Definition mul (a b : Q) : Q := round (a * b).
Definition geb (a b : Q) : bool := Qle_bool b a.
Definition min (a b : Q) : Q := if Qle_bool b a then b else a.

End Binary64.

(** Binary64 as the primitive floating-point numbers of Rocq, which are
    the doubles of the machine. *)
Module Kernel.

Import QArith.
Import PrimFloat.

#[local] Set Warnings "-inexact-float".

Definition geb (a b : float) : bool := leb b a.
Definition min (a b : float) : float := if leb b a then b else a.
Definition zero : float := 0%float.
Definition fifty : float := 50%float.
Definition thousand : float := 1000%float.

(** The rational a finite double denotes, in lowest terms. *)
Definition toQ (f : float) : option Q :=
  match FloatOps.Prim2SF f with
  | SpecFloat.S754_zero _ => Some 0%Q
  | SpecFloat.S754_finite s m e =>
      Some (Qreduction.Qred
              (inject_Z (if s then Zneg m else Zpos m) * 2 ^ e)%Q)
  | _ => None
  end.

(** Literals and operations on doubles, each next to what [Binary64]
    gives for it: the constants of the simulators, the operations of the
    hot tub loop at fractional frame stamps, and cases that are half way
    between two doubles. *)
Definition samples : list (float * Q) :=
  [ (0.1%float, Binary64.round (1 # 10));
    (0.001%float, Binary64.round (1 # 1000));
    (0.4%float, Binary64.round (4 # 10));
    (1016.9%float, Binary64.round (10169 # 10));
    ((0.1 * 1000)%float, Binary64.mul (Binary64.round (1 # 10)) 1000);
    ((0.001 * 1000)%float, Binary64.mul (Binary64.round (1 # 1000)) 1000);
    ((0.5 - 0.4)%float, Binary64.sub (1 # 2) (Binary64.round (4 # 10)));
    (((0.5 - 0.4) * 600)%float,
     Binary64.mul (Binary64.sub (1 # 2) (Binary64.round (4 # 10))) 600);
    ((0.4 * 600)%float, Binary64.mul (Binary64.round (4 # 10)) 600);
    ((1016.9 - 1000)%float,
     Binary64.sub (Binary64.round (10169 # 10)) 1000);
    (((1016.9 - 1000) * 600)%float,
     Binary64.mul (Binary64.sub (Binary64.round (10169 # 10)) 1000) 600);
    ((0.1 + 0.1 + 0.1)%float,
     Binary64.add (Binary64.add (Binary64.round (1 # 10))
                                (Binary64.round (1 # 10)))
                  (Binary64.round (1 # 10)));
    ((1 / 3)%float, Binary64.round (1 # 3));
    ((-1 / 3)%float, Binary64.round (-1 # 3));
    ((2 / 3)%float, Binary64.round (2 # 3));
    ((9007199254740992 + 1)%float, Binary64.round 9007199254740993);
    ((9007199254740992 + 3)%float, Binary64.round 9007199254740995);
    ((4503599627370496 + 0.5)%float, Binary64.round (9007199254740993 # 2));
    ((4503599627370497 + 0.5)%float, Binary64.round (9007199254740995 # 2));
    ((9007199254740991 + 0.5)%float,
     Binary64.round (18014398509481983 # 2));
    ((1e-10 * 3e-7)%float,
     Binary64.mul (Binary64.round (1 # 10000000000))
                  (Binary64.round (3 # 10000000))) ].

(** Whether a double and a rational are the same number. *)
Definition same (p : float * Q) : bool :=
  match toQ (fst p) with
  | Some r => Qeq_bool r (snd p)
  | None => false
  end.

(** The same for the quotients [i / j] with [i] and [j] from 1 to 30, and
    for the sum, the difference and the product of each with the quotient
    [(j + 3) / (i + 1)]. *)
Definition ofNat (n : nat) : float := of_uint63 (Uint63.of_Z (Z.of_nat n)).

Definition quotient (i j : nat) : Q :=
  Binary64.round (Z.of_nat i # Pos.of_nat j).

Definition cases (ij : nat * nat) : list (float * Q) :=
  let (i, j) := ij in
  let x := (ofNat i / ofNat j)%float in
  let y := (ofNat (j + 3) / ofNat (i + 1))%float in
  let p := quotient i j in
  let q := quotient (j + 3) (i + 1) in
  [ (x, p);
    ((x + y)%float, Binary64.add p q);
    ((x - y)%float, Binary64.sub p q);
    ((x * y)%float, Binary64.mul p q) ].

Definition grid : list (float * Q) :=
  flat_map cases (list_prod (seq 1 30) (seq 1 30)).

(** The frame stamps 0.4 and 0.5, the whole stamps that follow 1000 with
    three deltas of 16 or one of 48, and the hot tub's [DT] and
    [TIME_SCALE]. *)
Definition stamps : list float := [0.4; 0.5]%float.
Definition single : list float := [0.5]%float.
Definition wholeStamps : list float := [1016; 1032; 1048]%float.
Definition wholeSingle : list float := [1048]%float.
Definition DT : float := 0.1%float.
Definition TIME_SCALE : float := 600%float.

End Kernel.

(** The loop of [Loop], with the arithmetic on [lastTime], [currentTime]
    and the accumulator as a parameter: [currentTime - lastTime],
    [deltaTime * timeScale] (the simulators that write
    [accumulator += deltaTime] have the time scale 1, and [x * 1] is [x]),
    [accumulator += ...], [dt * 1000], [accumulator >= dt * 1000] and
    [accumulator -= dt * 1000], each rounded as the arithmetic says. *)
Module FloatLoop.

Record Arithmetic (num : Type) := mkArithmetic {
  add : num -> num -> num;
  sub : num -> num -> num;
  mul : num -> num -> num;
  geb : num -> num -> bool;
  min : num -> num -> num;
  zero : num;
  fifty : num;
  thousand : num
}.

Arguments add {num} _ _ _.
Arguments sub {num} _ _ _.
Arguments mul {num} _ _ _.
Arguments geb {num} _ _ _.
Arguments min {num} _ _ _.
Arguments zero {num} _.
Arguments fifty {num} _.
Arguments thousand {num} _.

(** Binary64 on the rationals, and binary64 as primitive floats. *)
Definition binary64 : Arithmetic QArith_base.Q :=
  mkArithmetic QArith_base.Q Binary64.add Binary64.sub Binary64.mul
               Binary64.geb Binary64.min
               (QArith_base.inject_Z 0) (QArith_base.inject_Z 50)
               (QArith_base.inject_Z 1000).

Definition kernel : Arithmetic PrimFloat.float :=
  mkArithmetic PrimFloat.float PrimFloat.add PrimFloat.sub PrimFloat.mul
               Kernel.geb Kernel.min Kernel.zero Kernel.fifty Kernel.thousand.

Section Accumulator.

Variable num : Type.
Variable A : Arithmetic num.
Variable Sim : Type.
Variable tick : Sim -> Sim.
Variables dt timeScale : num.

Record LoopState := mkLoopState {
  lastTime : num;
  accumulator : num;
  sim : Sim;
  stepped : list Sim
}.

(** [while (accumulator >= dt * 1000) { tick; accumulator -= dt * 1000 }],
    at most [fuel] iterations; [None] when the fuel runs out. *)
Fixpoint drain (fuel : nat) (accumulator : num) (sim : Sim)
    (stepped : list Sim) : option (num * Sim * list Sim) :=
  match fuel with
  | O => None
  | S fuel' =>
      if geb A accumulator (mul A dt (thousand A))
      then drain fuel' (sub A accumulator (mul A dt (thousand A)))
                 (tick sim) (stepped ++ [sim])
      else Some (accumulator, sim, stepped)
  end.

(** [loop(currentTime)], up to the physics updates. *)
Definition loop (fuel : nat) (ls : LoopState) (currentTime : num)
    : option LoopState :=
  let deltaTime := min A (sub A currentTime (lastTime ls)) (fifty A) in
  let accumulator1 := add A (accumulator ls) (mul A deltaTime timeScale) in
  match drain fuel accumulator1 (sim ls) (stepped ls) with
  | Some (accumulator2, sim2, stepped2) =>
      Some (mkLoopState currentTime accumulator2 sim2 stepped2)
  | None => None
  end.

(** The frames at the successive times [stamps]. *)
Fixpoint frames (fuel : nat) (ls : LoopState) (stamps : list num)
    : option LoopState :=
  match stamps with
  | [] => Some ls
  | currentTime :: rest =>
      match loop fuel ls currentTime with
      | Some ls' => frames fuel ls' rest
      | None => None
      end
  end.

(** The state when the effect starts at time [now]. *)
Definition start (now : num) (sim0 : Sim) : LoopState :=
  mkLoopState now (zero A) sim0 [].

(** The step of the hook when it is given no [onPhysicsStep], on the
    [time] field: [stateRef.current.time += dt]. *)
Definition clock (time : num) : num := add A time dt.

End Accumulator.

Arguments lastTime {num Sim} _.
Arguments accumulator {num Sim} _.
Arguments sim {num Sim} _.
Arguments stepped {num Sim} _.

(** The whole-millisecond frame times that follow [lastTime] with the
    given deltas, and the sum of the deltas. *)
Fixpoint stampsFrom (lastTime : Z) (deltas : list Z) : list Z :=
  match deltas with
  | [] => []
  | delta :: rest => (lastTime + delta)%Z :: stampsFrom (lastTime + delta) rest
  end.

Fixpoint total (deltas : list Z) : Z :=
  match deltas with
  | [] => 0%Z
  | delta :: rest => (delta + total rest)%Z
  end.

(** How many steps a run made and where it left the simulation. *)
Definition outcome {num Sim : Type} (run : option (@LoopState num Sim))
    : option (nat * Sim) :=
  option_map (fun ls => (length (stepped ls), sim ls)) run.

End FloatLoop.

(** The hook run with the hot tub's [dt] and [timeScale] and without
    [onPhysicsStep], from [lastTime = now] with an empty accumulator and
    the clock at 0: the number of steps and the final [time], on primitive
    floats and on [Binary64]. *)
Module HookClock.

Definition onFloats (fuel : nat) (now : PrimFloat.float)
    (stamps : list PrimFloat.float) : option (nat * PrimFloat.float) :=
  FloatLoop.outcome
    (FloatLoop.frames PrimFloat.float FloatLoop.kernel PrimFloat.float
       (FloatLoop.clock PrimFloat.float FloatLoop.kernel Kernel.DT)
       Kernel.DT Kernel.TIME_SCALE fuel
       (FloatLoop.start PrimFloat.float FloatLoop.kernel PrimFloat.float
          now Kernel.zero)
       stamps).

Definition DT : QArith_base.Q :=
  Binary64.round (QArith_base.Qmake 1 10).

Definition onBinary64 (fuel : nat) (now : QArith_base.Q)
    (stamps : list QArith_base.Q) : option (nat * QArith_base.Q) :=
  FloatLoop.outcome
    (FloatLoop.frames QArith_base.Q FloatLoop.binary64 QArith_base.Q
       (FloatLoop.clock QArith_base.Q FloatLoop.binary64 DT)
       DT (QArith_base.inject_Z 600) fuel
       (FloatLoop.start QArith_base.Q FloatLoop.binary64 QArith_base.Q
          now (QArith_base.inject_Z 0))
       stamps).

End HookClock.

(* ================================================================== *)
(** ** The disturbances and the control law of
       simulators/InvertedPendulumStandalone.jsx *)
(* ================================================================== *)

Module PendulumStandaloneControl.

(** [DISTURBANCE_TYPES]. *)
Inductive DisturbanceType := OFF | NUDGES | TILTS.

Definition NUDGE_IMPULSE_DURATION : R := 0.5.

(** The React state the two disturbance generators close over. *)
Record Disturbance := mkDisturbance {
  disturbanceType : DisturbanceType;
  nudgeAmplitude : R;
  nudgeFrequency : R;
  tiltAmplitude : R;     (* degrees *)
  tiltFrequency : R
}.

(** [calculateNudgeForce(time)]. *)
Definition calculateNudgeForce (d : Disturbance) (time : R) : R :=
  match disturbanceType d with
  | NUDGES =>
      let period := 1 / nudgeFrequency d in
      let timeInPeriod := JS.rem time period in
      let halfPeriod := period / 2 in
      let isFirstHalf :=
        if Rlt_dec timeInPeriod halfPeriod then true else false in
      let timeInHalf :=
        if isFirstHalf then timeInPeriod else timeInPeriod - halfPeriod in
      if Rlt_dec timeInHalf NUDGE_IMPULSE_DURATION
      then
        let direction := if isFirstHalf then 1 else -1 in
        nudgeAmplitude d * direction
      else 0
  | _ => 0
  end.

(** [calculateTiltAngle(time)]. *)
Definition calculateTiltAngle (d : Disturbance) (time : R) : R :=
  match disturbanceType d with
  | TILTS =>
      let amplitudeRad := tiltAmplitude d * PI / 180 in
      amplitudeRad * sin (2 * PI * tiltFrequency d * time)
  | _ => 0
  end.

(** What [computePIDForce()] returns: the controller's result and
    [totalForce]. *)
Record ForceResult := mkForceResult {
  pidResult : Pid.Result;
  totalForce : R
}.

(** [computePIDForce()]: the result and the controller's new state. *)
Definition computePIDForce (pidGains : Gains) (ctl : Pid.State)
    (state : PendulumStandalone.State) : ForceResult * Pid.State :=
  let error := PendulumStandalone.theta state in
  let (pidResult, ctl') :=
    Pid.compute Pid.defaults ctl error pidGains PendulumStandalone.DT in
  let positionForce :=
    20 * PendulumStandalone.x state + 10 * PendulumStandalone.xDot state in
  let totalForce :=
    Rmax (-50) (Rmin 50 (Pid.output pidResult + positionForce)) in
  (mkForceResult pidResult totalForce, ctl').

(** What one iteration of the [while] loop works on: the plant, the
    controller and the loop's [localFallen]. *)
Record LoopVars := mkLoopVars {
  plant : PendulumStandalone.State;
  controller : Pid.State;
  localFallen : bool
}.

(** One iteration of the [while] loop of the animation effect. *)
Definition iteration (pidGains : Gains) (d : Disturbance) (random : R)
    (v : LoopVars) : LoopVars :=
  let state := plant v in
  let (pidResult, ctl') := computePIDForce pidGains (controller v) state in
  let force :=
    totalForce pidResult
    + calculateNudgeForce d (PendulumStandalone.time state) in
  let floorTilt := calculateTiltAngle d (PendulumStandalone.time state) in
  let (state', failureResult) :=
    PendulumStandalone.simulateStep force (localFallen v) floorTilt random
                                    state in
  mkLoopVars state' ctl'
             (PendulumStandalone.noteFailure (localFallen v) failureResult).

End PendulumStandaloneControl.

(* ================================================================== *)
(** ** The inline controller and the loop body of the pendulum in
       hooks/usePhysicsSimulation.js *)
(* ================================================================== *)

Module PendulumControl.

(** The state the component starts with. *)
Definition initial : Pendulum.State :=
  Pendulum.mkState 0.05 0 0 0 0 0 0 false.

(** [computePIDForce()]: the force and the state with the controller
    fields updated. *)
Definition computePIDForce (kp ki kd : R) (state : Pendulum.State)
    : R * Pendulum.State :=
  let error := Pendulum.theta state in
  let integral1 := Pendulum.integral state + error * Pendulum.DT in
  let integral2 := Rmax (-10) (Rmin 10 integral1) in
  let derivative := (error - Pendulum.prevError state) / Pendulum.DT in
  let positionError := Pendulum.x state in
  let positionDerivative := Pendulum.xDot state in
  let angleForce := kp * error + ki * integral2 + kd * derivative in
  let positionForce := 20 * positionError + 10 * positionDerivative in
  let totalForce := angleForce + positionForce in
  (Rmax (-50) (Rmin 50 totalForce),
   Pendulum.mkState (Pendulum.theta state) (Pendulum.thetaDot state)
                    (Pendulum.x state) (Pendulum.xDot state)
                    integral2 error
                    (Pendulum.time state) (Pendulum.fallen state)).

(** ['pid'] or ['user']. *)
Inductive ControlMode := pid | user.

(** What the loop closes over during one effect, and the value
    [Math.random()] takes in the step. *)
Record Inputs := mkInputs {
  controlMode : ControlMode;
  userInput : R;
  nudgeForce : R;
  kp : R;
  ki : R;
  kd : R;
  random : R
}.

(** The force of one iteration and the state after the controller ran. *)
Definition commandedForce (i : Inputs) (state : Pendulum.State)
    : R * Pendulum.State :=
  let (force, state1) :=
    match controlMode i with
    | pid => computePIDForce (kp i) (ki i) (kd i) state
    | user => (userInput i * 30, state)
    end in
  (force + nudgeForce i, state1).

(** One iteration of the [while] loop, as far as the physics state
    goes. *)
Definition iteration (i : Inputs) (state : Pendulum.State)
    : Pendulum.State :=
  let (force, state1) := commandedForce i state in
  Pendulum.simulateStep force (random i) state1.

(** What writes the physics state: loop iterations and resets. *)
Inductive Event :=
| Iterate (i : Inputs)
| Reset (random : R).

Definition apply (state : Pendulum.State) (ev : Event) : Pendulum.State :=
  match ev with
  | Iterate i => iteration i state
  | Reset random => Pendulum.resetSimulation random
  end.

End PendulumControl.

(* ================================================================== *)
(** ** The rest of drone_simulator.jsx: inline controller, events *)
(* ================================================================== *)

Module DroneSimulatorControl.

Definition SETPOINT_MIN : R := 20.
Definition SETPOINT_MAX : R := 80.

(** The state installed by [resetSimulation]. *)
Definition initial : DroneSimulator.State :=
  DroneSimulator.mkState 50 0 DroneSimulator.BASE_DRONE_MASS 50 0 0 0 0 0
                         false.

(** [computePIDThrust()]: the output and the state with the controller
    fields updated. *)
Definition computePIDThrust (kp ki kd : R) (state : DroneSimulator.State)
    : R * DroneSimulator.State :=
  let error := DroneSimulator.setpoint state - DroneSimulator.altitude state in
  let integral1 := DroneSimulator.integral state + error * DroneSimulator.DT in
  let integral2 := Rmax (-50) (Rmin 50 integral1) in
  let derivative :=
    (error - DroneSimulator.prevError state) / DroneSimulator.DT in
  let pidOutput := kp * error + ki * integral2 + kd * derivative in
  (pidOutput,
   DroneSimulator.mkState
     (DroneSimulator.altitude state) (DroneSimulator.velocity state)
     (DroneSimulator.mass state) (DroneSimulator.setpoint state)
     integral2 error
     (DroneSimulator.time state) (DroneSimulator.thrust state)
     (DroneSimulator.massAdded state) (DroneSimulator.crashed state)).

(** [changeSetpoint()], [random] being the value of [Math.random()]. *)
Definition changeSetpoint (random : R) (state : DroneSimulator.State)
    : DroneSimulator.State :=
  if DroneSimulator.crashed state then state
  else
    let newSetpoint := SETPOINT_MIN + random * (SETPOINT_MAX - SETPOINT_MIN) in
    DroneSimulator.mkState
      (DroneSimulator.altitude state) (DroneSimulator.velocity state)
      (DroneSimulator.mass state) newSetpoint
      0 (DroneSimulator.prevError state)
      (DroneSimulator.time state) (DroneSimulator.thrust state)
      (DroneSimulator.massAdded state) (DroneSimulator.crashed state).

(** [addWeight()]. *)
Definition addWeight (state : DroneSimulator.State) : DroneSimulator.State :=
  if DroneSimulator.crashed state then state
  else
    DroneSimulator.mkState
      (DroneSimulator.altitude state) (DroneSimulator.velocity state)
      (DroneSimulator.mass state + DroneSimulator.MASS_INCREMENT)
      (DroneSimulator.setpoint state)
      (DroneSimulator.integral state) (DroneSimulator.prevError state)
      (DroneSimulator.time state) (DroneSimulator.thrust state)
      (DroneSimulator.massAdded state + 1) (DroneSimulator.crashed state).

(** ['pid'] or ['user']. *)
Inductive ControlMode := pid | user.

(** One iteration of the [while] loop, as far as the physics state
    goes. *)
Definition iteration (controlMode : ControlMode) (userInput kp ki kd : R)
    (state : DroneSimulator.State) : DroneSimulator.State :=
  match controlMode with
  | pid =>
      let (thrust, state1) := computePIDThrust kp ki kd state in
      DroneSimulator.simulateStep thrust state1
  | user => DroneSimulator.simulateStep (userInput * 500) state
  end.

(** What writes the physics state. *)
Inductive Event :=
| Iterate (controlMode : ControlMode) (userInput kp ki kd : R)
| ChangeSetpoint (random : R)
| AddWeight
| Reset.

Definition apply (state : DroneSimulator.State) (ev : Event)
    : DroneSimulator.State :=
  match ev with
  | Iterate controlMode userInput kp ki kd =>
      iteration controlMode userInput kp ki kd state
  | ChangeSetpoint random => changeSetpoint random state
  | AddWeight => addWeight state
  | Reset => initial
  end.

End DroneSimulatorControl.

(* ================================================================== *)
(** ** The control law of DroneAltitudeStandalone.jsx *)
(* ================================================================== *)

Module DroneStandaloneControl.

(** [computePIDThrust()]: the controller's result and its new state. *)
Definition computePIDThrust (pidGains : Gains) (ctl : Pid.State)
    (state : DroneStandalone.State) : Pid.Result * Pid.State :=
  let error :=
    DroneStandalone.setpoint state - DroneStandalone.altitude state in
  Pid.compute Pid.defaults ctl error pidGains DroneStandalone.DT.

(** One iteration of the [while] loop: plant and controller. *)
Definition iteration (cfg : DroneStandalone.SetpointConfig)
    (pidGains : Gains) (s : DroneStandalone.State * Pid.State)
    : DroneStandalone.State * Pid.State :=
  let (state, ctl) := s in
  let (pidResult, ctl') := computePIDThrust pidGains ctl state in
  (DroneStandalone.simulateStep cfg (Pid.output pidResult) state, ctl').

End DroneStandaloneControl.

(* ================================================================== *)
(** ** The events of the hot tub (simulators/HotTub.jsx) *)
(* ================================================================== *)

Module HotTubEvents.

Definition SETPOINT_MIN : R := 30.
Definition SETPOINT_MAX : R := 42.
Definition AMBIENT_MIN : R := -10.
Definition AMBIENT_MAX : R := 35.

(** [changeSetpoint()], [random] being the value of [Math.random()]. *)
Definition changeSetpoint (random : R) (state : HotTub.State)
    : HotTub.State :=
  let newSetpoint := SETPOINT_MIN + random * (SETPOINT_MAX - SETPOINT_MIN) in
  HotTub.mkState (HotTub.temperature state) newSetpoint
                 (HotTub.ambient state) (HotTub.time state)
                 (HotTub.heaterPower state).

(** [changeAmbient()]. *)
Definition changeAmbient (random : R) (state : HotTub.State)
    : HotTub.State :=
  let newAmbient := AMBIENT_MIN + random * (AMBIENT_MAX - AMBIENT_MIN) in
  HotTub.mkState (HotTub.temperature state) (HotTub.setpoint state)
                 newAmbient (HotTub.time state)
                 (HotTub.heaterPower state).

(** What writes the plant and the controller. *)
Inductive Event :=
| Iterate (controlMode : HotTub.ControlMode) (userInput : R)
          (pidGains : Gains)
| ChangeSetpoint (random : R)
| ChangeAmbient (random : R)
| Reset.

Definition apply (s : HotTub.State * PidUtil.State) (ev : Event)
    : HotTub.State * PidUtil.State :=
  match ev with
  | Iterate controlMode userInput pidGains =>
      HotTub.tick controlMode userInput pidGains s
  | ChangeSetpoint random => (changeSetpoint random (fst s), snd s)
  | ChangeAmbient random => (changeAmbient random (fst s), snd s)
  | Reset => (HotTub.initial, PidUtil.reset (snd s))
  end.

End HotTubEvents.

(* ================================================================== *)
(** ** The axis computations of the DataChart component *)
(* ================================================================== *)

Module Chart.

Import String.

(** One entry of the [series] prop.  An absent or empty [data] is the empty
    list (the source tests [!data || data.length === 0] and reads
    [data || []]); [isErrorOrControl] is
    [label.includes('Error') || label.includes('Control')]; a [sharedAxis]
    that is absent or the empty string, the two falsy cases, is [None]. *)
Record Series := mkSeries {
  data : list R;
  isErrorOrControl : bool;
  sharedAxis : option string
}.

(** The axis key HotTub.jsx gives its setpoint and measured series. *)
Definition temperature : string := "temperature".

(** [Math.min(...values)] and [Math.max(...values)].  On an empty array
    JavaScript gives [Infinity] and [-Infinity]; no call below reaches that
    case (the callers test for it first), and the model gives 0 there. *)
Definition minOf (values : list R) : R :=
  match values with
  | [] => 0
  | first :: rest => fold_left Rmin rest first
  end.

Definition maxOf (values : list R) : R :=
  match values with
  | [] => 0
  | first :: rest => fold_left Rmax rest first
  end.

(** [value || 1] on a number. *)
Definition orOne (value : R) : R :=
  if Req_dec_T value 0 then 1 else value.

Record Bounds := mkBounds { min : R; max : R }.

(** The bounds once the values to fit are known: the code after
    [Math.min]/[Math.max], the same in the shared and the independent
    branch. *)
Definition boundsOf (errorOrControl : bool) (values : list R) : Bounds :=
  let margin := 0.1 in
  let min0 := minOf values in
  let max0 := maxOf values in
  if errorOrControl then
    let absMax := Rmax (Rabs min0) (Rabs max0) in
    let rangeWithMargin := absMax * (1 + margin) in
    mkBounds (- rangeWithMargin) rangeWithMargin
  else
    let range := orOne (max0 - min0) in
    mkBounds (min0 - range * margin) (max0 + range * margin).

(** [sharedAxisGroups[key]], as the series of the group rather than their
    indices, in the order of [series]. *)
Definition group (series : list Series) (key : string) : list Series :=
  filter (fun s =>
            match sharedAxis s with
            | Some key' => String.eqb key' key
            | None => false
            end) series.

(** [groupIndices.flatMap(i => series[i].data || [])]. *)
Definition allValues (series : list Series) (key : string) : list R :=
  flat_map data (group series key).

(** The callback of [series.map] in [seriesBounds]. *)
Definition boundsFor (series : list Series) (s : Series) : Bounds :=
  match data s with
  | [] => mkBounds 0 1
  | _ :: _ =>
      match sharedAxis s with
      | Some key =>
          match group series key with
          | _ :: _ => boundsOf (isErrorOrControl s) (allValues series key)
          | [] => boundsOf (isErrorOrControl s) (data s)
          end
      | None => boundsOf (isErrorOrControl s) (data s)
      end
  end.

(** [seriesBounds]. *)
Definition seriesBounds (series : list Series) : list Bounds :=
  map (boundsFor series) series.

(** [xBounds]. *)
Definition xBounds (timeHistory : list R) : Bounds :=
  mkBounds 0 (match timeHistory with
              | [] => 10
              | _ :: _ => maxOf timeHistory
              end).

(** [getDecimalPlaces(value, range)]. *)
Definition getDecimalPlaces (value range : R) : nat :=
  if Rgt_dec range 10 then 0%nat
  else if Rgt_dec range 1 then 1%nat
  else if Rgt_dec range 0.1 then 2%nat
  else 3%nat.

Record Tick := mkTick { value : R; y : R; decimals : nat }.

Section Layout.

(** The props [width] and [height], and [series.length]. *)
Variables width height : R.
Variable seriesLength : nat.

Definition axisSpacing : R := 45.
Definition baseLeftPadding : R := 50.
Definition rightPadding : R := 20.
Definition topPadding : R := 20.
Definition bottomPadding : R := 35.

Definition leftPadding : R := baseLeftPadding + INR seriesLength * axisSpacing.
Definition plotWidth : R := width - leftPadding - rightPadding.
Definition plotHeight : R := height - topPadding - bottomPadding.

(** The coordinates [generatePoints] gives the value [v] at index [i];
    [timeHistory[i] || 0] is 0 past the end of [timeHistory]. *)
Definition pointX (timeHistory : list R) (i : nat) : R :=
  let xb := xBounds timeHistory in
  let time := nth i timeHistory 0 in
  leftPadding + ((time - min xb) / orOne (max xb - min xb)) * plotWidth.

Definition pointY (bounds : Bounds) (v : R) : R :=
  let range := orOne (max bounds - min bounds) in
  topPadding + plotHeight - ((v - min bounds) / range) * plotHeight.

(** [generatePoints(data, bounds)], as the list of coordinates the string
    joins; the empty string is the empty list. *)
Definition generatePoints (timeHistory values : list R) (bounds : Bounds)
    : list (R * R) :=
  if ((List.length values <? 2) || (List.length timeHistory <? 2))%nat
  then []
  else
    map (fun iv => (pointX timeHistory (fst iv), pointY bounds (snd iv)))
        (combine (seq 0 (List.length values)) values).

(** The tick pushed at index [i]. *)
Definition tickAt (bounds : Bounds) (count : nat) (i : nat) : Tick :=
  let range := max bounds - min bounds in
  let decimals := getDecimalPlaces (max bounds) range in
  mkTick (min bounds + (INR i / (INR count - 1)) * range)
         (topPadding + plotHeight - (INR i / (INR count - 1)) * plotHeight)
         decimals.

(** [generateTicks(bounds, count)]. *)
Definition generateTicks (bounds : Bounds) (count : nat) : list Tick :=
  map (tickAt bounds count) (seq 0 count).

End Layout.

End Chart.

(* ================================================================== *)
(** ** Vocabulary of the statements *)
(* ================================================================== *)

(** [trailing m h]: the last [m] samples of [h] are zero, or all of them
    when [h] holds fewer. *)
Definition trailing (m : nat) (h : list R) : Prop :=
  exists p z, h = p ++ z /\ Forall (eq 0) z /\ ((m <= length z)%nat \/ p = []).

(** A call of a streak: error [e], positive time step. *)
Definition steady (e : R) (call : R * Gains * R) : Prop :=
  fst (fst call) = e /\ 0 < snd call.

(** The temperature the tank tends to under ambient [A] and power [P]. *)
Definition steadyState (A P : R) : R :=
  JS.clamp (A + P / HotTub.HEAT_LOSS_COEFFICIENT) 0 50.

(** The factor by which one step shrinks the distance to the steady
    state. *)
Definition decay : R :=
  1 - HotTub.HEAT_LOSS_COEFFICIENT * HotTub.DT / HotTub.THERMAL_MASS.

(** [k] whole steps of length [step] fit into the elapsed time [E] (none
    when [E] is negative). *)
Definition whole (step E : R) (k : nat) : Prop :=
  E < step * (INR k + 1) /\ (k <> 0%nat -> step * INR k <= E).

(** The calls a caller can make on the embedded controller. *)
Inductive PidOp :=
| PidCompute (error : R) (gains : Gains) (dt : R)
| PidReset
| PidResetIntegral.

Definition applyPidOp (cfg : Pid.Config) (st : Pid.State) (op : PidOp)
    : Pid.State :=
  match op with
  | PidCompute error gains dt => snd (Pid.compute cfg st error gains dt)
  | PidReset => Pid.reset st
  | PidResetIntegral => Pid.resetIntegral st
  end.

(** The outputs of a sequence of [compute] calls on the shared
    controller. *)
Fixpoint utilOutputs (cfg : PidUtil.Config) (st : PidUtil.State)
    (calls : list (R * Gains * R)) : list R :=
  match calls with
  | [] => []
  | (error, gains, dt) :: rest =>
      let r := PidUtil.compute cfg st error gains dt in
      fst r :: utilOutputs cfg (snd r) rest
  end.

(** The same controller configuration for both controllers, with a
    window of one sample. *)
Definition windowOne (cfg : PidUtil.Config) : Pid.Config :=
  Pid.mkConfig (PidUtil.integralMin cfg) (PidUtil.integralMax cfg) 1.

(** The integral after [n] calls of the shared controller with the same
    error and time step. *)
Fixpoint integralAfter (cfg : PidUtil.Config) (n : nat) (st : PidUtil.State)
    (error : R) (gains : Gains) (dt : R) : R :=
  match n with
  | O => PidUtil.integral st
  | S n' =>
      integralAfter cfg n' (snd (PidUtil.compute cfg st error gains dt))
                    error gains dt
  end.

(** What holds of the drone component at all times. *)
Definition droneSafe (st : Drone.State) : Prop :=
  0 <= Drone.altitude st <= Drone.MAX_ALTITUDE /\
  Drone.BASE_DRONE_MASS <= Drone.mass st /\
  Drone.MIN_THRUST <= Drone.thrust st <= Drone.MAX_THRUST /\
  0 <= Drone.time st /\
  (Drone.crashed st = false ->
   0 < Drone.altitude st < Drone.MAX_ALTITUDE) /\
  (Drone.crashed st = true ->
   Drone.velocity st = 0 /\
   (Drone.altitude st = 0 \/ Drone.altitude st = Drone.MAX_ALTITUDE)).

(** What holds of the state of drone_simulator.jsx at all times. *)
Definition droneSimulatorSafe (st : DroneSimulator.State) : Prop :=
  DroneSimulator.CRASH_FLOOR <= DroneSimulator.altitude st
    <= DroneSimulator.CRASH_CEILING /\
  -50 <= DroneSimulator.integral st <= 50 /\
  DroneSimulator.mass st =
    DroneSimulator.BASE_DRONE_MASS
    + DroneSimulator.massAdded st * DroneSimulator.MASS_INCREMENT /\
  0 <= DroneSimulator.massAdded st /\
  DroneSimulatorControl.SETPOINT_MIN <= DroneSimulator.setpoint st
    <= DroneSimulatorControl.SETPOINT_MAX /\
  (DroneSimulator.crashed st = true -> DroneSimulator.velocity st = 0).

(** The random number of an event, when it has one, is in [[0, 1]]. *)
Definition droneSimulatorEventOk (ev : DroneSimulatorControl.Event) : Prop :=
  match ev with
  | DroneSimulatorControl.ChangeSetpoint random => 0 <= random <= 1
  | _ => True
  end.

(** What holds of the hot tub at all times. *)
Definition hotTubSafe (st : HotTub.State) : Prop :=
  0 <= HotTub.temperature st <= 50 /\
  HotTub.MIN_HEATER_POWER <= HotTub.heaterPower st
    <= HotTub.MAX_HEATER_POWER /\
  HotTubEvents.SETPOINT_MIN <= HotTub.setpoint st
    <= HotTubEvents.SETPOINT_MAX /\
  HotTubEvents.AMBIENT_MIN <= HotTub.ambient st
    <= HotTubEvents.AMBIENT_MAX /\
  0 <= HotTub.time st.

(** The random number of an event, when it has one, is in [[0, 1]]. *)
Definition hotTubEventOk (ev : HotTubEvents.Event) : Prop :=
  match ev with
  | HotTubEvents.ChangeSetpoint random => 0 <= random <= 1
  | HotTubEvents.ChangeAmbient random => 0 <= random <= 1
  | _ => True
  end.

(** What holds of the pendulum of hooks/usePhysicsSimulation.js at all
    times. *)
Definition pendulumSafe (st : Pendulum.State) : Prop :=
  Rabs (Pendulum.x st) <= Pendulum.TRACK_WIDTH / 2 - 0.2 /\
  -10 <= Pendulum.integral st <= 10 /\
  - PI <= Pendulum.theta st <= PI /\
  0 <= Pendulum.time st.

(** The random number of a reset is in [[0, 1]]. *)
Definition pendulumEventOk (ev : PendulumControl.Event) : Prop :=
  match ev with
  | PendulumControl.Reset random => 0 <= random <= 1
  | _ => True
  end.

(* ================================================================== *)
(** ** Clamping lemmas *)
(* ================================================================== *)

Lemma clamp_opt_within (lo hi : option R) (v : R) :
  JS.ordered lo hi -> JS.within lo hi (JS.clamp_opt v lo hi).
Proof.
  unfold JS.ordered, JS.within, JS.clamp_opt, JS.max_lo, JS.min_hi.
  destruct lo as [l|], hi as [h|]; intros Hord; split; try exact I.
  - apply Rmax_l.
  - apply Rmax_lub; [exact Hord | apply Rmin_l].
  - apply Rmax_l.
  - apply Rmin_l.
Qed.

Lemma clamp_bounds (v lo hi : R) :
  lo <= hi -> lo <= JS.clamp v lo hi <= hi.
Proof.
  intros H. unfold JS.clamp. split.
  - apply Rmax_l.
  - apply Rmax_lub; [exact H | apply Rmin_l].
Qed.

Lemma clamp_cases (v lo hi : R) :
  lo <= hi ->
  (v <= lo /\ JS.clamp v lo hi = lo) \/
  (lo <= v <= hi /\ JS.clamp v lo hi = v) \/
  (hi <= v /\ JS.clamp v lo hi = hi).
Proof.
  intros H. unfold JS.clamp.
  destruct (Rle_dec v lo) as [L|L]; [left|right].
  - split; [exact L|]. rewrite (Rmin_right hi v) by lra.
    apply Rmax_left. exact L.
  - destruct (Rle_dec hi v) as [G|G]; [right|left].
    + split; [exact G|]. rewrite (Rmin_left hi v) by exact G.
      apply Rmax_right. exact H.
    + split; [lra|]. rewrite (Rmin_right hi v) by lra.
      apply Rmax_right. lra.
Qed.

Lemma clamp_id (v lo hi : R) :
  lo <= v <= hi -> JS.clamp v lo hi = v.
Proof.
  intros [H1 H2]. unfold JS.clamp.
  rewrite (Rmin_right hi v) by exact H2.
  apply Rmax_right. exact H1.
Qed.

(* ================================================================== *)
(** ** Worked steps *)
(* ================================================================== *)

(** The hot tub at 38 degrees, ambient 20, full power: 6000 W net. *)
Example HotTub_first_step :
  HotTub.temperature (HotTub.simulateStep 20000 HotTub.initial)
    = 38 + 6000 * 0.1 / 6279000 /\
  HotTub.heaterPower (HotTub.simulateStep 20000 HotTub.initial) = 15000.
Proof.
  unfold HotTub.simulateStep, HotTub.initial; simpl.
  unfold HotTub.MIN_HEATER_POWER, HotTub.MAX_HEATER_POWER,
    HotTub.HEAT_LOSS_COEFFICIENT, HotTub.DT, HotTub.THERMAL_MASS,
    HotTub.WATER_MASS, HotTub.SPECIFIC_HEAT.
  rewrite (Rmin_left 15000 20000) by lra.
  rewrite (Rmax_right 0 15000) by lra.
  rewrite (Rmin_right 50) by lra.
  rewrite Rmax_right by lra.
  split; lra.
Qed.

(** The embedded controller on errors 2 then 3 with dt = 0.5: the second
    call averages the raw derivatives 0 and 2. *)
Example Pid_two_calls :
  let g := mkGains 1 1 1 in
  let first := Pid.compute Pid.defaults Pid.create 2 g 0.5 in
  let second := Pid.compute Pid.defaults (snd first) 3 g 0.5 in
  Pid.errorD (fst first) = 0 /\
  Pid.errorI (fst second) = 2.5 /\
  Pid.errorD (fst second) = 1 /\
  Pid.output (fst second) = 6.5 /\
  Pid.derivativeHistory (snd second) = [0; (3 - 2) / 0.5].
Proof.
  simpl. unfold Pid.mean, JS.sum, Pid.rawDerivative; simpl.
  repeat split; lra.
Qed.

(** The shared controller on the same calls: the first derivative is
    [2 / 0.5]. *)
Example PidUtil_two_calls :
  let g := mkGains 1 1 1 in
  let first := PidUtil.compute PidUtil.defaults PidUtil.create 2 g 0.5 in
  let second := PidUtil.compute PidUtil.defaults (snd first) 3 g 0.5 in
  fst first = 2 + 1 + 4 /\ fst second = 3 + 2.5 + 2.
Proof.
  unfold PidUtil.compute, PidUtil.computePID; simpl. split; lra.
Qed.

(* ================================================================== *)
(** ** C1: anti-windup *)
(* ================================================================== *)

Lemma PidUtil_run_within (cfg : PidUtil.Config) :
  JS.ordered (PidUtil.integralMin cfg) (PidUtil.integralMax cfg) ->
  forall calls st,
    Forall (fun s => JS.within (PidUtil.integralMin cfg)
                               (PidUtil.integralMax cfg)
                               (PidUtil.integral s))
           (PidUtil.run cfg st calls).
Proof.
  intros Hord calls.
  induction calls as [|[[error gains] dt] rest IH]; intros st; simpl.
  - constructor.
  - constructor.
    + apply (clamp_opt_within _ _ _ Hord).
    + apply IH.
Qed.

(** C1.  Whatever the errors, gains and time steps of a sequence of
    [compute] calls, each call sets the integral to
    [clamp(previous integral + error*dt, integralMin, integralMax)], for the
    shared controller of utils/pidController.js and for the controller
    embedded in the standalone simulators; hence, the configured bounds
    being ordered (the default pair -Infinity/Infinity is), the integral
    held after every call of the sequence lies between them. *)
Theorem C1_anti_windup :
  (forall cfg st error gains dt,
     PidUtil.integral (snd (PidUtil.compute cfg st error gains dt)) =
     JS.clamp_opt (PidUtil.integral st + error * dt)
                  (PidUtil.integralMin cfg) (PidUtil.integralMax cfg)) /\
  (forall cfg st error gains dt,
     Pid.integral (snd (Pid.compute cfg st error gains dt)) =
     JS.clamp_opt (Pid.integral st + error * dt)
                  (Pid.integralMin cfg) (Pid.integralMax cfg)) /\
  (forall cfg st calls,
     JS.ordered (PidUtil.integralMin cfg) (PidUtil.integralMax cfg) ->
     Forall (fun s => JS.within (PidUtil.integralMin cfg)
                                (PidUtil.integralMax cfg)
                                (PidUtil.integral s))
            (PidUtil.run cfg st calls)) /\
  (forall cfg st calls,
     JS.ordered (Pid.integralMin cfg) (Pid.integralMax cfg) ->
     Forall (fun rs => JS.within (Pid.integralMin cfg) (Pid.integralMax cfg)
                                 (Pid.integral (snd rs)) /\
                       Pid.errorI (fst rs) = Pid.integral (snd rs))
            (Pid.run cfg st calls)).
Proof.
  split; [reflexivity|].
  split; [reflexivity|].
  split.
  - intros cfg st calls Hord. apply PidUtil_run_within; exact Hord.
  - intros cfg st calls Hord. revert st.
    induction calls as [|[[error gains] dt] rest IH]; intros st; simpl.
    + constructor.
    + constructor.
      * split; [apply (clamp_opt_within _ _ _ Hord) | reflexivity].
      * apply IH.
Qed.

Lemma C1_anti_windup_witness :
  JS.ordered (Some (-50)) (Some 50) /\
  Forall (fun s => JS.within (Some (-50)) (Some 50) (PidUtil.integral s))
         (PidUtil.run (PidUtil.mkConfig (Some (-50)) (Some 50))
                      PidUtil.create
                      [(1000, mkGains 1 1 1, 1); (-3000, mkGains 1 1 1, 1)]).
Proof.
  assert (H : JS.ordered (Some (-50)) (Some 50)) by (simpl; lra).
  split; [exact H|].
  exact (proj1 (proj2 (proj2 C1_anti_windup))
           (PidUtil.mkConfig (Some (-50)) (Some 50)) PidUtil.create
           [(1000, mkGains 1 1 1, 1); (-3000, mkGains 1 1 1, 1)] H).
Defined.

(* ================================================================== *)
(** ** C2: the derivative on the first call *)
(* ================================================================== *)

(** The embedded controller: with a window of at least one sample, the
    first [compute] after construction or after [reset()] uses a raw
    derivative of 0 and reports [errorD = 0], whatever the error. *)
Lemma Pid_first_call_no_kick (cfg : Pid.Config) (st : Pid.State)
    (error : R) (gains : Gains) (dt : R) :
  (1 <= Pid.derivativeWindowSize cfg)%nat ->
  Pid.rawDerivative Pid.create error dt = 0 /\
  Pid.rawDerivative (Pid.reset st) error dt = 0 /\
  Pid.errorD (fst (Pid.compute cfg Pid.create error gains dt)) = 0 /\
  Pid.errorD (fst (Pid.compute cfg (Pid.reset st) error gains dt)) = 0.
Proof.
  intros HW.
  assert (E : Pid.errorD (fst (Pid.compute cfg Pid.create error gains dt)) = 0).
  { unfold Pid.compute, Pid.pushHistory, Pid.rawDerivative; simpl.
    destruct (Pid.derivativeWindowSize cfg) as [|w] eqn:EW; [lia|].
    simpl. unfold Pid.mean, JS.sum; simpl. field. }
  repeat split; try reflexivity; exact E.
Qed.

(** The embedded controller: every later call uses
    [(error - prevError) / dt], where [prevError] is the error of the call
    before. *)
Lemma Pid_later_call_derivative (cfg : Pid.Config) (st : Pid.State)
    (e0 e1 : R) (g0 : Gains) (dt0 dt1 : R) :
  let st1 := snd (Pid.compute cfg st e0 g0 dt0) in
  Pid.rawDerivative st1 e1 dt1 = (e1 - e0) / dt1.
Proof. reflexivity. Qed.

(** C2 (shared controller).  The controller of utils/pidController.js
    keeps no record of whether a call has occurred: its derivative is
    always [(error - prevError) / dt] with [prevError] starting at 0, so the
    first call after construction or [reset()] sees the derivative
    [error / dt].  At error 1, gains [{kp:0, ki:0, kd:1}] and dt 0.1 the
    first output is 10, where a zero first derivative would give 0. *)
Theorem C2_shared_controller_first_call_kick :
  (forall cfg st error gains dt,
     fst (PidUtil.compute cfg (PidUtil.reset st) error gains dt) =
     kp gains * error +
     ki gains * JS.clamp_opt (0 + error * dt)
                  (PidUtil.integralMin cfg) (PidUtil.integralMax cfg) +
     kd gains * ((error - 0) / dt)) /\
  fst (PidUtil.compute PidUtil.defaults PidUtil.create
         1 (mkGains 0 0 1) (1 / 10)) = 10 /\
  fst (PidUtil.compute PidUtil.defaults
         (PidUtil.reset (PidUtil.mkState 3 7))
         1 (mkGains 0 0 1) (1 / 10)) = 10.
Proof.
  split; [reflexivity|].
  split; unfold PidUtil.compute, PidUtil.computePID; simpl; field.
Qed.

(* ================================================================== *)
(** ** C3: the moving-average derivative window *)
(* ================================================================== *)

Lemma sum_fold_shift (xs : list R) (a : R) :
  fold_left (fun sum val => sum + val) xs a =
  a + fold_left (fun sum val => sum + val) xs 0.
Proof.
  revert a. induction xs as [|x xs IH]; intros a; simpl.
  - lra.
  - rewrite (IH (a + x)), (IH (0 + x)). lra.
Qed.

Lemma sum_all_zero (xs : list R) :
  Forall (eq 0) xs -> JS.sum xs = 0.
Proof.
  unfold JS.sum. induction 1 as [|x xs Hx _ IH]; simpl.
  - reflexivity.
  - subst x. rewrite sum_fold_shift, IH. lra.
Qed.

Lemma mean_all_zero (xs : list R) :
  Forall (eq 0) xs -> Pid.mean xs = 0.
Proof.
  intros H. unfold Pid.mean. rewrite (sum_all_zero xs H).
  unfold Rdiv. apply Rmult_0_l.
Qed.

(** The FIFO discipline of [pushHistory] on a window that is not
    over-full. *)
Lemma pushHistory_room (cfg : Pid.Config) (h : list R) (raw : R) :
  (length h < Pid.derivativeWindowSize cfg)%nat ->
  Pid.pushHistory cfg h raw = h ++ [raw].
Proof.
  intros H. unfold Pid.pushHistory, JS.push, JS.shift.
  rewrite length_app; simpl.
  destruct (Nat.ltb_spec (Pid.derivativeWindowSize cfg) (length h + 1));
    [lia | reflexivity].
Qed.

Lemma pushHistory_full (cfg : Pid.Config) (h : list R) (raw : R) :
  (Pid.derivativeWindowSize cfg <= length h)%nat ->
  Pid.pushHistory cfg h raw = tl (h ++ [raw]).
Proof.
  intros H. unfold Pid.pushHistory, JS.push, JS.shift.
  rewrite length_app; simpl.
  destruct (Nat.ltb_spec (Pid.derivativeWindowSize cfg) (length h + 1));
    [reflexivity | lia].
Qed.

Lemma pushHistory_length (cfg : Pid.Config) (h : list R) (raw : R) :
  (length h <= Pid.derivativeWindowSize cfg)%nat ->
  length (Pid.pushHistory cfg h raw) =
  Nat.min (length h + 1) (Pid.derivativeWindowSize cfg).
Proof.
  intros H.
  destruct (Nat.lt_ge_cases (length h) (Pid.derivativeWindowSize cfg)) as [L|G].
  - rewrite pushHistory_room by exact L. rewrite length_app; simpl. lia.
  - rewrite pushHistory_full by exact G.
    destruct h as [|a h]; cbn [app tl length] in *.
    + lia.
    + rewrite length_app; cbn [length]. lia.
Qed.


Lemma trailing_0 (h : list R) : trailing 0 h.
Proof.
  exists h, []. rewrite app_nil_r. repeat split; [constructor | left; simpl; lia].
Qed.

Lemma trailing_push (m : nat) (h : list R) :
  trailing m h -> trailing (S m) (h ++ [0]).
Proof.
  intros (p & z & -> & Hz & Hm).
  exists p, (z ++ [0]). rewrite app_assoc. repeat split.
  - apply Forall_app; split; [exact Hz | repeat constructor].
  - destruct Hm as [Hm|Hp]; [left | right; exact Hp].
    rewrite length_app; simpl; lia.
Qed.

Lemma trailing_tl (m : nat) (h : list R) :
  trailing m h -> trailing m (tl h).
Proof.
  intros (p & z & -> & Hz & Hm).
  destruct p as [|a p]; simpl.
  - exists [], (tl z). repeat split; [ | right; reflexivity].
    destruct z; simpl; [constructor | inversion Hz; assumption].
  - destruct Hm as [Hm|Hp]; [ | discriminate].
    exists p, z. repeat split; [exact Hz | left; exact Hm].
Qed.

Lemma trailing_all (m : nat) (h : list R) :
  trailing m h -> (length h <= m)%nat -> Forall (eq 0) h.
Proof.
  intros (p & z & -> & Hz & Hm) Hlen.
  rewrite length_app in Hlen.
  destruct Hm as [Hm|Hp].
  - destruct p as [|a p]; [exact Hz | simpl in Hlen; lia].
  - subst p. exact Hz.
Qed.

Lemma trailing_pushHistory (cfg : Pid.Config) (m : nat) (h : list R) :
  trailing m h -> trailing (S m) (Pid.pushHistory cfg h 0).
Proof.
  intros H. unfold Pid.pushHistory, JS.push, JS.shift.
  destruct (_ <? _)%nat.
  - apply trailing_tl, trailing_push, H.
  - apply trailing_push, H.
Qed.


(** Once the previous error is [e], a streak of [e] only pushes zeros. *)
Lemma streak_trailing (cfg : Pid.Config) (e : R) :
  forall streak st last m,
    Forall (steady e) streak ->
    Pid.initialized st = true -> Pid.prevError st = e ->
    (length (Pid.derivativeHistory st) <= Pid.derivativeWindowSize cfg)%nat ->
    trailing m (Pid.derivativeHistory st) ->
    (last = None -> streak <> []) ->
    (forall r, last = Some r ->
               Pid.errorD r = Pid.mean (Pid.derivativeHistory st)) ->
    let fin := Pid.runLast cfg st last streak in
    trailing (m + length streak) (Pid.derivativeHistory (snd fin)) /\
    (length (Pid.derivativeHistory (snd fin))
       <= Pid.derivativeWindowSize cfg)%nat /\
    exists r, fst fin = Some r /\
              Pid.errorD r = Pid.mean (Pid.derivativeHistory (snd fin)).
Proof.
  intros streak.
  induction streak as [|[[e' g] dt] rest IH];
    intros st last m Hs Hi Hp Hl Ht Hn Hr.
  - simpl. rewrite Nat.add_0_r. repeat split; [exact Ht | exact Hl | ].
    destruct last as [r|].
    + exists r. split; [reflexivity | apply Hr; reflexivity].
    + contradiction (Hn eq_refl); reflexivity.
  - apply Forall_cons_iff in Hs. destruct Hs as [[He Hdt] Hrest].
    simpl in He, Hdt. subst e'. subst e.
    assert (Hraw : Pid.rawDerivative st (Pid.prevError st) dt = 0).
    { unfold Pid.rawDerivative. rewrite Hi. field. lra. }
    cbn [Pid.runLast].
    set (rs := Pid.compute cfg st (Pid.prevError st) g dt).
    assert (Hh : Pid.derivativeHistory (snd rs) =
                 Pid.pushHistory cfg (Pid.derivativeHistory st) 0).
    { unfold rs, Pid.compute; simpl. rewrite Hraw. reflexivity. }
    assert (Hl' : (length (Pid.derivativeHistory (snd rs))
                   <= Pid.derivativeWindowSize cfg)%nat).
    { rewrite Hh. rewrite pushHistory_length by exact Hl.
      apply Nat.le_min_r. }
    assert (Ht' : trailing (S m) (Pid.derivativeHistory (snd rs))).
    { rewrite Hh. apply trailing_pushHistory, Ht. }
    cbn [length]. replace (m + S (length rest))%nat
      with (S m + length rest)%nat by lia.
    apply (IH (snd rs) (Some (fst rs)) (S m) Hrest eq_refl eq_refl Hl' Ht').
    + discriminate.
    + intros r [= <-]. reflexivity.
Qed.

Lemma runLast_history_length (cfg : Pid.Config) :
  forall calls st last,
    (length (Pid.derivativeHistory st) <= Pid.derivativeWindowSize cfg)%nat ->
    length (Pid.derivativeHistory (snd (Pid.runLast cfg st last calls))) =
    Nat.min (length (Pid.derivativeHistory st) + length calls)
            (Pid.derivativeWindowSize cfg).
Proof.
  induction calls as [|[[e g] dt] rest IH]; intros st last Hl.
  - simpl. rewrite Nat.add_0_r. symmetry. apply Nat.min_l. exact Hl.
  - cbn [Pid.runLast length].
    set (rs := Pid.compute cfg st e g dt).
    assert (Hh : length (Pid.derivativeHistory (snd rs)) =
                 Nat.min (length (Pid.derivativeHistory st) + 1)
                         (Pid.derivativeWindowSize cfg)).
    { unfold rs, Pid.compute; simpl. apply pushHistory_length, Hl. }
    rewrite IH by (rewrite Hh; apply Nat.le_min_r).
    rewrite Hh. lia.
Qed.

(** After a first call with error [e] the controller is initialised, its
    previous error is [e] and the window is not over-full. *)
Lemma first_call_of_streak (cfg : Pid.Config) (st : Pid.State)
    (e : R) (g : Gains) (dt : R) :
  (length (Pid.derivativeHistory st) <= Pid.derivativeWindowSize cfg)%nat ->
  let rs := Pid.compute cfg st e g dt in
  Pid.initialized (snd rs) = true /\ Pid.prevError (snd rs) = e /\
  (length (Pid.derivativeHistory (snd rs))
     <= Pid.derivativeWindowSize cfg)%nat /\
  Pid.errorD (fst rs) = Pid.mean (Pid.derivativeHistory (snd rs)).
Proof.
  intros Hl rs. repeat split.
  unfold rs, Pid.compute; simpl.
  rewrite pushHistory_length by exact Hl. apply Nat.le_min_r.
Qed.

(** From any state whose window is not over-full, a streak of more than
    [derivativeWindowSize] calls with the same error ends with
    [errorD = 0]. *)
Lemma streak_settles (cfg : Pid.Config) (st : Pid.State)
    (last : option Pid.Result) (e : R) (streak : list (R * Gains * R)) :
  (length (Pid.derivativeHistory st) <= Pid.derivativeWindowSize cfg)%nat ->
  Forall (steady e) streak ->
  (Pid.derivativeWindowSize cfg + 1 <= length streak)%nat ->
  exists r, fst (Pid.runLast cfg st last streak) = Some r /\ Pid.errorD r = 0.
Proof.
  intros Hl Hs Hn.
  destruct streak as [|[[e' g] dt] rest]; [simpl in Hn; lia|].
  apply Forall_cons_iff in Hs. destruct Hs as [[He Hdt] Hrest].
  simpl in He, Hdt. subst e'.
  cbn [Pid.runLast]. cbn [length] in Hn.
  destruct (first_call_of_streak cfg st e g dt Hl) as (Hi & Hp & Hl' & _).
  set (rs := Pid.compute cfg st e g dt) in *.
  destruct (streak_trailing cfg e rest (snd rs) (Some (fst rs)) 0%nat
              Hrest Hi Hp Hl' (trailing_0 _))
    as (T & L & r & Hr & HD).
  - discriminate.
  - intros r [= <-]. reflexivity.
  - exists r. split; [exact Hr|]. rewrite HD. apply mean_all_zero.
    apply (trailing_all _ _ T). cbn [Nat.add]. lia.
Qed.

(** From a fresh or reset controller, every call of a streak with the
    same error reports [errorD = 0]. *)
Lemma fresh_streak_settles (cfg : Pid.Config) (e : R)
    (streak : list (R * Gains * R)) :
  (1 <= Pid.derivativeWindowSize cfg)%nat ->
  Forall (steady e) streak -> streak <> [] ->
  exists r, fst (Pid.runLast cfg Pid.create None streak) = Some r /\
            Pid.errorD r = 0.
Proof.
  intros HW Hs Hne.
  destruct streak as [|[[e' g] dt] rest]; [contradiction Hne; reflexivity|].
  apply Forall_cons_iff in Hs. destruct Hs as [[He Hdt] Hrest].
  simpl in He, Hdt. subst e'.
  cbn [Pid.runLast].
  assert (Hl0 : (length (Pid.derivativeHistory Pid.create)
                 <= Pid.derivativeWindowSize cfg)%nat) by (simpl; lia).
  destruct (first_call_of_streak cfg Pid.create e g dt Hl0)
    as (Hi & Hp & Hl' & _).
  set (rs := Pid.compute cfg Pid.create e g dt) in *.
  assert (Ht : trailing 1 (Pid.derivativeHistory (snd rs))).
  { unfold rs, Pid.compute, Pid.rawDerivative; simpl.
    apply (trailing_pushHistory cfg 0 []), trailing_0. }
  destruct (streak_trailing cfg e rest (snd rs) (Some (fst rs)) 1%nat
              Hrest Hi Hp Hl' Ht)
    as (T & L & r & Hr & HD).
  - discriminate.
  - intros r [= <-]. reflexivity.
  - exists r. split; [exact Hr|]. rewrite HD. apply mean_all_zero.
    apply (trailing_all _ _ T).
    rewrite runLast_history_length by exact Hl'.
    assert (length (Pid.derivativeHistory (snd rs)) <= 1)%nat.
    { unfold rs, Pid.compute; simpl.
      rewrite pushHistory_length by (simpl; lia). apply Nat.le_min_l. }
    lia.
Qed.

(** C3, counterexample to the count of calls.  With the default window of 5,
    a call with error 1 followed by five consecutive calls with the
    constant error 0 (dt = 1) leaves the window [-1; 0; 0; 0; 0]: after
    these five calls [errorD] is -1/5, not 0. *)
Lemma C3_constant_streak_counterexample :
  let g := mkGains 1 0 1 in
  let streak := [(0, g, 1); (0, g, 1); (0, g, 1); (0, g, 1); (0, g, 1)] in
  Forall (steady 0) streak /\
  (Pid.derivativeWindowSize Pid.defaults <= length streak)%nat /\
  exists r,
    fst (Pid.runLast Pid.defaults Pid.create None ((1, g, 1) :: streak))
      = Some r /\
    Pid.errorD r = - (1 / 5) /\ Pid.errorD r <> 0.
Proof.
  intros g streak. split; [|split].
  - unfold streak, steady. repeat constructor; simpl; lra.
  - simpl. lia.
  - eexists. split; [reflexivity|].
    simpl. unfold Pid.mean, JS.sum, Pid.rawDerivative. simpl.
    split; [field | lra].
Qed.

(** C3, the statement that holds.  For a window size of at least 1 (5 by
    default), every [compute] call appends its raw derivative to the
    window, evicts the oldest sample exactly when the window already holds
    [derivativeWindowSize] samples, and reports as [errorD] the arithmetic
    mean of the samples then held; from a fresh controller the window holds
    [min(n, derivativeWindowSize)] samples after [n] calls.  After more
    than [derivativeWindowSize] consecutive calls with a constant error and
    positive time steps [errorD] is 0; starting from a fresh controller it
    is 0 after every call of such a streak. *)
Theorem C3_derivative_window (cfg : Pid.Config) :
  (1 <= Pid.derivativeWindowSize cfg)%nat ->
  (forall st error gains dt,
     let h := Pid.derivativeHistory st in
     let raw := Pid.rawDerivative st error dt in
     let rs := Pid.compute cfg st error gains dt in
     let h' := Pid.derivativeHistory (snd rs) in
     ((length h < Pid.derivativeWindowSize cfg)%nat -> h' = h ++ [raw]) /\
     (length h = Pid.derivativeWindowSize cfg -> h' = tl h ++ [raw]) /\
     Pid.errorD (fst rs) = JS.sum h' / INR (length h')) /\
  (forall calls,
     length (Pid.derivativeHistory
               (snd (Pid.runLast cfg Pid.create None calls))) =
     Nat.min (length calls) (Pid.derivativeWindowSize cfg)) /\
  (forall st last e streak,
     (length (Pid.derivativeHistory st)
        <= Pid.derivativeWindowSize cfg)%nat ->
     Forall (steady e) streak ->
     (Pid.derivativeWindowSize cfg + 1 <= length streak)%nat ->
     exists r, fst (Pid.runLast cfg st last streak) = Some r /\
               Pid.errorD r = 0) /\
  (forall e streak,
     Forall (steady e) streak -> streak <> [] ->
     exists r, fst (Pid.runLast cfg Pid.create None streak) = Some r /\
               Pid.errorD r = 0).
Proof.
  intros HW. split; [|split; [|split]].
  - intros st error gains dt h raw rs h'. split; [|split].
    + intros Hlt. apply pushHistory_room. exact Hlt.
    + intros Heq. unfold h', rs, Pid.compute; simpl.
      rewrite pushHistory_full by (fold h; lia).
      fold h raw. destruct h as [|a h0]; [simpl in Heq; lia | reflexivity].
    + reflexivity.
  - intros calls.
    rewrite runLast_history_length by (simpl; lia). reflexivity.
  - intros st last e streak Hl Hs Hn.
    apply (streak_settles cfg st last e streak Hl Hs Hn).
  - intros e streak Hs Hne.
    apply (fresh_streak_settles cfg e streak HW Hs Hne).
Qed.

Lemma C3_derivative_window_witness :
  let g := mkGains 1 0 1 in
  let streak :=
    [(0, g, 1); (0, g, 1); (0, g, 1); (0, g, 1); (0, g, 1); (0, g, 1)] in
  let st := snd (Pid.compute Pid.defaults Pid.create 1 g 1) in
  (1 <= Pid.derivativeWindowSize Pid.defaults)%nat /\
  exists r, fst (Pid.runLast Pid.defaults st None streak) = Some r /\
            Pid.errorD r = 0.
Proof.
  intros g streak st.
  assert (HW : (1 <= Pid.derivativeWindowSize Pid.defaults)%nat)
    by (simpl; lia).
  split; [exact HW|].
  apply (proj1 (proj2 (proj2 (C3_derivative_window Pid.defaults HW)))
           st None 0 streak).
  - simpl. lia.
  - unfold streak, steady. repeat constructor; simpl; lra.
  - simpl. lia.
Defined.

(* ================================================================== *)
(** ** C4: the terminal flag is sticky *)
(* ================================================================== *)

(** Events other than a reset leave a crashed drone as it is. *)
Lemma Drone_apply_crashed (st : Drone.State) (ev : Drone.Event) :
  Drone.crashed st = true -> Drone.isReset ev = false ->
  Drone.apply st ev = st.
Proof.
  intros Hc Hr. destruct ev; simpl in *; try discriminate;
    unfold Drone.simulateStep, Drone.changeSetpoint, Drone.addWeight;
    rewrite Hc; reflexivity.
Qed.

Lemma Drone_events_crashed (evs : list Drone.Event) (st : Drone.State) :
  Drone.crashed st = true ->
  forallb (fun ev => negb (Drone.isReset ev)) evs = true ->
  fold_left Drone.apply evs st = st.
Proof.
  intros Hc. induction evs as [|ev evs IH]; simpl; intros H.
  - reflexivity.
  - apply andb_true_iff in H. destruct H as [H1 H2].
    apply negb_true_iff in H1.
    rewrite (Drone_apply_crashed st ev Hc H1). apply IH. exact H2.
Qed.

(** C4.  In every plant that has a terminal flag, a step taken while the
    flag is set returns at once and leaves the whole simulation state as it
    was, whatever the actuation: the three drones ([crashed]), the two
    pendulums that keep [fallen] in their state, and the standalone
    pendulum, whose flag is the loop's [localFallen] passed to the step and
    never cleared by the loop.  For the drone, any sequence of steps,
    setpoint changes and added weights leaves a crashed state unchanged;
    only [resetSimulation] clears the flag. *)
Theorem C4_terminal_sticky :
  (forall st u, Drone.crashed st = true -> Drone.simulateStep u st = st) /\
  (forall st u, DroneSimulator.crashed st = true ->
                DroneSimulator.simulateStep u st = st) /\
  (forall cfg st u, DroneStandalone.crashed st = true ->
                    DroneStandalone.simulateStep cfg u st = st) /\
  (forall st force random, Pendulum.fallen st = true ->
                           Pendulum.simulateStep force random st = st) /\
  (forall st force random, PendulumPanel.fallen st = true ->
                           PendulumPanel.simulateStep force random st = st) /\
  (forall st force tilt random failureResult,
     PendulumStandalone.simulateStep force true tilt random st = (st, None) /\
     PendulumStandalone.noteFailure true failureResult = true) /\
  (forall st evs,
     Drone.crashed st = true ->
     forallb (fun ev => negb (Drone.isReset ev)) evs = true ->
     fold_left Drone.apply evs st = st) /\
  (forall st, Drone.crashed (Drone.apply st Drone.Reset) = false).
Proof.
  repeat split.
  - intros st u H. unfold Drone.simulateStep. rewrite H. reflexivity.
  - intros st u H. unfold DroneSimulator.simulateStep. rewrite H. reflexivity.
  - intros cfg st u H. unfold DroneStandalone.simulateStep. rewrite H.
    reflexivity.
  - intros st force random H. unfold Pendulum.simulateStep. rewrite H.
    reflexivity.
  - intros st force random H. unfold PendulumPanel.simulateStep. rewrite H.
    reflexivity.
  - destruct failureResult; reflexivity.
  - intros st evs Hc Hev. apply Drone_events_crashed; assumption.
Qed.

Lemma C4_terminal_sticky_witness :
  let st := Drone.mkState 0 0 2 50 3 500 true in
  Drone.crashed st = true /\
  fold_left Drone.apply
    [Drone.Step 500; Drone.AddWeight; Drone.ChangeSetpoint 20;
     Drone.Step (-500)] st = st.
Proof.
  intros st. split; [reflexivity|].
  apply (proj1 (proj2 (proj2 (proj2 (proj2 (proj2 (proj2
           C4_terminal_sticky))))))); reflexivity.
Defined.

(* ================================================================== *)
(** ** C7: the drone step *)
(* ================================================================== *)

(** Decide the crash test of a drone step from the bounds in the
    context. *)
Ltac crash_test :=
  repeat match goal with
  | |- context [Rle_dec ?a ?b] => destruct (Rle_dec a b); try lra
  | |- context [Rge_dec ?a ?b] => destruct (Rge_dec a b); try lra
  | |- context [Rlt_dec ?a ?b] => destruct (Rlt_dec a b); try lra
  end.

Lemma Drone_step (st : Drone.State) (u : R) :
  Drone.crashed st = false -> 0 < Drone.mass st ->
  let c := JS.clamp u Drone.MIN_THRUST Drone.MAX_THRUST in
  let net := (Drone.BASE_DRONE_MASS * Drone.GRAVITY + c)
             - Drone.mass st * Drone.GRAVITY in
  let a := net / Drone.mass st in
  let v1 := Drone.velocity st + a * Drone.DT in
  let h1 := Drone.altitude st + v1 * Drone.DT in
  let st' := Drone.simulateStep u st in
  Drone.thrust st' = c /\
  Drone.netForce u st = net /\
  Drone.acceleration u st = a /\
  Drone.time st' = Drone.time st + Drone.DT /\
  (0 < h1 < Drone.MAX_ALTITUDE ->
   Drone.velocity st' = v1 /\ Drone.altitude st' = h1 /\
   Drone.crashed st' = false) /\
  (h1 <= 0 \/ Drone.MAX_ALTITUDE <= h1 ->
   Drone.velocity st' = 0 /\
   Drone.altitude st' = JS.clamp h1 0 Drone.MAX_ALTITUDE /\
   Drone.crashed st' = true).
Proof.
  intros Hc Hm c net a v1 h1 st'.
  assert (Ha : Drone.acceleration u st = a).
  { unfold Drone.acceleration. destruct (Rlt_dec 0 (Drone.mass st));
      [reflexivity | contradiction]. }
  unfold st', Drone.simulateStep. rewrite Hc, Ha. fold v1 h1.
  split; [|split; [|split; [|split; [|split]]]]; try reflexivity.
  - crash_test; reflexivity.
  - crash_test; reflexivity.
  - intros Hh. crash_test. simpl. repeat split.
  - intros Hh. destruct Hh; crash_test; simpl; repeat split.
Qed.

Lemma DroneSimulator_step (st : DroneSimulator.State) (u : R) :
  DroneSimulator.crashed st = false -> 0 < DroneSimulator.mass st ->
  let c := JS.clamp u DroneSimulator.MIN_THRUST DroneSimulator.MAX_THRUST in
  let net := (DroneSimulator.BASE_DRONE_MASS * DroneSimulator.GRAVITY + c)
             - DroneSimulator.mass st * DroneSimulator.GRAVITY in
  let a := net / DroneSimulator.mass st in
  let v1 := DroneSimulator.velocity st + a * DroneSimulator.DT in
  let h1 := DroneSimulator.altitude st + v1 * DroneSimulator.DT in
  let st' := DroneSimulator.simulateStep u st in
  DroneSimulator.thrust st' = c /\
  DroneSimulator.netForce u st = net /\
  DroneSimulator.acceleration u st = a /\
  DroneSimulator.time st' = DroneSimulator.time st + DroneSimulator.DT /\
  (DroneSimulator.CRASH_FLOOR < h1 < DroneSimulator.CRASH_CEILING ->
   DroneSimulator.velocity st' = v1 /\ DroneSimulator.altitude st' = h1 /\
   DroneSimulator.crashed st' = false) /\
  (h1 <= DroneSimulator.CRASH_FLOOR \/ DroneSimulator.CRASH_CEILING <= h1 ->
   DroneSimulator.velocity st' = 0 /\
   DroneSimulator.altitude st' =
     JS.clamp h1 DroneSimulator.CRASH_FLOOR DroneSimulator.CRASH_CEILING /\
   DroneSimulator.crashed st' = true).
Proof.
  intros Hc Hm c net a v1 h1 st'.
  assert (Ha : DroneSimulator.acceleration u st = a).
  { unfold DroneSimulator.acceleration.
    destruct (Rlt_dec 0 (DroneSimulator.mass st));
      [reflexivity | contradiction]. }
  unfold st', DroneSimulator.simulateStep. rewrite Hc, Ha. fold v1 h1.
  split; [|split; [|split; [|split; [|split]]]]; try reflexivity.
  - crash_test; reflexivity.
  - crash_test; reflexivity.
  - intros Hh. crash_test. simpl. repeat split.
  - intros Hh. destruct Hh; crash_test; simpl; repeat split.
Qed.

Lemma DroneStandalone_step (cfg : DroneStandalone.SetpointConfig)
    (st : DroneStandalone.State) (u : R) :
  DroneStandalone.crashed st = false -> 0 < DroneStandalone.mass st ->
  let c := JS.clamp u DroneStandalone.MIN_THRUST DroneStandalone.MAX_THRUST in
  let net := c - DroneStandalone.mass st * DroneStandalone.GRAVITY in
  let a := net / DroneStandalone.mass st in
  let v1 := DroneStandalone.velocity st + a * DroneStandalone.DT in
  let h1 := DroneStandalone.altitude st + v1 * DroneStandalone.DT in
  let st' := DroneStandalone.simulateStep cfg u st in
  DroneStandalone.thrust st' = c /\
  DroneStandalone.netForce u st = net /\
  DroneStandalone.acceleration u st = a /\
  DroneStandalone.time st' = DroneStandalone.time st + DroneStandalone.DT /\
  (0 < h1 < DroneStandalone.MAX_ALTITUDE ->
   DroneStandalone.velocity st' = v1 /\ DroneStandalone.altitude st' = h1 /\
   DroneStandalone.crashed st' = false) /\
  (h1 <= 0 \/ DroneStandalone.MAX_ALTITUDE <= h1 ->
   DroneStandalone.velocity st' = 0 /\
   DroneStandalone.altitude st' =
     JS.clamp h1 0 DroneStandalone.MAX_ALTITUDE /\
   DroneStandalone.crashed st' = true).
Proof.
  intros Hc Hm c net a v1 h1 st'.
  unfold st', DroneStandalone.simulateStep. rewrite Hc.
  change (DroneStandalone.acceleration u st) with a. fold v1 h1.
  split; [|split; [|split; [|split; [|split]]]]; try reflexivity.
  - crash_test; reflexivity.
  - crash_test; reflexivity.
  - intros Hh. crash_test. simpl. repeat split.
  - intros Hh. destruct Hh; crash_test; simpl; repeat split.
Qed.

(** C7, counterexample to the hover baseline.  DroneAltitudeStandalone adds no
    hover baseline: from rest at mass 10 with a zero control signal the
    step gives the free-fall velocity [-9.81 * 0.001], which no positive
    hover baseline in the formula with a baseline produces. *)
Lemma C7_standalone_no_hover_counterexample :
  let cfg := DroneStandalone.mkSetpointConfig
               DroneStandalone.CONSTANT 50 20 0.1 20 0.1 in
  let st := DroneStandalone.mkState 50 0 10 50 0 0 false in
  DroneStandalone.velocity (DroneStandalone.simulateStep cfg 0 st)
    = - 9.81 * 0.001 /\
  ~ exists hoverBaselineThrust,
      0 < hoverBaselineThrust /\
      DroneStandalone.velocity (DroneStandalone.simulateStep cfg 0 st) =
      0 + ((hoverBaselineThrust + 0) - 10 * DroneStandalone.GRAVITY) / 10
          * DroneStandalone.DT.
Proof.
  intros cfg st.
  assert (Hc : JS.clamp 0 DroneStandalone.MIN_THRUST
                 DroneStandalone.MAX_THRUST = 0).
  { apply clamp_id. unfold DroneStandalone.MIN_THRUST,
      DroneStandalone.MAX_THRUST. lra. }
  destruct (DroneStandalone_step cfg st 0 eq_refl) as (_ & _ & _ & _ & Hair & _).
  { simpl. lra. }
  rewrite Hc in Hair. simpl in Hair.
  unfold DroneStandalone.GRAVITY, DroneStandalone.DT,
    DroneStandalone.MAX_ALTITUDE in Hair.
  destruct Hair as (Hv & _); [lra|].
  split.
  - fold cfg st in Hv. rewrite Hv. lra.
  - intros (h & Hh & E). fold cfg st in Hv. rewrite Hv in E.
    unfold DroneStandalone.GRAVITY, DroneStandalone.DT in E. lra.
Qed.

(** C7, the statement that holds.  A non-terminal step of a drone of
    positive mass clamps the control signal to [MIN_THRUST, MAX_THRUST] and
    stores it as [thrust]; in drone_simulator.jsx and in the
    DroneAltitudeSimulator component the net force is
    [(BASE_DRONE_MASS*GRAVITY + clamped) - mass*GRAVITY], while
    DroneAltitudeStandalone has no hover baseline and uses
    [clamped - mass*GRAVITY]; the acceleration is [netForce/mass]; velocity,
    then altitude (with the new velocity), are Euler-integrated with [DT].
    If the new altitude leaves the open range between floor and ceiling the
    step marks the drone crashed, clamps the altitude and zeroes the
    velocity. *)
Theorem C7_drone_step :
  (forall st u,
     Drone.crashed st = false -> 0 < Drone.mass st ->
     let c := JS.clamp u Drone.MIN_THRUST Drone.MAX_THRUST in
     let net := (Drone.BASE_DRONE_MASS * Drone.GRAVITY + c)
                - Drone.mass st * Drone.GRAVITY in
     let a := net / Drone.mass st in
     let v1 := Drone.velocity st + a * Drone.DT in
     let h1 := Drone.altitude st + v1 * Drone.DT in
     let st' := Drone.simulateStep u st in
     Drone.thrust st' = c /\
     Drone.netForce u st = net /\
     Drone.acceleration u st = a /\
     Drone.time st' = Drone.time st + Drone.DT /\
     (0 < h1 < Drone.MAX_ALTITUDE ->
      Drone.velocity st' = v1 /\ Drone.altitude st' = h1 /\
      Drone.crashed st' = false) /\
     (h1 <= 0 \/ Drone.MAX_ALTITUDE <= h1 ->
      Drone.velocity st' = 0 /\
      Drone.altitude st' = JS.clamp h1 0 Drone.MAX_ALTITUDE /\
      Drone.crashed st' = true)) /\
  (forall st u,
     DroneSimulator.crashed st = false -> 0 < DroneSimulator.mass st ->
     let c :=
       JS.clamp u DroneSimulator.MIN_THRUST DroneSimulator.MAX_THRUST in
     let net := (DroneSimulator.BASE_DRONE_MASS * DroneSimulator.GRAVITY + c)
                - DroneSimulator.mass st * DroneSimulator.GRAVITY in
     let a := net / DroneSimulator.mass st in
     let v1 := DroneSimulator.velocity st + a * DroneSimulator.DT in
     let h1 := DroneSimulator.altitude st + v1 * DroneSimulator.DT in
     let st' := DroneSimulator.simulateStep u st in
     DroneSimulator.thrust st' = c /\
     DroneSimulator.netForce u st = net /\
     DroneSimulator.acceleration u st = a /\
     DroneSimulator.time st' = DroneSimulator.time st + DroneSimulator.DT /\
     (DroneSimulator.CRASH_FLOOR < h1 < DroneSimulator.CRASH_CEILING ->
      DroneSimulator.velocity st' = v1 /\ DroneSimulator.altitude st' = h1 /\
      DroneSimulator.crashed st' = false) /\
     (h1 <= DroneSimulator.CRASH_FLOOR \/
      DroneSimulator.CRASH_CEILING <= h1 ->
      DroneSimulator.velocity st' = 0 /\
      DroneSimulator.altitude st' =
        JS.clamp h1 DroneSimulator.CRASH_FLOOR
                 DroneSimulator.CRASH_CEILING /\
      DroneSimulator.crashed st' = true)) /\
  (forall cfg st u,
     DroneStandalone.crashed st = false -> 0 < DroneStandalone.mass st ->
     let c :=
       JS.clamp u DroneStandalone.MIN_THRUST DroneStandalone.MAX_THRUST in
     let net := c - DroneStandalone.mass st * DroneStandalone.GRAVITY in
     let a := net / DroneStandalone.mass st in
     let v1 := DroneStandalone.velocity st + a * DroneStandalone.DT in
     let h1 := DroneStandalone.altitude st + v1 * DroneStandalone.DT in
     let st' := DroneStandalone.simulateStep cfg u st in
     DroneStandalone.thrust st' = c /\
     DroneStandalone.netForce u st = net /\
     DroneStandalone.acceleration u st = a /\
     DroneStandalone.time st' = DroneStandalone.time st + DroneStandalone.DT /\
     (0 < h1 < DroneStandalone.MAX_ALTITUDE ->
      DroneStandalone.velocity st' = v1 /\
      DroneStandalone.altitude st' = h1 /\
      DroneStandalone.crashed st' = false) /\
     (h1 <= 0 \/ DroneStandalone.MAX_ALTITUDE <= h1 ->
      DroneStandalone.velocity st' = 0 /\
      DroneStandalone.altitude st' =
        JS.clamp h1 0 DroneStandalone.MAX_ALTITUDE /\
      DroneStandalone.crashed st' = true)).
Proof.
  split; [|split].
  - intros st u Hc Hm. apply Drone_step; assumption.
  - intros st u Hc Hm. apply DroneSimulator_step; assumption.
  - intros cfg st u Hc Hm. apply DroneStandalone_step; assumption.
Qed.

Lemma C7_drone_step_witness :
  let st := Drone.initial in
  Drone.crashed st = false /\ 0 < Drone.mass st /\
  Drone.netForce 700 st =
    (Drone.BASE_DRONE_MASS * Drone.GRAVITY
     + JS.clamp 700 Drone.MIN_THRUST Drone.MAX_THRUST)
    - Drone.mass st * Drone.GRAVITY.
Proof.
  intros st.
  assert (Hm : 0 < Drone.mass st)
    by (simpl; unfold Drone.BASE_DRONE_MASS; lra).
  split; [reflexivity|]. split; [exact Hm|].
  exact (proj1 (proj2 (proj1 C7_drone_step st 700 eq_refl Hm))).
Defined.

(* ================================================================== *)
(** ** C9: the setpoint generators *)
(* ================================================================== *)

(** Truncation of a number known to lie in [[0, 1)]. *)
Lemma trunc_unit (x : R) : 0 <= x < 1 -> JS.trunc x = 0%Z.
Proof.
  intros [H0 H1]. unfold JS.trunc.
  destruct (Rle_dec 0 x) as [_|N]; [|contradiction].
  symmetry. apply Int_part_spec. simpl. lra.
Qed.

(** Half-way through the second period of a 0.1 Hz box wave the phase is
    0.5 or more, a quarter of the way it is less. *)
Lemma box_phase_examples :
  JS.rem 2.5 (1 / 0.1) / (1 / 0.1) = 0.25 /\
  JS.rem 17.5 (1 / 0.1) / (1 / 0.1) = 0.75.
Proof.
  split.
  - unfold JS.rem. rewrite (trunc_unit (2.5 / (1 / 0.1))) by lra. lra.
  - unfold JS.rem.
    assert (E : JS.trunc (17.5 / (1 / 0.1)) = 1%Z).
    { unfold JS.trunc.
      destruct (Rle_dec 0 (17.5 / (1 / 0.1))) as [_|N]; [|lra].
      symmetry. apply Int_part_spec. simpl. lra. }
    rewrite E. lra.
Qed.

(** C9.  At every time [t] the sinusoidal generator returns
    [50 + amplitude * sin(2*PI*freq*t)] and the box generator returns
    [50 + amplitude] when [(t % (1/freq)) / (1/freq) < 0.5] and
    [50 - amplitude] otherwise, 50 being the base the source fixes; with
    amplitude 20 and frequency 0.1 the sinusoidal setpoint at time 2.5 is
    [50 + 20 * sin(2*PI*0.1*2.5)], that is 70, and the box setpoint is 70 at
    time 2.5 and 30 at time 17.5. *)
Theorem C9_setpoint_generators :
  (forall constant sineA sineF boxA boxF t,
     DroneStandalone.calculateSetpoint
       (DroneStandalone.mkSetpointConfig
          DroneStandalone.SINE constant sineA sineF boxA boxF) t =
     50 + sineA * sin (2 * PI * sineF * t)) /\
  (forall constant sineA sineF boxA boxF t,
     let period := 1 / boxF in
     let phase := JS.rem t period / period in
     let v := DroneStandalone.calculateSetpoint
                (DroneStandalone.mkSetpointConfig
                   DroneStandalone.BOX constant sineA sineF boxA boxF) t in
     (phase < 0.5 -> v = 50 + boxA) /\
     (~ phase < 0.5 -> v = 50 - boxA)) /\
  (forall constant sineA sineF boxA boxF t,
     DroneStandalone.calculateSetpoint
       (DroneStandalone.mkSetpointConfig
          DroneStandalone.CONSTANT constant sineA sineF boxA boxF) t =
     constant) /\
  (let sample := DroneStandalone.calculateSetpoint
                   (DroneStandalone.mkSetpointConfig
                      DroneStandalone.SINE 50 20 0.1 20 0.1) 2.5 in
   sample = 50 + 20 * sin (2 * PI * 0.1 * 2.5) /\ sample = 70) /\
  DroneStandalone.calculateSetpoint
    (DroneStandalone.mkSetpointConfig
       DroneStandalone.BOX 50 20 0.1 20 0.1) 2.5 = 70 /\
  DroneStandalone.calculateSetpoint
    (DroneStandalone.mkSetpointConfig
       DroneStandalone.BOX 50 20 0.1 20 0.1) 17.5 = 30.
Proof.
  split; [reflexivity|].
  split.
  { intros constant sineA sineF boxA boxF t period phase v.
    unfold v, DroneStandalone.calculateSetpoint; simpl.
    fold period. fold phase.
    destruct (Rlt_dec phase 0.5) as [L|N]; split; intros H;
      try contradiction; lra. }
  split; [reflexivity|].
  split.
  { simpl. split; [reflexivity|].
    unfold DroneStandalone.calculateSetpoint; simpl.
    replace (2 * PI * 0.1 * 2.5) with (PI / 2) by lra.
    rewrite sin_PI2. lra. }
  destruct box_phase_examples as [E1 E2].
  split; unfold DroneStandalone.calculateSetpoint; simpl.
  - rewrite E1. destruct (Rlt_dec 0.25 0.5); lra.
  - rewrite E2. destruct (Rlt_dec 0.75 0.5); lra.
Qed.

Lemma C9_setpoint_generators_witness :
  JS.rem 2.5 (1 / 0.1) / (1 / 0.1) < 0.5 /\
  DroneStandalone.calculateSetpoint
    (DroneStandalone.mkSetpointConfig
       DroneStandalone.BOX 50 20 0.1 20 0.1) 2.5 = 50 + 20.
Proof.
  assert (H : JS.rem 2.5 (1 / 0.1) / (1 / 0.1) < 0.5).
  { rewrite (proj1 box_phase_examples). lra. }
  split; [exact H|].
  exact (proj1 (proj1 (proj2 C9_setpoint_generators)
                  50 20 0.1 20 0.1 2.5) H).
Defined.

(* ================================================================== *)
(** ** C6: the hot tub settles *)
(* ================================================================== *)


Lemma decay_range : 0 < decay < 1.
Proof.
  unfold decay, HotTub.HEAT_LOSS_COEFFICIENT, HotTub.DT, HotTub.THERMAL_MASS,
    HotTub.WATER_MASS, HotTub.SPECIFIC_HEAT. lra.
Qed.

Lemma HotTub_power_in_bounds (P : R) :
  0 <= P <= HotTub.MAX_HEATER_POWER ->
  Rmax HotTub.MIN_HEATER_POWER (Rmin HotTub.MAX_HEATER_POWER P) = P.
Proof.
  intros H. apply (clamp_id P HotTub.MIN_HEATER_POWER HotTub.MAX_HEATER_POWER).
  unfold HotTub.MIN_HEATER_POWER. exact H.
Qed.

(** One step, for a power within the heater bounds. *)
Lemma HotTub_step_temperature (P : R) (st : HotTub.State) :
  0 <= P <= HotTub.MAX_HEATER_POWER ->
  HotTub.temperature (HotTub.simulateStep P st) =
  JS.clamp
    (HotTub.temperature st +
     ((P - HotTub.HEAT_LOSS_COEFFICIENT
           * (HotTub.temperature st - HotTub.ambient st)) * HotTub.DT)
     / HotTub.THERMAL_MASS) 0 50.
Proof.
  intros H. unfold HotTub.simulateStep; simpl.
  rewrite (HotTub_power_in_bounds P H). reflexivity.
Qed.

(** One step brings the temperature closer to the steady state by the
    factor [decay] at least. *)
Lemma HotTub_step_contracts (P : R) (st : HotTub.State) :
  0 <= P <= HotTub.MAX_HEATER_POWER ->
  Rabs (HotTub.temperature (HotTub.simulateStep P st)
        - steadyState (HotTub.ambient st) P)
  <= decay * Rabs (HotTub.temperature st - steadyState (HotTub.ambient st) P).
Proof.
  intros H. rewrite (HotTub_step_temperature P st H).
  unfold steadyState, decay.
  unfold HotTub.MAX_HEATER_POWER in H.
  unfold HotTub.HEAT_LOSS_COEFFICIENT, HotTub.DT, HotTub.THERMAL_MASS,
    HotTub.WATER_MASS, HotTub.SPECIFIC_HEAT.
  set (T := HotTub.temperature st). set (A := HotTub.ambient st).
  assert (H050 : 0 <= 50) by lra.
  destruct (clamp_cases (T + (P - 500 * (T - A)) * 0.1 / (1500 * 4186))
              0 50 H050) as [[? ->]|[[? ->]|[? ->]]];
  destruct (clamp_cases (A + P / 500) 0 50 H050) as [[? ->]|[[? ->]|[? ->]]];
  unfold Rabs;
  repeat match goal with
  | |- context [Rcase_abs ?a] => destruct (Rcase_abs a)
  end; lra.
Qed.

Lemma HotTub_step_ambient (P : R) (st : HotTub.State) :
  HotTub.ambient (HotTub.simulateStep P st) = HotTub.ambient st.
Proof. reflexivity. Qed.

Lemma HotTub_distance_after (P : R) (n : nat) :
  0 <= P <= HotTub.MAX_HEATER_POWER ->
  forall st,
    Rabs (HotTub.temperatureAfter n P st - steadyState (HotTub.ambient st) P)
    <= decay ^ n
       * Rabs (HotTub.temperature st - steadyState (HotTub.ambient st) P).
Proof.
  intros H. induction n as [|n IH]; intros st; simpl.
  - lra.
  - specialize (IH (HotTub.simulateStep P st)).
    rewrite HotTub_step_ambient in IH.
    pose proof (HotTub_step_contracts P st H) as C.
    pose proof decay_range as D.
    assert (0 <= decay ^ n) by (apply pow_le; lra).
    eapply Rle_trans; [exact IH|].
    replace (decay * decay ^ n * Rabs (HotTub.temperature st
               - steadyState (HotTub.ambient st) P))
      with (decay ^ n * (decay * Rabs (HotTub.temperature st
               - steadyState (HotTub.ambient st) P))) by ring.
    apply Rmult_le_compat_l; assumption.
Qed.

Lemma HotTub_converges (P : R) (st : HotTub.State) :
  0 <= P <= HotTub.MAX_HEATER_POWER ->
  Un_cv (fun n => HotTub.temperatureAfter n P st)
        (steadyState (HotTub.ambient st) P).
Proof.
  intros H eps Heps.
  set (d := Rabs (HotTub.temperature st - steadyState (HotTub.ambient st) P)).
  pose proof decay_range as D.
  assert (Hd : 0 <= d) by apply Rabs_pos.
  assert (Hsmall : Rabs decay < 1) by (rewrite Rabs_pos_eq; lra).
  assert (Hq : 0 < eps / (d + 1)) by (apply Rdiv_lt_0_compat; lra).
  destruct (pow_lt_1_zero decay Hsmall (eps / (d + 1)) Hq) as [N HN].
  exists N. intros n Hn. unfold R_dist.
  eapply Rle_lt_trans; [apply (HotTub_distance_after P n H st)|].
  fold d. specialize (HN n Hn).
  rewrite Rabs_pos_eq in HN by (apply pow_le; lra).
  assert (Hp : 0 <= decay ^ n) by (apply pow_le; lra).
  apply Rle_lt_trans with (decay ^ n * (d + 1)).
  - apply Rmult_le_compat_l; lra.
  - apply (Rmult_lt_compat_r (d + 1)) in HN; [|lra].
    replace (eps / (d + 1) * (d + 1)) with eps in HN by (field; lra).
    exact HN.
Qed.

(** C6.  With ambient [A] and a constant power [P] within the heater
    bounds, a step moves the temperature [T] to
    [clamp(T + ((P - HEAT_LOSS_COEFFICIENT*(T - A)) * DT) / THERMAL_MASS,
    0, 50)] and leaves the ambient alone; [A + P/HEAT_LOSS_COEFFICIENT]
    clamped to [[0, 50]] is a fixed point of the step; from any
    temperature the distance to it shrinks at least by the factor
    [1 - HEAT_LOSS_COEFFICIENT*DT/THERMAL_MASS] at every step, so the
    iterated temperatures converge to it; for ambient 20 and power 5000 it
    is 30. *)
Theorem C6_hot_tub_steady_state (A P : R) :
  0 <= P <= HotTub.MAX_HEATER_POWER ->
  (forall st,
     HotTub.ambient st = A ->
     HotTub.temperature (HotTub.simulateStep P st) =
       JS.clamp
         (HotTub.temperature st +
          ((P - HotTub.HEAT_LOSS_COEFFICIENT * (HotTub.temperature st - A))
           * HotTub.DT) / HotTub.THERMAL_MASS) 0 50 /\
     HotTub.ambient (HotTub.simulateStep P st) = A) /\
  (forall st,
     HotTub.ambient st = A ->
     HotTub.temperature st = steadyState A P ->
     HotTub.temperature (HotTub.simulateStep P st) = steadyState A P) /\
  (forall st n,
     HotTub.ambient st = A ->
     Rabs (HotTub.temperatureAfter n P st - steadyState A P)
     <= decay ^ n * Rabs (HotTub.temperature st - steadyState A P)) /\
  (forall st,
     HotTub.ambient st = A ->
     Un_cv (fun n => HotTub.temperatureAfter n P st) (steadyState A P)) /\
  0 < decay < 1 /\
  steadyState 20 5000 = 30.
Proof.
  intros H. split; [|split; [|split; [|split; [|split]]]].
  - intros st <-. split; [|reflexivity].
    apply HotTub_step_temperature. exact H.
  - intros st <- HT.
    pose proof (HotTub_step_contracts P st H) as C.
    replace (HotTub.temperature st - steadyState (HotTub.ambient st) P)
      with 0 in C by lra.
    rewrite Rabs_R0, Rmult_0_r in C.
    pose proof (Rabs_pos (HotTub.temperature (HotTub.simulateStep P st)
                          - steadyState (HotTub.ambient st) P)) as Hpos.
    assert (Z : Rabs (HotTub.temperature (HotTub.simulateStep P st)
                      - steadyState (HotTub.ambient st) P) = 0) by lra.
    destruct (Req_dec (HotTub.temperature (HotTub.simulateStep P st)
                       - steadyState (HotTub.ambient st) P) 0) as [E|E].
    + lra.
    + apply Rabs_no_R0 in E. contradiction.
  - intros st n <-. apply HotTub_distance_after. exact H.
  - intros st <-. apply HotTub_converges. exact H.
  - exact decay_range.
  - unfold steadyState, HotTub.HEAT_LOSS_COEFFICIENT.
    rewrite clamp_id; lra.
Qed.

Lemma C6_hot_tub_steady_state_witness :
  0 <= 5000 <= HotTub.MAX_HEATER_POWER /\
  HotTub.ambient HotTub.initial = 20 /\
  Un_cv (fun n => HotTub.temperatureAfter n 5000 HotTub.initial)
        (steadyState 20 5000).
Proof.
  assert (H : 0 <= 5000 <= HotTub.MAX_HEATER_POWER)
    by (unfold HotTub.MAX_HEATER_POWER; lra).
  split; [exact H|]. split; [reflexivity|].
  exact (proj1 (proj2 (proj2 (proj2 (C6_hot_tub_steady_state 20 5000 H))))
           HotTub.initial eq_refl).
Defined.

(* ================================================================== *)
(** ** The angle normalisation terminates within its fuel *)
(* ================================================================== *)

Lemma wrapDown_spec (n : nat) :
  forall theta,
    theta <= PI + 2 * PI * INR n ->
    JS.wrapDown n theta <= PI /\
    (- PI <= theta -> - PI <= JS.wrapDown n theta) /\
    (theta <= PI -> JS.wrapDown n theta = theta).
Proof.
  pose proof PI_RGT_0 as Hpi.
  induction n as [|n IH]; intros theta H.
  - simpl in *. repeat split; [lra | tauto].
  - rewrite S_INR in H. simpl.
    destruct (Rgt_dec theta PI) as [G|G].
    + destruct (IH (theta - 2 * PI)) as (A & B & C); [lra|].
      repeat split; [exact A | intros _; apply B; lra | intros; lra].
    + repeat split; lra.
Qed.

Lemma wrapUp_spec (n : nat) :
  forall theta,
    - PI - 2 * PI * INR n <= theta ->
    - PI <= JS.wrapUp n theta /\
    (theta <= PI -> JS.wrapUp n theta <= PI) /\
    (- PI <= theta -> JS.wrapUp n theta = theta).
Proof.
  pose proof PI_RGT_0 as Hpi.
  induction n as [|n IH]; intros theta H.
  - simpl in *. repeat split; [lra | tauto].
  - rewrite S_INR in H. simpl.
    destruct (Rlt_dec theta (- PI)) as [G|G].
    + destruct (IH (theta + 2 * PI)) as (A & B & C); [lra|].
      repeat split; [exact A | intros _; apply B; lra | intros; lra].
    + repeat split; lra.
Qed.

Lemma turns_bound (theta : R) : Rabs theta <= 2 * PI * INR (JS.turns theta).
Proof.
  pose proof PI_RGT_0 as Hpi. unfold JS.turns.
  set (q := Rabs theta / (2 * PI)).
  assert (Hq : 0 <= q).
  { unfold q. apply Rle_mult_inv_pos; [apply Rabs_pos | lra]. }
  destruct (archimed q) as [Hup _].
  assert (Hz : (0 <= up q)%Z).
  { apply le_IZR. lra. }
  rewrite INR_IZR_INZ, Z2Nat.id by exact Hz.
  assert (E : Rabs theta = q * (2 * PI)) by (unfold q; field; lra).
  rewrite E. nra.
Qed.

(** Both loop conditions are false at the end: the fuel was enough. *)
Lemma normalizeAngle_range (theta : R) :
  - PI <= JS.normalizeAngle theta <= PI.
Proof.
  pose proof PI_RGT_0 as Hpi.
  pose proof (turns_bound theta) as Hb.
  assert (Ha : - Rabs theta <= theta <= Rabs theta).
  { unfold Rabs. destruct (Rcase_abs theta); lra. }
  assert (Hn : 0 <= INR (JS.turns theta)) by apply pos_INR.
  unfold JS.normalizeAngle.
  destruct (wrapDown_spec (JS.turns theta) theta) as (A & B & C); [lra|].
  destruct (Rle_dec theta PI) as [L|L].
  - rewrite (C L).
    destruct (wrapUp_spec (JS.turns theta) theta) as (A' & B' & _); [lra|].
    split; [exact A' | apply B'; exact L].
  - assert (B1 : - PI <= JS.wrapDown (JS.turns theta) theta) by (apply B; lra).
    destruct (wrapUp_spec (JS.turns theta)
                (JS.wrapDown (JS.turns theta) theta)) as (_ & _ & C'); [nra|].
    rewrite (C' B1). split; assumption.
Qed.

Lemma normalizeAngle_id (theta : R) :
  - PI <= theta <= PI -> JS.normalizeAngle theta = theta.
Proof.
  intros [L U]. unfold JS.normalizeAngle.
  pose proof PI_RGT_0 as Hpi.
  assert (Hn : 0 <= INR (JS.turns theta)) by apply pos_INR.
  destruct (wrapDown_spec (JS.turns theta) theta) as (_ & _ & C); [nra|].
  rewrite (C U).
  destruct (wrapUp_spec (JS.turns theta) theta) as (_ & _ & C'); [nra|].
  exact (C' L).
Qed.

(* ================================================================== *)
(** ** C8 and C10: the failure checks of the cart-pendulum *)
(* ================================================================== *)

(** The standalone step leaves in the state what the integration
    produced, and classifies it by the track test first. *)
Lemma PendulumStandalone_checks (st : PendulumStandalone.State) :
  let limit := PendulumStandalone.TRACK_WIDTH / 2 - 0.2 in
  let r := PendulumStandalone.checks st in
  (r = Some PendulumStandalone.crashed <->
   Rabs (PendulumStandalone.x st) > limit) /\
  (r = Some PendulumStandalone.fallen <->
   Rabs (PendulumStandalone.theta st) > PI / 2 /\
   ~ Rabs (PendulumStandalone.x st) > limit) /\
  (r = None <->
   ~ Rabs (PendulumStandalone.theta st) > PI / 2 /\
   ~ Rabs (PendulumStandalone.x st) > limit).
Proof.
  intros limit r. unfold r, PendulumStandalone.checks. fold limit.
  destruct (Rgt_dec (Rabs (PendulumStandalone.x st)) limit) as [X|X];
    [|destruct (Rgt_dec (Rabs (PendulumStandalone.theta st)) (PI / 2))
        as [T|T]];
    repeat split; intros; try discriminate; try tauto.
Qed.

(** At the straight-down angle with everything at rest the standalone
    dynamics are in equilibrium. *)
Lemma PendulumStandalone_hanging :
  let st := PendulumStandalone.mkState PI 0 10 0 0 0 0 in
  PendulumStandalone.integrate 0 0 0.5 st =
  PendulumStandalone.mkState PI 0 10 0 (0 + PendulumStandalone.DT) 0 0.
Proof.
  pose proof PI_RGT_0 as Hpi.
  unfold PendulumStandalone.integrate; simpl.
  rewrite Rplus_0_r, sin_PI, cos_PI, sin_0.
  unfold PendulumStandalone.PENDULUM_MASS, PendulumStandalone.CART_MASS,
    PendulumStandalone.PENDULUM_LENGTH, PendulumStandalone.GRAVITY,
    PendulumStandalone.FRICTION_CART, PendulumStandalone.FRICTION_PENDULUM,
    PendulumStandalone.NOISE_AMPLITUDE, PendulumStandalone.DT.
  assert (A : (9.81 * 0 +
     -1 * ((- 0 - (1.0 + 0.25) * 9.81 * 0 - 0.25 * 2.0 * 0 * 0 * 0 + 0.1 * 0)
           / (1.0 + 0.25)) - 0.01 * 0 / (0.25 * 2.0)
     + (0.5 - 0.5) * 2 * 0.002)
     / (2.0 * (4.0 / 3.0 - 0.25 * -1 * -1 / (1.0 + 0.25))) = 0)
    by (field; lra).
  rewrite A.
  replace (PI + (0 + 0 * 0.001) * 0.001) with PI by lra.
  rewrite normalizeAngle_id by lra.
  f_equal; lra.
Qed.

(** C10.  In the standalone cart-pendulum a step that leaves the cart
    beyond the track limit returns ['crashed'], also when it leaves the
    pendulum beyond [PI/2]: the track test comes first and returns. *)
Theorem C10_crashed_before_fallen (st : PendulumStandalone.State)
    (force tilt random : R) :
  let out := PendulumStandalone.simulateStep force false tilt random st in
  Rabs (PendulumStandalone.x (fst out))
    > PendulumStandalone.TRACK_WIDTH / 2 - 0.2 ->
  Rabs (PendulumStandalone.theta (fst out)) > PI / 2 ->
  snd out = Some PendulumStandalone.crashed /\
  snd out <> Some PendulumStandalone.fallen.
Proof.
  intros out Hx Ht. unfold out in *. unfold PendulumStandalone.simulateStep in *.
  simpl in *.
  destruct (PendulumStandalone_checks
              (PendulumStandalone.integrate force tilt random st))
    as (C & _ & _).
  apply C in Hx. rewrite Hx. split; [reflexivity | discriminate].
Qed.

Lemma C10_crashed_before_fallen_witness :
  let st := PendulumStandalone.mkState PI 0 10 0 0 0 0 in
  let out := PendulumStandalone.simulateStep 0 false 0 0.5 st in
  Rabs (PendulumStandalone.x (fst out))
    > PendulumStandalone.TRACK_WIDTH / 2 - 0.2 /\
  Rabs (PendulumStandalone.theta (fst out)) > PI / 2 /\
  snd out = Some PendulumStandalone.crashed /\
  snd out <> Some PendulumStandalone.fallen.
Proof.
  intros st out.
  pose proof PI_RGT_0 as Hpi.
  assert (E : fst out = PendulumStandalone.mkState
                          PI 0 10 0 (0 + PendulumStandalone.DT) 0 0).
  { unfold out, PendulumStandalone.simulateStep. simpl fst.
    apply PendulumStandalone_hanging. }
  assert (Hx : Rabs (PendulumStandalone.x (fst out))
               > PendulumStandalone.TRACK_WIDTH / 2 - 0.2).
  { rewrite E. simpl. unfold PendulumStandalone.TRACK_WIDTH.
    rewrite Rabs_pos_eq; lra. }
  assert (Ht : Rabs (PendulumStandalone.theta (fst out)) > PI / 2).
  { rewrite E. simpl. rewrite Rabs_pos_eq; lra. }
  split; [exact Hx|]. split; [exact Ht|].
  exact (C10_crashed_before_fallen st 0 0 0.5 Hx Ht).
Defined.

(** The bouncing pendulum, upright and at rest on the pendulum side, with
    the cart at the track limit moving outwards at 1 m/s: what the
    integration produces. *)
Lemma Pendulum_at_limit :
  let st := Pendulum.mkState 0 0 4.8 1 0 0 0 false in
  let post := Pendulum.integrate 0 0.5 st in
  4.8 < Pendulum.x post /\ 0.9 < Pendulum.xDot post /\
  Rabs (Pendulum.theta post) <= 1 /\ Pendulum.fallen post = false.
Proof.
  pose proof PI2_3_2 as Hpi.
  unfold Pendulum.integrate; simpl.
  rewrite sin_0, cos_0.
  unfold Pendulum.PENDULUM_MASS, Pendulum.CART_MASS,
    Pendulum.PENDULUM_LENGTH, Pendulum.GRAVITY, Pendulum.FRICTION_CART,
    Pendulum.FRICTION_PENDULUM, Pendulum.NOISE_AMPLITUDE, Pendulum.DT.
  set (thetaDDot :=
    (9.81 * 0 +
     1 * ((- 0 - 0.25 * 2.0 * 0 * 0 * 0 + 0.1 * 1) / (1.0 + 0.25))
     - 0.01 * 0 / (0.25 * 2.0) + (0.5 - 0.5) * 2 * 0.002)
    / (2.0 * (4.0 / 3.0 - 0.25 * 1 * 1 / (1.0 + 0.25)))).
  assert (A : thetaDDot = 6 / 170) by (unfold thetaDDot; lra).
  rewrite A.
  rewrite normalizeAngle_id by lra.
  repeat split; try lra.
  rewrite Rabs_pos_eq; lra.
Qed.

(** C8, counterexample to the terminal track limit.  In the pendulum that
    accompanies the hook, a step that carries the cart past the track limit
    does not make the plant terminal: it puts the cart back on the limit
    and reverses and halves its velocity. *)
Lemma C8_bounce_counterexample :
  let st := Pendulum.mkState 0 0 4.8 1 0 0 0 false in
  let post := Pendulum.integrate 0 0.5 st in
  let st' := Pendulum.simulateStep 0 0.5 st in
  Rabs (Pendulum.x post) > Pendulum.TRACK_WIDTH / 2 - 0.2 /\
  Pendulum.fallen st' = false /\
  Pendulum.x st' = 4.8 /\ Pendulum.x st' <> Pendulum.x post /\
  Pendulum.xDot st' = - Pendulum.xDot post * 0.5 /\
  Pendulum.xDot st' <> Pendulum.xDot post.
Proof.
  intros st post st'.
  pose proof PI2_3_2 as Hpi.
  destruct Pendulum_at_limit as (Hx & Hv & Ht & Hf).
  fold st in Hx, Hv, Ht, Hf. fold post in Hx, Hv, Ht, Hf.
  assert (Hlim : Rabs (Pendulum.x post) > Pendulum.TRACK_WIDTH / 2 - 0.2).
  { unfold Pendulum.TRACK_WIDTH. rewrite Rabs_pos_eq; lra. }
  assert (E : st' = Pendulum.checks post) by reflexivity.
  clearbody st' post. subst st'. unfold Pendulum.checks.
  destruct (Rgt_dec (Rabs (Pendulum.x post)) (Pendulum.TRACK_WIDTH / 2 - 0.2))
    as [_|N]; [|contradiction].
  destruct (Rgt_dec (Rabs (Pendulum.theta post)) (PI / 2)) as [G|_]; [lra|].
  simpl.
  assert (Hs : JS.sign (Pendulum.x post) = 1).
  { unfold JS.sign. destruct (Rlt_dec 0 (Pendulum.x post)); [reflexivity|lra]. }
  rewrite Hs. unfold Pendulum.TRACK_WIDTH.
  repeat split; try assumption; lra.
Qed.

(** C8, the statement that holds.  After the Euler update and the
    normalisation of the angle into [[-PI, PI]]:
    - InvertedPendulumStandalone returns ['crashed'] exactly when
      [|x| > TRACK_WIDTH/2 - 0.2], returns ['fallen'] exactly when
      [|theta| > PI/2] and the track limit is not exceeded, and leaves
      position and velocity as integrated;
    - the component-based simulator sets [fallen] exactly when
      [|theta| > PI/2] or [|x| > TRACK_WIDTH/2 - 0.2], and leaves position
      and velocity as integrated;
    - the simulator that accompanies the hook sets [fallen] exactly when
      [|theta| > PI/2]; past the track limit it is not terminal: the cart
      is put back on the limit and its velocity reversed and halved. *)
Theorem C8_pendulum_failure :
  (forall st force tilt random,
     let post := PendulumStandalone.integrate force tilt random st in
     let out := PendulumStandalone.simulateStep force false tilt random st in
     let limit := PendulumStandalone.TRACK_WIDTH / 2 - 0.2 in
     fst out = post /\
     - PI <= PendulumStandalone.theta post <= PI /\
     (snd out = Some PendulumStandalone.crashed <->
      Rabs (PendulumStandalone.x post) > limit) /\
     (snd out = Some PendulumStandalone.fallen <->
      Rabs (PendulumStandalone.theta post) > PI / 2 /\
      ~ Rabs (PendulumStandalone.x post) > limit)) /\
  (forall st force random,
     PendulumPanel.fallen st = false ->
     let post := PendulumPanel.integrate force random st in
     let st' := PendulumPanel.simulateStep force random st in
     let limit := PendulumPanel.TRACK_WIDTH / 2 - 0.2 in
     (PendulumPanel.fallen st' = true <->
      Rabs (PendulumPanel.theta post) > PI / 2 \/
      Rabs (PendulumPanel.x post) > limit) /\
     - PI <= PendulumPanel.theta post <= PI /\
     PendulumPanel.theta st' = PendulumPanel.theta post /\
     PendulumPanel.x st' = PendulumPanel.x post /\
     PendulumPanel.xDot st' = PendulumPanel.xDot post) /\
  (forall st force random,
     Pendulum.fallen st = false ->
     let post := Pendulum.integrate force random st in
     let st' := Pendulum.simulateStep force random st in
     let limit := Pendulum.TRACK_WIDTH / 2 - 0.2 in
     (Pendulum.fallen st' = true <-> Rabs (Pendulum.theta post) > PI / 2) /\
     - PI <= Pendulum.theta post <= PI /\
     Pendulum.theta st' = Pendulum.theta post /\
     (Rabs (Pendulum.x post) > limit ->
      Pendulum.x st' = JS.sign (Pendulum.x post) * limit /\
      Pendulum.xDot st' = - Pendulum.xDot post * 0.5) /\
     (~ Rabs (Pendulum.x post) > limit ->
      Pendulum.x st' = Pendulum.x post /\
      Pendulum.xDot st' = Pendulum.xDot post)).
Proof.
  split; [|split].
  - intros st force tilt random post out limit.
    destruct (PendulumStandalone_checks post) as (C & F & _).
    split; [reflexivity|]. split; [apply normalizeAngle_range|].
    split; [exact C | exact F].
  - intros st force random Hf post st' limit.
    assert (E : st' = PendulumPanel.checks post).
    { unfold st', PendulumPanel.simulateStep. rewrite Hf. reflexivity. }
    assert (Hp : PendulumPanel.fallen post = false) by exact Hf.
    assert (Hr : - PI <= PendulumPanel.theta post <= PI)
      by apply normalizeAngle_range.
    clearbody st' post. subst st'.
    split; [|split; [exact Hr|]].
    + unfold PendulumPanel.checks. fold limit. simpl.
      destruct (Rgt_dec (Rabs (PendulumPanel.x post)) limit) as [X|X];
        destruct (Rgt_dec (Rabs (PendulumPanel.theta post)) (PI / 2))
          as [T|T];
        rewrite ?Hp; split; intros H;
        try reflexivity; try tauto; try discriminate.
    + repeat split.
  - intros st force random Hf post st' limit.
    assert (E : st' = Pendulum.checks post).
    { unfold st', Pendulum.simulateStep. rewrite Hf. reflexivity. }
    assert (Hp : Pendulum.fallen post = false) by exact Hf.
    assert (Hr : - PI <= Pendulum.theta post <= PI)
      by apply normalizeAngle_range.
    clearbody st' post. subst st'.
    unfold Pendulum.checks. fold limit.
    split; [|split; [exact Hr|]].
    + destruct (Rgt_dec (Rabs (Pendulum.x post)) limit) as [X|X];
        destruct (Rgt_dec (Rabs (Pendulum.theta post)) (PI / 2)) as [T|T];
        simpl; rewrite ?Hp; split; intros H;
        try reflexivity; try tauto; try discriminate.
    + destruct (Rgt_dec (Rabs (Pendulum.x post)) limit) as [X|X]; simpl;
        repeat split; intros; try contradiction; reflexivity.
Qed.

Lemma C8_pendulum_failure_witness :
  let st := Pendulum.mkState 0 0 4.8 1 0 0 0 false in
  let post := Pendulum.integrate 0 0.5 st in
  let st' := Pendulum.simulateStep 0 0.5 st in
  Pendulum.fallen st = false /\
  (Pendulum.fallen st' = true <-> Rabs (Pendulum.theta post) > PI / 2).
Proof.
  intros st post st'. split; [reflexivity|].
  exact (proj1 (proj2 (proj2 C8_pendulum_failure) st 0 0.5 eq_refl)).
Defined.

(* ================================================================== *)
(** ** The accumulator loop in exact arithmetic *)
(* ================================================================== *)

Lemma iter_add {Sim : Type} (tick : Sim -> Sim) (a b : nat) (s : Sim) :
  Loop.iter tick (a + b) s = Loop.iter tick b (Loop.iter tick a s).
Proof.
  revert s. induction a as [|a IH]; intros s; simpl; [reflexivity | apply IH].
Qed.

Lemma trace_add {Sim : Type} (tick : Sim -> Sim) (a b : nat) (s : Sim) :
  Loop.trace tick (a + b) s =
  Loop.trace tick a s ++ Loop.trace tick b (Loop.iter tick a s).
Proof.
  revert s. induction a as [|a IH]; intros s; simpl;
    [reflexivity | rewrite IH; reflexivity].
Qed.

Lemma trace_length {Sim : Type} (tick : Sim -> Sim) (n : nat) (s : Sim) :
  length (Loop.trace tick n s) = n.
Proof.
  revert s. induction n as [|n IH]; intros s; simpl;
    [reflexivity | rewrite IH; reflexivity].
Qed.

Lemma total_nonneg (deltas : list R) :
  Forall (fun d => 0 <= d <= 50) deltas -> 0 <= Loop.total deltas.
Proof.
  induction 1 as [|d ds Hd _ IH]; simpl; lra.
Qed.

Section WholeSteps.

Variable step : R.
Hypothesis step_pos : 0 < step.


Lemma whole_of_range (acc : R) (k : nat) :
  0 <= acc < step -> whole step (acc + step * INR k) k.
Proof.
  intros [H0 H1]. split; [lra | intros _; lra].
Qed.

Lemma whole_exists (E : R) : exists k, whole step E k.
Proof.
  destruct (Rlt_dec E step) as [L|G].
  - exists 0%nat. split; [simpl; lra | intros C; contradiction C; reflexivity].
  - set (q := E / step).
    assert (Hq : 1 <= q).
    { unfold q. apply Rmult_le_reg_r with step; [exact step_pos|].
      replace (E / step * step) with E by (field; lra). lra. }
    assert (HE : E = q * step) by (unfold q; field; lra).
    destruct (archimed q) as [Hup Hup'].
    assert (Hz : (0 <= up q - 1)%Z).
    { assert (1 < IZR (up q)) by lra.
      apply lt_IZR in H. lia. }
    exists (Z.to_nat (up q - 1)).
    assert (HI : INR (Z.to_nat (up q - 1)) = IZR (up q) - 1).
    { rewrite INR_IZR_INZ, Z2Nat.id by exact Hz. rewrite minus_IZR. reflexivity. }
    split.
    + rewrite HI, HE. nra.
    + intros _. rewrite HI, HE. nra.
Qed.

Lemma whole_mono (E E' : R) (k k' : nat) :
  whole step E k -> whole step E' k' -> E <= E' -> (k <= k')%nat.
Proof.
  intros [_ Hk] [Hk' _] HE.
  destruct (Nat.le_gt_cases k k') as [L|G]; [exact L|].
  assert (Hne : k <> 0%nat) by lia.
  specialize (Hk Hne).
  assert (HI : INR k' + 1 <= INR k).
  { rewrite <- S_INR. apply le_INR. lia. }
  nra.
Qed.

Lemma whole_unique (E : R) (k k' : nat) :
  whole step E k -> whole step E k' -> k = k'.
Proof.
  intros H H'.
  apply Nat.le_antisymm; eapply whole_mono; eauto; lra.
Qed.

End WholeSteps.

Section FrameRate.

Variable Sim : Type.
Variable tick : Sim -> Sim.
Variables dt timeScale : R.
Hypothesis dt_pos : 0 < dt.

Let step := dt * 1000.

Lemma step_pos : 0 < step.
Proof. unfold step. lra. Qed.

(** The [while] loop runs exactly the whole steps that fit. *)
Lemma drain_whole (k : nat) :
  forall fuel acc s log,
    whole step acc k -> (k < fuel)%nat ->
    Loop.drain Sim tick dt fuel acc s log =
    Some (acc - step * INR k, Loop.iter tick k s,
          log ++ Loop.trace tick k s).
Proof.
  pose proof step_pos as Hs.
  induction k as [|k IH]; intros fuel acc s log [Hlt Hge] Hf;
    (destruct fuel as [|fuel]; [lia|]); simpl Loop.drain.
  - simpl in Hlt. fold step.
    destruct (Rge_dec acc step) as [G|G]; [lra|].
    simpl. rewrite app_nil_r. do 3 f_equal. lra.
  - fold step. rewrite S_INR in Hlt.
    assert (Hge' : step * INR (S k) <= acc) by (apply Hge; discriminate).
    rewrite S_INR in Hge'. pose proof (pos_INR k) as Hk.
    destruct (Rge_dec acc step) as [G|G]; [|nra].
    rewrite IH; [| |lia].
    + cbn [Loop.iter Loop.trace]. rewrite S_INR, <- app_assoc.
      cbn [app]. do 3 f_equal. lra.
    + split; [lra|]. intros _. lra.
Qed.

(** A frame whose delta lies in [[0, 50]]. *)
Lemma loop_delta (fuel : nat) (ls : Loop.LoopState Sim) (d : R) :
  0 <= d <= 50 ->
  Loop.loop Sim tick dt timeScale fuel ls (Loop.lastTime Sim ls + d) =
  match Loop.drain Sim tick dt fuel
          (Loop.accumulator Sim ls + d * timeScale)
          (Loop.sim Sim ls) (Loop.stepped Sim ls) with
  | Some (accumulator2, sim2, stepped2) =>
      Some (Loop.mkLoopState Sim (Loop.lastTime Sim ls + d)
                             accumulator2 sim2 stepped2)
  | None => None
  end.
Proof.
  intros [H0 H50]. unfold Loop.loop.
  replace (Loop.lastTime Sim ls + d - Loop.lastTime Sim ls) with d by ring.
  rewrite (Rmin_left d 50) by exact H50. reflexivity.
Qed.

(** With a non-negative time scale: after the frames the loop has run
    the whole steps that fit into the total scaled time. *)
Lemma frames_whole (s0 : Sim) (Kn fuel : nat) :
  0 <= timeScale -> (Kn < fuel)%nat ->
  forall deltas t acc K,
    Forall (fun d => 0 <= d <= 50) deltas ->
    0 <= acc < step ->
    whole step (acc + step * INR K + Loop.total deltas * timeScale) Kn ->
    Loop.frames Sim tick dt timeScale fuel
      (Loop.mkLoopState Sim t acc (Loop.iter tick K s0)
                        (Loop.trace tick K s0))
      (Loop.stampsFrom t deltas) =
    Some (Loop.mkLoopState Sim (t + Loop.total deltas)
            (acc + step * INR K + Loop.total deltas * timeScale
             - step * INR Kn)
            (Loop.iter tick Kn s0) (Loop.trace tick Kn s0)).
Proof.
  pose proof step_pos as Hs.
  intros Hts Hf deltas.
  induction deltas as [|d ds IH]; intros t acc K Hd Hacc Hw.
  - simpl in *.
    assert (E : K = Kn).
    { apply (whole_unique step Hs (acc + step * INR K)).
      - apply whole_of_range; assumption.
      - replace (acc + step * INR K) with (acc + step * INR K + 0 * timeScale)
          by ring. exact Hw. }
    subst Kn. do 2 f_equal; lra.
  - apply Forall_cons_iff in Hd. destruct Hd as [Hd Hds].
    simpl Loop.stampsFrom. simpl Loop.frames. simpl Loop.total in *.
    pose proof (loop_delta fuel
                  (Loop.mkLoopState Sim t acc (Loop.iter tick K s0)
                                    (Loop.trace tick K s0)) d Hd) as HL.
    simpl in HL. rewrite HL. clear HL.
    destruct (whole_exists step Hs (acc + d * timeScale)) as [k Hk].
    assert (Ha : 0 <= acc + d * timeScale) by nra.
    assert (Hrange : 0 <= acc + d * timeScale - step * INR k < step).
    { destruct Hk as [Hk1 Hk2]. split; [|lra].
      destruct k as [|k]; [simpl; lra|].
      specialize (Hk2 ltac:(discriminate)). lra. }
    assert (Hw1 : whole step (acc + step * INR K + d * timeScale) (K + k)).
    { replace (acc + step * INR K + d * timeScale)
        with ((acc + d * timeScale - step * INR k) + step * INR (K + k))
        by (rewrite plus_INR; ring).
      apply whole_of_range; assumption. }
    assert (Hle : (K + k <= Kn)%nat).
    { apply (whole_mono step Hs (acc + step * INR K + d * timeScale)
               (acc + step * INR K + (d + Loop.total ds) * timeScale));
        try assumption.
      pose proof (total_nonneg ds Hds). nra. }
    rewrite (drain_whole k fuel) by (assumption || lia).
    rewrite <- iter_add, <- trace_add.
    rewrite (IH (t + d) (acc + d * timeScale - step * INR k) (K + k)%nat
               Hds Hrange).
    + do 2 f_equal; [lra | rewrite plus_INR; lra].
    + replace (acc + d * timeScale - step * INR k + step * INR (K + k)
               + Loop.total ds * timeScale)
        with (acc + step * INR K + (d + Loop.total ds) * timeScale)
        by (rewrite plus_INR; ring).
      exact Hw.
Qed.

(** With a negative time scale the accumulator only decreases and no
    step is ever run. *)
Lemma frames_idle (fuel : nat) :
  timeScale < 0 -> (0 < fuel)%nat ->
  forall deltas t acc s log,
    Forall (fun d => 0 <= d <= 50) deltas ->
    acc <= 0 ->
    Loop.frames Sim tick dt timeScale fuel
      (Loop.mkLoopState Sim t acc s log) (Loop.stampsFrom t deltas) =
    Some (Loop.mkLoopState Sim (t + Loop.total deltas)
            (acc + Loop.total deltas * timeScale) s log).
Proof.
  pose proof step_pos as Hs.
  intros Hts Hf deltas.
  induction deltas as [|d ds IH]; intros t acc s log Hd Hacc.
  - simpl. do 2 f_equal; lra.
  - apply Forall_cons_iff in Hd. destruct Hd as [Hd Hds].
    simpl Loop.stampsFrom. simpl Loop.frames. simpl Loop.total.
    pose proof (loop_delta fuel (Loop.mkLoopState Sim t acc s log) d Hd) as HL.
    simpl in HL. rewrite HL. clear HL.
    assert (Ha : acc + d * timeScale <= 0) by nra.
    rewrite (drain_whole 0 fuel)
      by (first [exact Hf | split; simpl; [lra | tauto]]).
    simpl. rewrite app_nil_r.
    rewrite IH by (assumption || lra).
    do 2 f_equal; lra.
Qed.

End FrameRate.

(* ================================================================== *)
(** ** C5: the accumulator loop and the frame rate, in binary64 *)
(* ================================================================== *)

(** Whole numbers below [2^53] in size are doubles: rounding leaves them
    as they are. *)
Section Binary64Facts.

Import QArith Qround Qabs Qreduction Qpower.
Local Open Scope Q_scope.

Lemma Qred_inject_Z (z : Z) : Qred (inject_Z z) = inject_Z z.
Proof.
  unfold Qred, inject_Z.
  pose proof (Z.ggcd_gcd z 1) as Hg.
  pose proof (Z.ggcd_correct_divisors z 1) as Hd.
  destruct (Z.ggcd z 1) as [g [a b]]. cbn [fst snd] in *.
  rewrite Z.gcd_1_r in Hg. subst g. destruct Hd as [Ha Hb].
  rewrite Z.mul_1_l in Ha, Hb. subst a b. reflexivity.
Qed.

Lemma round_comp (p q : Q) : p == q -> Binary64.round p = Binary64.round q.
Proof.
  intros H. unfold Binary64.round. rewrite (Qred_complete p q H). reflexivity.
Qed.

Lemma nearestEven_int (q : Q) (k : Z) :
  q == inject_Z k -> Binary64.nearestEven q = k.
Proof.
  intros H. unfold Binary64.nearestEven.
  assert (F : Qfloor q = k) by (rewrite H; apply Qfloor_Z).
  rewrite F.
  assert (C : Qcompare (q - inject_Z k) (1 # 2) = Lt).
  { apply (proj1 (Qlt_alt _ _)). rewrite H.
    setoid_replace (inject_Z k - inject_Z k) with 0 by ring. reflexivity. }
  rewrite C. reflexivity.
Qed.

Lemma magnitude_int (z : Z) :
  z <> 0%Z -> Binary64.magnitude (inject_Z z) = Z.log2 (Z.abs z).
Proof.
  intros Hz. unfold Binary64.magnitude. cbn [Qnum Qden inject_Z].
  change (Z.log2 1) with 0%Z. rewrite Z.sub_0_r.
  assert (Hp : (0 < Z.abs z)%Z) by lia.
  destruct (Z.log2_spec (Z.abs z) Hp) as [Hlo _].
  assert (T : Qle_bool (2 ^ Z.log2 (Z.abs z)) (Qabs (inject_Z z)) = true).
  { apply Qle_bool_iff.
    change (Qabs (inject_Z z)) with (inject_Z (Z.abs z)).
    change 2 with (inject_Z 2).
    rewrite <- Zpower_Qpower by apply Z.log2_nonneg.
    rewrite <- Zle_Qle. exact Hlo. }
  rewrite T. reflexivity.
Qed.

Lemma round_int (q : Q) (z : Z) :
  q == inject_Z z -> (Z.abs z < 2 ^ 53)%Z -> Binary64.round q == inject_Z z.
Proof.
  intros H Hb. rewrite (round_comp q (inject_Z z) H).
  unfold Binary64.round. rewrite Qred_inject_Z.
  destruct (Z.eq_dec z 0) as [E|E]; [subst z; reflexivity|].
  assert (N : Qeq_bool (inject_Z z) 0 = false).
  { destruct (Qeq_bool (inject_Z z) 0) eqn:B; [|reflexivity].
    apply Qeq_bool_eq in B.
    exfalso. exact (E (proj1 (inject_Z_injective z 0) B)). }
  rewrite N. unfold Binary64.ulp. rewrite (magnitude_int z E).
  assert (Hp : (0 < Z.abs z)%Z) by lia.
  assert (Hl : (0 <= Z.log2 (Z.abs z) < 53)%Z).
  { split; [apply Z.log2_nonneg|]. apply Z.log2_lt_pow2; lia. }
  set (l := Z.log2 (Z.abs z)) in *.
  set (k := (52 - l)%Z).
  assert (Hk : (0 <= k)%Z) by (unfold k; lia).
  assert (U : 2 ^ (l - 52) == / inject_Z (2 ^ k)).
  { replace (l - 52)%Z with (- k)%Z by (unfold k; lia).
    rewrite Qpower_opp. rewrite Zpower_Qpower by exact Hk. reflexivity. }
  assert (P : (0 < 2 ^ k)%Z) by (apply Z.pow_pos_nonneg; lia).
  assert (P' : ~ inject_Z (2 ^ k) == 0).
  { change 0 with (inject_Z 0). rewrite inject_Z_injective. lia. }
  assert (D : inject_Z z / 2 ^ (l - 52) == inject_Z (z * 2 ^ k)).
  { rewrite U, inject_Z_mult. field. exact P'. }
  rewrite (nearestEven_int _ _ D). rewrite U, inject_Z_mult. field. exact P'.
Qed.

End Binary64Facts.

(** The loop on whole numbers: no operation rounds, and a frame runs the
    whole steps that fit. *)
Section Binary64Loop.

Import QArith.
Local Open Scope Q_scope.

Variable Sim : Type.
Variable tick : Sim -> Sim.
Variables dt timeScale : Q.
Variables step scale : Z.

Hypothesis step_whole : Binary64.mul dt (inject_Z 1000) == inject_Z step.
Hypothesis step_positive : (0 < step)%Z.
Hypothesis scale_whole : timeScale == inject_Z scale.
Hypothesis in_range : (step + 50 * Z.abs scale < 2 ^ 53)%Z.

Let drain := FloatLoop.drain Q FloatLoop.binary64 Sim tick dt.
Let loop := FloatLoop.loop Q FloatLoop.binary64 Sim tick dt timeScale.
Let frames := FloatLoop.frames Q FloatLoop.binary64 Sim tick dt timeScale.

Lemma binary64_drain (k : nat) :
  forall fuel acc a sim stepped,
    acc == inject_Z a -> (Z.abs a < 2 ^ 53)%Z ->
    Z.to_nat (a / step) = k -> (k < fuel)%nat ->
    exists acc',
      drain fuel acc sim stepped
      = Some (acc', Loop.iter tick k sim, stepped ++ Loop.trace tick k sim) /\
      acc' == inject_Z (a - step * Z.of_nat k).
Proof.
  induction k as [|k IH]; intros fuel acc a sim stepped Ha Hb Hk Hf.
  - destruct fuel as [|fuel]; [lia|].
    assert (Hlt : (a < step)%Z).
    { destruct (Z.lt_ge_cases a step) as [L|G]; [exact L|].
      assert (1 <= a / step)%Z by (apply Z.div_le_lower_bound; lia). lia. }
    exists acc. split.
    + unfold drain. cbn [FloatLoop.drain FloatLoop.geb FloatLoop.mul
                         FloatLoop.thousand FloatLoop.binary64].
      unfold Binary64.geb.
      destruct (Qle_bool (Binary64.mul dt (inject_Z 1000)) acc) eqn:T.
      * apply Qle_bool_iff in T. rewrite step_whole, Ha in T.
        rewrite <- Zle_Qle in T. lia.
      * cbn [Loop.iter Loop.trace]. rewrite app_nil_r. reflexivity.
    + rewrite Ha. replace (a - step * Z.of_nat 0)%Z with a by lia. reflexivity.
  - destruct fuel as [|fuel]; [lia|].
    assert (Hge : (step <= a)%Z).
    { destruct (Z.lt_ge_cases a step) as [L|G]; [|exact G].
      assert (a / step <= 0)%Z.
      { destruct (Z.lt_ge_cases a 0) as [N|P].
        - apply Z.lt_le_incl. apply Z.div_lt_upper_bound; lia.
        - rewrite Z.div_small by lia. lia. }
      lia. }
    assert (Hsub : Binary64.sub acc (Binary64.mul dt (inject_Z 1000))
                   == inject_Z (a - step)).
    { unfold Binary64.sub. apply round_int; [|lia].
      rewrite step_whole, Ha. unfold Z.sub.
      rewrite inject_Z_plus, inject_Z_opp. reflexivity. }
    assert (Hdiv : ((a - step) / step = a / step - 1)%Z).
    { replace (a - step)%Z with (a + (-1) * step)%Z by lia.
      rewrite Z.div_add by lia. lia. }
    destruct (IH fuel _ (a - step)%Z (tick sim) (stepped ++ [sim]) Hsub)
      as [acc' [E R]]; [lia | lia | lia |].
    exists acc'. split.
    + unfold drain. cbn [FloatLoop.drain FloatLoop.geb FloatLoop.mul
                         FloatLoop.sub FloatLoop.thousand FloatLoop.binary64].
      unfold Binary64.geb.
      destruct (Qle_bool (Binary64.mul dt (inject_Z 1000)) acc) eqn:T.
      * unfold drain in E. rewrite E. cbn [Loop.iter Loop.trace].
        rewrite <- app_assoc. reflexivity.
      * exfalso.
        assert (T' : Binary64.mul dt (inject_Z 1000) <= acc).
        { rewrite step_whole, Ha. rewrite <- Zle_Qle. exact Hge. }
        apply Qle_bool_iff in T'. congruence.
    + rewrite R. apply inject_Z_injective. lia.
Qed.

Lemma binary64_frame (fuel : nat) (ls : FloatLoop.LoopState Q Sim) (l a d : Z) :
  FloatLoop.lastTime ls = inject_Z l ->
  FloatLoop.accumulator ls == inject_Z a ->
  (0 <= d <= 50)%Z ->
  (Z.abs (a + d * scale) < 2 ^ 53)%Z ->
  (Z.to_nat ((a + d * scale) / step) < fuel)%nat ->
  exists ls',
    loop fuel ls (inject_Z (l + d)) = Some ls' /\
    FloatLoop.lastTime ls' = inject_Z (l + d) /\
    FloatLoop.accumulator ls'
    == inject_Z (a + d * scale
                 - step * Z.of_nat (Z.to_nat ((a + d * scale) / step))) /\
    FloatLoop.sim ls'
    = Loop.iter tick (Z.to_nat ((a + d * scale) / step)) (FloatLoop.sim ls) /\
    FloatLoop.stepped ls'
    = FloatLoop.stepped ls
      ++ Loop.trace tick (Z.to_nat ((a + d * scale) / step))
                    (FloatLoop.sim ls).
Proof.
  intros Hl Ha Hd Hb Hf.
  assert (Hdelta : Binary64.min (Binary64.sub (inject_Z (l + d)) (inject_Z l))
                                (inject_Z 50) == inject_Z d).
  { assert (S0 : Binary64.sub (inject_Z (l + d)) (inject_Z l) == inject_Z d).
    { unfold Binary64.sub. apply round_int; [|lia].
      rewrite inject_Z_plus. ring. }
    unfold Binary64.min.
    destruct (Qle_bool (inject_Z 50) _) eqn:T; [|exact S0].
    apply Qle_bool_iff in T. rewrite S0 in T. rewrite <- Zle_Qle in T.
    apply inject_Z_injective. lia. }
  assert (Hprod : Binary64.mul
                    (Binary64.min (Binary64.sub (inject_Z (l + d)) (inject_Z l))
                                  (inject_Z 50)) timeScale
                  == inject_Z (d * scale)).
  { unfold Binary64.mul. apply round_int; [|nia].
    rewrite Hdelta, scale_whole, inject_Z_mult. reflexivity. }
  assert (Hacc : Binary64.add (FloatLoop.accumulator ls)
                   (Binary64.mul
                      (Binary64.min
                         (Binary64.sub (inject_Z (l + d)) (inject_Z l))
                         (inject_Z 50)) timeScale)
                 == inject_Z (a + d * scale)).
  { unfold Binary64.add. apply round_int; [|exact Hb].
    rewrite Hprod, Ha, inject_Z_plus. reflexivity. }
  destruct (binary64_drain _ fuel _ _ (FloatLoop.sim ls) (FloatLoop.stepped ls)
              Hacc Hb eq_refl Hf) as [acc' [E R]].
  exists (FloatLoop.mkLoopState Q Sim (inject_Z (l + d)) acc'
            (Loop.iter tick (Z.to_nat ((a + d * scale) / step))
                       (FloatLoop.sim ls))
            (FloatLoop.stepped ls
             ++ Loop.trace tick (Z.to_nat ((a + d * scale) / step))
                           (FloatLoop.sim ls))).
  split; [|split; [reflexivity | split; [exact R | split; reflexivity]]].
  unfold loop, FloatLoop.loop.
  cbn [FloatLoop.min FloatLoop.sub FloatLoop.add FloatLoop.mul
       FloatLoop.fifty FloatLoop.binary64].
  rewrite Hl. unfold drain in E. rewrite E. reflexivity.
Qed.

(** The steps run once [e] whole milliseconds have been fed in from an
    empty accumulator, and what the accumulator then holds. *)
Let K (e : Z) : nat := Z.to_nat (e * scale / step).
Let rest (e : Z) : Z := (e * scale - step * Z.of_nat (K e))%Z.

Lemma binary64_steps_add (e d : Z) :
  (0 <= e)%Z -> (0 <= d)%Z -> (e + d <= 50)%Z ->
  (Z.to_nat ((rest e + d * scale) / step) + K e = K (e + d))%nat /\
  (Z.abs (rest e + d * scale) < 2 ^ 53)%Z /\
  (K e <= K (e + d))%nat.
Proof.
  intros He Hd Hs. unfold rest, K.
  destruct (Z.le_gt_cases 0 scale) as [P|N].
  - assert (H0 : (0 <= e * scale)%Z) by nia.
    assert (H1 : (e * scale <= (e + d) * scale)%Z) by nia.
    assert (Q0 : (0 <= e * scale / step)%Z) by (apply Z.div_pos; lia).
    assert (Q1 : (e * scale / step <= (e + d) * scale / step)%Z)
      by (apply Z.div_le_mono; lia).
    rewrite Z2Nat.id by exact Q0.
    assert (E : ((e * scale - step * (e * scale / step) + d * scale) / step
                 = (e + d) * scale / step - e * scale / step)%Z).
    { replace (e * scale - step * (e * scale / step) + d * scale)%Z
        with ((e + d) * scale + (- (e * scale / step)) * step)%Z by ring.
      rewrite Z.div_add by lia. ring. }
    rewrite E.
    pose proof (Z.mod_pos_bound (e * scale) step step_positive) as M.
    rewrite Z.mod_eq in M by lia.
    split; [lia | split; [|lia]].
    assert (d * scale <= 50 * Z.abs scale)%Z by nia. lia.
  - assert (H0 : (e * scale <= 0)%Z) by nia.
    assert (H1 : ((e + d) * scale <= 0)%Z) by nia.
    assert (Q0 : (e * scale / step <= 0)%Z).
    { apply Z.div_le_upper_bound; lia. }
    assert (Q1 : ((e + d) * scale / step <= 0)%Z).
    { apply Z.div_le_upper_bound; lia. }
    replace (Z.to_nat (e * scale / step)) with 0%nat by lia.
    replace (Z.to_nat ((e + d) * scale / step)) with 0%nat by lia.
    cbn [Z.of_nat]. rewrite Z.mul_0_r, Z.sub_0_r.
    replace (e * scale + d * scale)%Z with ((e + d) * scale)%Z by ring.
    split; [lia | split; [|lia]].
    assert (- (50 * Z.abs scale) <= (e + d) * scale)%Z by nia. lia.
Qed.

Lemma binary64_frames (now : Z) (sim0 : Sim) (deltas : list Z) :
  forall (e : Z) (ls : FloatLoop.LoopState Q Sim) (fuel : nat),
    Forall (fun d => (0 <= d <= 50)%Z) deltas ->
    (0 <= e)%Z -> (e + FloatLoop.total deltas <= 50)%Z ->
    FloatLoop.lastTime ls = inject_Z (now + e) ->
    FloatLoop.accumulator ls == inject_Z (rest e) ->
    FloatLoop.sim ls = Loop.iter tick (K e) sim0 ->
    FloatLoop.stepped ls = Loop.trace tick (K e) sim0 ->
    (K (e + FloatLoop.total deltas) < fuel)%nat ->
    exists ls',
      frames fuel ls (map inject_Z (FloatLoop.stampsFrom (now + e) deltas))
      = Some ls' /\
      FloatLoop.lastTime ls' = inject_Z (now + (e + FloatLoop.total deltas)) /\
      FloatLoop.accumulator ls'
      == inject_Z (rest (e + FloatLoop.total deltas)) /\
      FloatLoop.sim ls'
      = Loop.iter tick (K (e + FloatLoop.total deltas)) sim0 /\
      FloatLoop.stepped ls'
      = Loop.trace tick (K (e + FloatLoop.total deltas)) sim0.
Proof.
  induction deltas as [|d ds IH]; intros e ls fuel Hds He Hsum Hl Ha Hs Ht Hf.
  - cbn [FloatLoop.total] in *. rewrite Z.add_0_r in *.
    exists ls. repeat split; assumption.
  - apply Forall_cons_iff in Hds. destruct Hds as [Hd Hds].
    cbn [FloatLoop.total] in Hsum, Hf |- *.
    assert (Hrest : (0 <= FloatLoop.total ds)%Z).
    { clear - Hds. induction Hds as [|x xs Hx _ IHx];
        cbn [FloatLoop.total]; lia. }
    destruct (binary64_steps_add e d He (proj1 Hd)) as (Hk & Hb & _); [lia|].
    destruct (binary64_steps_add (e + d) (FloatLoop.total ds))
      as (_ & _ & Hmono); [lia | lia | lia |].
    replace (e + d + FloatLoop.total ds)%Z
      with (e + (d + FloatLoop.total ds))%Z in Hmono by ring.
    destruct (binary64_frame fuel ls (now + e) (rest e) d Hl Ha Hd Hb)
      as (ls1 & E1 & L1 & A1 & S1 & T1); [lia|].
    assert (A1' : FloatLoop.accumulator ls1 == inject_Z (rest (e + d))).
    { rewrite A1. apply inject_Z_injective. unfold rest at 3.
      rewrite <- Hk. unfold rest. lia. }
    assert (S1' : FloatLoop.sim ls1 = Loop.iter tick (K (e + d)) sim0).
    { rewrite S1, Hs, <- iter_add, <- Hk. f_equal. lia. }
    assert (T1' : FloatLoop.stepped ls1 = Loop.trace tick (K (e + d)) sim0).
    { rewrite T1, Ht, Hs, <- trace_add, <- Hk. f_equal. lia. }
    replace (now + e + d)%Z with (now + (e + d))%Z in L1, E1 by ring.
    destruct (IH (e + d)%Z ls1 fuel Hds) as (ls2 & E2 & L2 & A2 & S2 & T2);
      try assumption; try lia.
    { replace (e + d + FloatLoop.total ds)%Z
        with (e + (d + FloatLoop.total ds))%Z by ring. exact Hf. }
    replace (e + d + FloatLoop.total ds)%Z
      with (e + (d + FloatLoop.total ds))%Z in L2, A2, S2, T2 by ring.
    exists ls2. split; [|repeat split; assumption].
    cbn [FloatLoop.stampsFrom map]. unfold frames. cbn [FloatLoop.frames].
    fold loop. replace (now + e + d)%Z with (now + (e + d))%Z by ring.
    rewrite E1. exact E2.
Qed.

End Binary64Loop.

Section FrameRateBinary64.

Import QArith.
Local Open Scope Q_scope.

(** C5.  In binary64, when the frame stamps (in ms) and the time scale
    are whole numbers and [dt * 1000] evaluates to a whole number, all
    small enough for the accumulator arithmetic to be exact
    ([dt * 1000 + 50 * |timeScale| < 2^53]), frames whose deltas lie in
    [[0, 50]] and add up to at most 50 do what one frame with the summed
    delta does, given fuel for the steps: both run the same [n] physics
    steps on the same states in the same order, namely the first [n]
    iterates of the step from the initial state, and end with the same
    simulation state, the same [lastTime] and the same accumulator. *)
Theorem C5_frame_rate_independence (Sim : Type) (tick : Sim -> Sim)
    (dt timeScale : Q) (step scale now : Z) (sim0 : Sim) (deltas : list Z) :
  Binary64.mul dt (inject_Z 1000) == inject_Z step ->
  (0 < step)%Z ->
  timeScale == inject_Z scale ->
  (step + 50 * Z.abs scale < 2 ^ 53)%Z ->
  (Z.abs now + 50 < 2 ^ 53)%Z ->
  Forall (fun d => (0 <= d <= 50)%Z) deltas ->
  (FloatLoop.total deltas <= 50)%Z ->
  let run := FloatLoop.frames Q FloatLoop.binary64 Sim tick dt timeScale in
  let s := FloatLoop.start Q FloatLoop.binary64 Sim (inject_Z now) sim0 in
  exists n : nat,
    forall fuel,
      (n < fuel)%nat ->
      exists many one : FloatLoop.LoopState Q Sim,
        run fuel s (map inject_Z (FloatLoop.stampsFrom now deltas))
        = Some many /\
        run fuel s
            (map inject_Z (FloatLoop.stampsFrom now [FloatLoop.total deltas]))
        = Some one /\
        FloatLoop.sim many = Loop.iter tick n sim0 /\
        FloatLoop.sim one = Loop.iter tick n sim0 /\
        FloatLoop.stepped many = Loop.trace tick n sim0 /\
        FloatLoop.stepped one = Loop.trace tick n sim0 /\
        length (FloatLoop.stepped many) = n /\
        FloatLoop.lastTime many = FloatLoop.lastTime one /\
        FloatLoop.accumulator many == FloatLoop.accumulator one.
Proof.
  intros Hstep Hpos Hscale Hrange _ Hd Hsum run s.
  set (T := FloatLoop.total deltas) in *.
  assert (HT : (0 <= T)%Z).
  { unfold T. clear - Hd. induction Hd as [|x xs Hx _ IH];
      cbn [FloatLoop.total]; lia. }
  assert (K0 : Z.to_nat (0 * scale / step) = 0%nat).
  { rewrite Z.mul_0_l, Z.div_0_l by lia. reflexivity. }
  assert (Hl : FloatLoop.lastTime s = inject_Z (now + 0)).
  { rewrite Z.add_0_r. reflexivity. }
  assert (Ha : FloatLoop.accumulator s
               == inject_Z (0 * scale
                            - step * Z.of_nat (Z.to_nat (0 * scale / step)))).
  { rewrite K0. apply inject_Z_injective. lia. }
  assert (Hs : FloatLoop.sim s
               = Loop.iter tick (Z.to_nat (0 * scale / step)) sim0).
  { rewrite K0. reflexivity. }
  assert (Ht : FloatLoop.stepped s
               = Loop.trace tick (Z.to_nat (0 * scale / step)) sim0).
  { rewrite K0. reflexivity. }
  assert (Hone : Forall (fun d => (0 <= d <= 50)%Z) [T]).
  { constructor; [lia | constructor]. }
  assert (ET : FloatLoop.total [T] = T).
  { cbn [FloatLoop.total]. lia. }
  exists (Z.to_nat (T * scale / step)). intros fuel Hf.
  destruct (binary64_frames Sim tick dt timeScale step scale
              Hstep Hpos Hscale Hrange now sim0 deltas 0%Z s fuel
              Hd (Z.le_refl 0) Hsum Hl Ha Hs Ht Hf)
    as (many & E1 & L1 & A1 & S1 & T1).
  destruct (binary64_frames Sim tick dt timeScale step scale
              Hstep Hpos Hscale Hrange now sim0 [T] 0%Z s fuel
              Hone (Z.le_refl 0))
    as (one & E2 & L2 & A2 & S2 & T2);
    try assumption; try (rewrite ET; assumption).
  rewrite ET in L2, A2, S2, T2.
  rewrite Z.add_0_r in E1, E2. fold T in L1, A1, S1, T1.
  rewrite Z.add_0_l in L1, A1, S1, T1, L2, A2, S2, T2.
  exists many, one.
  repeat split; try assumption.
  - rewrite T1. apply trace_length.
  - rewrite L1, L2. reflexivity.
  - rewrite A1, A2. reflexivity.
Qed.

End FrameRateBinary64.

Section FrameRateExamples.

Import QArith.
Local Open Scope Q_scope.

Lemma C5_frame_rate_independence_witness :
  let tick := HotTub.tick HotTub.pid 0 (mkGains 2500 0 0) in
  let s0 := (HotTub.initial, PidUtil.create) in
  let run :=
    FloatLoop.frames Q FloatLoop.binary64 _ tick HookClock.DT (inject_Z 600) in
  let s := FloatLoop.start Q FloatLoop.binary64 _ (inject_Z 1000) s0 in
  Binary64.mul HookClock.DT (inject_Z 1000) == inject_Z 100 /\
  (0 < 100)%Z /\
  inject_Z 600 == inject_Z 600 /\
  (100 + 50 * Z.abs 600 < 2 ^ 53)%Z /\
  (Z.abs 1000 + 50 < 2 ^ 53)%Z /\
  Forall (fun d => (0 <= d <= 50)%Z) [16; 16; 16]%Z /\
  (FloatLoop.total [16; 16; 16]%Z <= 50)%Z /\
  exists n : nat,
    forall fuel,
      (n < fuel)%nat ->
      exists many one : FloatLoop.LoopState Q (HotTub.State * PidUtil.State),
        run fuel s (map inject_Z (FloatLoop.stampsFrom 1000 [16; 16; 16]%Z))
        = Some many /\
        run fuel s
            (map inject_Z
                 (FloatLoop.stampsFrom 1000 [FloatLoop.total [16; 16; 16]%Z]))
        = Some one /\
        FloatLoop.sim many = Loop.iter tick n s0 /\
        FloatLoop.sim one = Loop.iter tick n s0 /\
        FloatLoop.stepped many = Loop.trace tick n s0 /\
        FloatLoop.stepped one = Loop.trace tick n s0 /\
        length (FloatLoop.stepped many) = n /\
        FloatLoop.lastTime many = FloatLoop.lastTime one /\
        FloatLoop.accumulator many == FloatLoop.accumulator one.
Proof.
  intros tick s0 run s.
  assert (H1 : Binary64.mul HookClock.DT (inject_Z 1000) == inject_Z 100)
    by (vm_compute; reflexivity).
  assert (H2 : (0 < 100)%Z) by reflexivity.
  assert (H3 : inject_Z 600 == inject_Z 600) by reflexivity.
  assert (H4 : (100 + 50 * Z.abs 600 < 2 ^ 53)%Z) by reflexivity.
  assert (H5 : (Z.abs 1000 + 50 < 2 ^ 53)%Z) by reflexivity.
  assert (H6 : Forall (fun d => (0 <= d <= 50)%Z) [16; 16; 16]%Z)
    by (repeat constructor; lia).
  assert (H7 : (FloatLoop.total [16; 16; 16]%Z <= 50)%Z)
    by (vm_compute; discriminate).
  repeat (split; [assumption|]).
  exact (C5_frame_rate_independence (HotTub.State * PidUtil.State) tick
           HookClock.DT (inject_Z 600) 100 600 1000 s0 [16; 16; 16]%Z
           H1 H2 H3 H4 H5 H6 H7).
Defined.

End FrameRateExamples.

Section FractionalStamps.

Import PrimFloat.

#[local] Set Warnings "-inexact-float".

(** C5, as stated, fails at fractional frame stamps.  With the hot tub's
    [DT = 0.1] and [TIME_SCALE = 600], from [lastTime = 0]: the frames at
    0.4 ms and 0.5 ms have the deltas 0.4 and 0.5 - 0.4, both at most 50,
    whose sum is, without rounding, the delta 0.5 of the single frame at
    0.5 ms.  The two frames run 2 physics steps and leave the clock at
    0.2; the single frame runs 3 and leaves it at 0.30000000000000004.
    (The first frame adds 240 and leaves 40 after two steps; the second
    delta is 0.09999999999999998, the double 0.4 being a little above
    4/10, and adds 59.999999999999986, so that the accumulator holds
    99.99999999999999 and no third step runs, where the single frame adds
    300.)  Primitive floats and [Binary64] give the same counts. *)
Lemma C5_rounding_counterexample :
  Kernel.geb Kernel.fifty (0.4 - 0)%float = true /\
  Kernel.geb Kernel.fifty (0.5 - 0.4)%float = true /\
  ((0.4 - 0) + (0.5 - 0.4) = 0.5 - 0)%float /\
  HookClock.onFloats 10 Kernel.zero Kernel.stamps = Some (2%nat, 0.2%float) /\
  HookClock.onFloats 10 Kernel.zero Kernel.single
  = Some (3%nat, 0.30000000000000004%float) /\
  option_map fst
    (HookClock.onBinary64 10 (QArith_base.inject_Z 0)
       [Binary64.round (QArith_base.Qmake 4 10); QArith_base.Qmake 1 2])
  = Some 2%nat /\
  option_map fst
    (HookClock.onBinary64 10 (QArith_base.inject_Z 0) [QArith_base.Qmake 1 2])
  = Some 3%nat.
Proof.
  vm_compute. repeat split; reflexivity.
Qed.

(** [Binary64] and the primitive floats agree on the samples, on the 3600
    operations of the grid, and on the two runs above: the same number of
    steps and the same final clock. *)
Lemma Binary64_agrees_with_floats :
  forallb Kernel.same Kernel.samples = true /\
  forallb Kernel.same Kernel.grid = true /\
  option_map (fun o => (fst o, Kernel.toQ (snd o)))
             (HookClock.onFloats 10 Kernel.zero Kernel.stamps)
  = option_map (fun o => (fst o, Some (Qreduction.Qred (snd o))))
               (HookClock.onBinary64 10 (QArith_base.inject_Z 0)
                  [Binary64.round (QArith_base.Qmake 4 10);
                   QArith_base.Qmake 1 2]) /\
  option_map (fun o => (fst o, Kernel.toQ (snd o)))
             (HookClock.onFloats 10 Kernel.zero Kernel.single)
  = option_map (fun o => (fst o, Some (Qreduction.Qred (snd o))))
               (HookClock.onBinary64 10 (QArith_base.inject_Z 0)
                  [QArith_base.Qmake 1 2]).
Proof.
  vm_compute. repeat split; reflexivity.
Qed.

(** At the whole stamps of the witness the primitive floats do what the
    theorem says of [Binary64]: three frames 16 ms apart and one frame
    after 48 ms both run 288 steps and leave the same clock. *)
Lemma whole_stamps_on_floats :
  HookClock.onFloats 400 Kernel.thousand Kernel.wholeStamps
  = HookClock.onFloats 400 Kernel.thousand Kernel.wholeSingle /\
  option_map fst (HookClock.onFloats 400 Kernel.thousand Kernel.wholeStamps)
  = Some 288%nat /\
  option_map fst
    (HookClock.onBinary64 400 (QArith_base.inject_Z 1000)
       (map QArith_base.inject_Z
            (FloatLoop.stampsFrom 1000 [16; 16; 16]%Z)))
  = Some 288%nat.
Proof.
  vm_compute. repeat split; reflexivity.
Qed.

End FractionalStamps.

(* ================================================================== *)
(** ** The remainder operator on non-negative times *)
(* ================================================================== *)

Lemma trunc_nonneg (q : R) : 0 <= q -> JS.trunc q = Int_part q.
Proof.
  intros H. unfold JS.trunc. destruct (Rle_dec 0 q); [reflexivity | contradiction].
Qed.

Lemma rem_range (x y : R) : 0 <= x -> 0 < y -> 0 <= JS.rem x y < y.
Proof.
  intros Hx Hy. unfold JS.rem.
  assert (Hq : 0 <= x / y) by (apply Rle_mult_inv_pos; assumption).
  rewrite (trunc_nonneg _ Hq).
  destruct (base_Int_part (x / y)) as [H1 H2].
  assert (E : x = x / y * y) by (field; lra).
  rewrite E at 1 3. nra.
Qed.

Lemma rem_small (x y : R) : 0 <= x < y -> JS.rem x y = x.
Proof.
  intros [Hx Hy]. unfold JS.rem.
  rewrite (trunc_unit (x / y)); [simpl; ring|].
  split.
  - apply Rle_mult_inv_pos; lra.
  - apply Rmult_lt_reg_r with y; [lra|].
    replace (x / y * y) with x by (field; lra). lra.
Qed.

Lemma rem_shift (x y : R) :
  0 <= x -> 0 < y -> JS.rem (x + y) y = JS.rem x y.
Proof.
  intros Hx Hy. unfold JS.rem.
  assert (Hq : 0 <= x / y) by (apply Rle_mult_inv_pos; assumption).
  assert (E : (x + y) / y = x / y + 1) by (field; lra).
  rewrite E. rewrite (trunc_nonneg (x / y + 1)) by lra.
  rewrite (trunc_nonneg _ Hq).
  destruct (base_Int_part (x / y)) as [H1 H2].
  assert (Z1 : (Int_part (x / y) + 1)%Z = Int_part (x / y + 1)).
  { apply Int_part_spec. rewrite plus_IZR. simpl. lra. }
  rewrite <- Z1, plus_IZR. simpl. ring.
Qed.

(* ================================================================== *)
(** ** The setpoint generators of the standalone drone *)
(* ================================================================== *)

(** X1.  The box setpoint of period [1/boxFrequency]: it is
    [50 + boxAmplitude] during the first half of the first period,
    [50 - boxAmplitude] during the second half, and repeats with that
    period at every non-negative time. *)
Theorem box_setpoint_wave (constant sineA sineF boxA boxF t : R) :
  0 < boxF -> 0 <= t ->
  let sp := DroneStandalone.calculateSetpoint
              (DroneStandalone.mkSetpointConfig
                 DroneStandalone.BOX constant sineA sineF boxA boxF) in
  let period := 1 / boxF in
  (t < period / 2 -> sp t = 50 + boxA) /\
  (period / 2 <= t < period -> sp t = 50 - boxA) /\
  sp (t + period) = sp t.
Proof.
  intros Hf Ht sp period.
  assert (Hp : 0 < period) by (unfold period; apply Rdiv_lt_0_compat; lra).
  unfold sp, DroneStandalone.calculateSetpoint; simpl. fold period.
  split; [|split].
  - intros Hlt. rewrite rem_small by lra.
    destruct (Rlt_dec (t / period) 0.5) as [L|N]; [reflexivity|].
    exfalso. apply N. apply Rmult_lt_reg_r with period; [lra|].
    replace (t / period * period) with t by (field; lra). lra.
  - intros [Hge Hlt]. rewrite rem_small by lra.
    destruct (Rlt_dec (t / period) 0.5) as [L|N]; [|lra].
    exfalso. apply (Rmult_lt_compat_r period) in L; [|lra].
    replace (t / period * period) with t in L by (field; lra). lra.
  - rewrite rem_shift by lra. reflexivity.
Qed.

Lemma box_setpoint_wave_witness :
  0 < 0.1 /\ 0 <= 3 /\
  DroneStandalone.calculateSetpoint
    (DroneStandalone.mkSetpointConfig DroneStandalone.BOX 50 20 0.1 20 0.1)
    (3 + 1 / 0.1) =
  DroneStandalone.calculateSetpoint
    (DroneStandalone.mkSetpointConfig DroneStandalone.BOX 50 20 0.1 20 0.1) 3.
Proof.
  assert (H1 : 0 < 0.1) by lra. assert (H2 : 0 <= 3) by lra.
  split; [exact H1|]. split; [exact H2|].
  exact (proj2 (proj2 (box_setpoint_wave 50 20 0.1 20 0.1 3 H1 H2))).
Defined.

(** X2.  The sinusoidal setpoint never leaves
    [[50 - |sineAmplitude|, 50 + |sineAmplitude|]], and for a non-zero
    frequency it repeats with the period [1/sineFrequency]. *)
Theorem sine_setpoint_wave (constant sineA sineF boxA boxF t : R) :
  let sp := DroneStandalone.calculateSetpoint
              (DroneStandalone.mkSetpointConfig
                 DroneStandalone.SINE constant sineA sineF boxA boxF) in
  Rabs (sp t - 50) <= Rabs sineA /\
  (sineF <> 0 -> sp (t + 1 / sineF) = sp t).
Proof.
  intros sp. unfold sp, DroneStandalone.calculateSetpoint; simpl. split.
  - replace (50 + sineA * sin (2 * PI * sineF * t) - 50)
      with (sineA * sin (2 * PI * sineF * t)) by ring.
    rewrite Rabs_mult.
    rewrite <- (Rmult_1_r (Rabs sineA)) at 2.
    apply Rmult_le_compat_l; [apply Rabs_pos|].
    apply Rabs_le. apply SIN_bound.
  - intros Hf.
    replace (2 * PI * sineF * (t + 1 / sineF))
      with (2 * PI * sineF * t + 2 * INR 1 * PI) by (simpl; field; exact Hf).
    rewrite sin_period. reflexivity.
Qed.

Lemma sine_setpoint_wave_witness :
  0.1 <> 0 /\
  DroneStandalone.calculateSetpoint
    (DroneStandalone.mkSetpointConfig DroneStandalone.SINE 50 20 0.1 20 0.1)
    (3 + 1 / 0.1) =
  DroneStandalone.calculateSetpoint
    (DroneStandalone.mkSetpointConfig DroneStandalone.SINE 50 20 0.1 20 0.1) 3.
Proof.
  assert (H : 0.1 <> 0) by lra. split; [exact H|].
  exact (proj2 (sine_setpoint_wave 50 20 0.1 20 0.1 3) H).
Defined.

(* ================================================================== *)
(** ** The disturbances of the standalone pendulum *)
(* ================================================================== *)

(** X3.  The nudge disturbance of frequency [f > 0]: during the first
    half-period it pushes with [+nudgeAmplitude] for the first 0.5 s and
    then rests; half a period later it does the opposite; and it repeats
    with the period [1/f].  Outside the nudge mode it is 0. *)
Theorem nudge_alternates (amp f tiltA tiltF t : R) :
  0 < f -> 0 <= t ->
  let nudge m := PendulumStandaloneControl.calculateNudgeForce
                   (PendulumStandaloneControl.mkDisturbance m amp f tiltA tiltF) in
  let period := 1 / f in
  (t < period / 2 ->
   nudge PendulumStandaloneControl.NUDGES t
     = (if Rlt_dec t 0.5 then amp else 0) /\
   nudge PendulumStandaloneControl.NUDGES (t + period / 2)
     = - nudge PendulumStandaloneControl.NUDGES t) /\
  nudge PendulumStandaloneControl.NUDGES (t + period)
    = nudge PendulumStandaloneControl.NUDGES t /\
  nudge PendulumStandaloneControl.OFF t = 0 /\
  nudge PendulumStandaloneControl.TILTS t = 0.
Proof.
  intros Hf Ht nudge period.
  assert (Hp : 0 < period) by (unfold period; apply Rdiv_lt_0_compat; lra).
  split; [|split; [|split; reflexivity]].
  - intros Hlt.
    assert (E1 : nudge PendulumStandaloneControl.NUDGES t
                 = if Rlt_dec t 0.5 then amp else 0).
    { unfold nudge, PendulumStandaloneControl.calculateNudgeForce; simpl.
      fold period. rewrite rem_small by lra.
      unfold PendulumStandaloneControl.NUDGE_IMPULSE_DURATION.
      destruct (Rlt_dec t (period / 2)) as [_|N]; [|contradiction].
      destruct (Rlt_dec t 0.5); lra. }
    split; [exact E1|]. rewrite E1.
    unfold nudge, PendulumStandaloneControl.calculateNudgeForce; simpl.
    fold period. rewrite rem_small by lra.
    unfold PendulumStandaloneControl.NUDGE_IMPULSE_DURATION.
    destruct (Rlt_dec (t + period / 2) (period / 2)) as [L|_]; [lra|].
    replace (t + period / 2 - period / 2) with t by ring.
    destruct (Rlt_dec t 0.5); lra.
  - unfold nudge, PendulumStandaloneControl.calculateNudgeForce; simpl.
    fold period. rewrite rem_shift by lra. reflexivity.
Qed.

Lemma nudge_alternates_witness :
  0 < 0.5 /\ 0 <= 0.25 /\ 0.25 < 1 / 0.5 / 2 /\
  PendulumStandaloneControl.calculateNudgeForce
    (PendulumStandaloneControl.mkDisturbance
       PendulumStandaloneControl.NUDGES 30 0.5 5 0.2) (0.25 + 1 / 0.5 / 2) =
  - PendulumStandaloneControl.calculateNudgeForce
      (PendulumStandaloneControl.mkDisturbance
         PendulumStandaloneControl.NUDGES 30 0.5 5 0.2) 0.25.
Proof.
  assert (H1 : 0 < 0.5) by lra. assert (H2 : 0 <= 0.25) by lra.
  assert (H3 : 0.25 < 1 / 0.5 / 2) by lra.
  split; [exact H1|]. split; [exact H2|]. split; [exact H3|].
  exact (proj2 (proj1 (nudge_alternates 30 0.5 5 0.2 0.25 H1 H2) H3)).
Defined.

(** X4.  The floor tilt is 0 outside the tilt mode and at time 0, and in
    the tilt mode its size never exceeds the amplitude converted to
    radians, [|tiltAmplitude| * PI / 180]. *)
Theorem tilt_bounded (mode : PendulumStandaloneControl.DisturbanceType)
    (amp f tiltA tiltF t : R) :
  let tilt := PendulumStandaloneControl.calculateTiltAngle
                (PendulumStandaloneControl.mkDisturbance
                   mode amp f tiltA tiltF) in
  Rabs (tilt t) <= Rabs tiltA * PI / 180 /\
  tilt 0 = 0 /\
  (mode <> PendulumStandaloneControl.TILTS -> tilt t = 0).
Proof.
  intros tilt. pose proof PI_RGT_0 as Hpi.
  unfold tilt, PendulumStandaloneControl.calculateTiltAngle; simpl.
  assert (Hb : 0 <= Rabs tiltA * PI / 180).
  { pose proof (Rabs_pos tiltA). nra. }
  destruct mode; simpl.
  - rewrite Rabs_R0. split; [exact Hb | split; [reflexivity | reflexivity]].
  - rewrite Rabs_R0. split; [exact Hb | split; [reflexivity | reflexivity]].
  - split; [|split].
    + rewrite Rabs_mult.
      replace (Rabs (tiltA * PI / 180)) with (Rabs tiltA * PI / 180).
      * rewrite <- (Rmult_1_r (Rabs tiltA * PI / 180)) at 2.
        apply Rmult_le_compat_l; [exact Hb|].
        apply Rabs_le. apply SIN_bound.
      * unfold Rdiv. rewrite !Rabs_mult.
        rewrite (Rabs_pos_eq PI) by lra.
        rewrite (Rabs_pos_eq (/ 180)) by lra. reflexivity.
    + rewrite Rmult_0_r, sin_0. ring.
    + intros C. contradiction C. reflexivity.
Qed.

Lemma tilt_bounded_witness :
  PendulumStandaloneControl.OFF <> PendulumStandaloneControl.TILTS /\
  PendulumStandaloneControl.calculateTiltAngle
    (PendulumStandaloneControl.mkDisturbance
       PendulumStandaloneControl.OFF 30 0.5 5 0.2) 7 = 0.
Proof.
  assert (H : PendulumStandaloneControl.OFF <> PendulumStandaloneControl.TILTS)
    by discriminate.
  split; [exact H|].
  exact (proj2 (proj2 (tilt_bounded PendulumStandaloneControl.OFF
                         30 0.5 5 0.2 7)) H).
Defined.

(* ================================================================== *)
(** ** More on the embedded controller *)
(* ================================================================== *)

Lemma sum_bounds (lo hi : R) (xs : list R) :
  Forall (fun x => lo <= x <= hi) xs ->
  INR (length xs) * lo <= JS.sum xs <= INR (length xs) * hi.
Proof.
  unfold JS.sum. induction 1 as [|x xs Hx _ IH].
  - simpl. lra.
  - cbn [fold_left length]. rewrite sum_fold_shift, S_INR. lra.
Qed.

Lemma mean_bounds (lo hi : R) (xs : list R) :
  xs <> [] -> Forall (fun x => lo <= x <= hi) xs ->
  lo <= Pid.mean xs <= hi.
Proof.
  intros Hne H. pose proof (sum_bounds lo hi xs H) as [L U].
  assert (Hn : 0 < INR (length xs)).
  { destruct xs; [contradiction Hne; reflexivity|].
    rewrite length_cons, S_INR. pose proof (pos_INR (length xs)). lra. }
  unfold Pid.mean. split.
  - apply Rmult_le_reg_r with (INR (length xs)); [exact Hn|].
    replace (JS.sum xs / INR (length xs) * INR (length xs)) with (JS.sum xs)
      by (field; lra). lra.
  - apply Rmult_le_reg_r with (INR (length xs)); [exact Hn|].
    replace (JS.sum xs / INR (length xs) * INR (length xs)) with (JS.sum xs)
      by (field; lra). lra.
Qed.

Lemma pushHistory_nonempty (cfg : Pid.Config) (h : list R) (raw : R) :
  (1 <= Pid.derivativeWindowSize cfg)%nat ->
  (length h <= Pid.derivativeWindowSize cfg)%nat ->
  Pid.pushHistory cfg h raw <> [].
Proof.
  intros HW Hl E.
  pose proof (pushHistory_length cfg h raw Hl) as L.
  rewrite E in L. simpl in L. lia.
Qed.

Lemma pushHistory_Forall (P : R -> Prop) (cfg : Pid.Config) (h : list R)
    (raw : R) :
  Forall P h -> P raw -> Forall P (Pid.pushHistory cfg h raw).
Proof.
  intros Hh Hr.
  assert (Hp : Forall P (h ++ [raw])).
  { apply Forall_app. split; [exact Hh | repeat constructor; exact Hr]. }
  unfold Pid.pushHistory, JS.push, JS.shift.
  destruct (_ <? _)%nat; [|exact Hp].
  destruct (h ++ [raw]); simpl; [constructor | inversion Hp; assumption].
Qed.

(** X5.  The window of the embedded controller never holds more than
    [derivativeWindowSize] samples, whatever the sequence of [compute],
    [reset] and [resetIntegral] calls on a fresh controller; and the
    [errorD] a call reports lies between any two bounds that enclose the
    samples already held and the new raw derivative: the moving average
    never exceeds the largest sample. *)
Theorem derivative_window_bounded (cfg : Pid.Config) (ops : list PidOp) :
  (1 <= Pid.derivativeWindowSize cfg)%nat ->
  let st := fold_left (applyPidOp cfg) ops Pid.create in
  (length (Pid.derivativeHistory st) <= Pid.derivativeWindowSize cfg)%nat /\
  (Pid.initialized st = false -> Pid.derivativeHistory st = []) /\
  forall error gains dt lo hi,
    Forall (fun x => lo <= x <= hi) (Pid.derivativeHistory st) ->
    lo <= Pid.rawDerivative st error dt <= hi ->
    lo <= Pid.errorD (fst (Pid.compute cfg st error gains dt)) <= hi.
Proof.
  intros HW st.
  assert (Inv : (length (Pid.derivativeHistory st)
                   <= Pid.derivativeWindowSize cfg)%nat /\
                (Pid.initialized st = false -> Pid.derivativeHistory st = [])).
  { unfold st. clear st.
    assert (G : forall s,
      ((length (Pid.derivativeHistory s)
          <= Pid.derivativeWindowSize cfg)%nat /\
       (Pid.initialized s = false -> Pid.derivativeHistory s = [])) ->
      (length (Pid.derivativeHistory (fold_left (applyPidOp cfg) ops s))
          <= Pid.derivativeWindowSize cfg)%nat /\
      (Pid.initialized (fold_left (applyPidOp cfg) ops s) = false ->
       Pid.derivativeHistory (fold_left (applyPidOp cfg) ops s) = [])).
    { induction ops as [|op ops IH]; intros s Hs; [exact Hs|].
      simpl. apply IH. destruct Hs as [Hl Hi].
      destruct op as [e g dt| |]; simpl.
      - split; [|discriminate].
        rewrite pushHistory_length by exact Hl. apply Nat.le_min_r.
      - split; [lia | reflexivity].
      - split; [exact Hl | exact Hi]. }
    apply G. simpl. split; [lia | reflexivity]. }
  destruct Inv as [Hl Hi]. split; [exact Hl|]. split; [exact Hi|].
  intros error gains dt lo hi Hh Hraw.
  unfold Pid.compute; simpl.
  apply mean_bounds.
  - apply pushHistory_nonempty; assumption.
  - apply pushHistory_Forall; assumption.
Qed.

Lemma derivative_window_bounded_witness :
  let ops := [PidCompute 1 (mkGains 1 1 1) 1; PidResetIntegral;
              PidCompute 3 (mkGains 1 1 1) 1] in
  (1 <= Pid.derivativeWindowSize Pid.defaults)%nat /\
  (length (Pid.derivativeHistory
             (fold_left (applyPidOp Pid.defaults) ops Pid.create))
     <= Pid.derivativeWindowSize Pid.defaults)%nat.
Proof.
  intros ops.
  assert (HW : (1 <= Pid.derivativeWindowSize Pid.defaults)%nat)
    by (simpl; lia).
  split; [exact HW|].
  exact (proj1 (derivative_window_bounded Pid.defaults ops HW)).
Defined.

Lemma window_one_step (cfg : PidUtil.Config) (st : Pid.State)
    (u : PidUtil.State) (error : R) (gains : Gains) (dt : R) :
  Pid.initialized st = true ->
  (length (Pid.derivativeHistory st) <= 1)%nat ->
  Pid.integral st = PidUtil.integral u ->
  Pid.prevError st = PidUtil.prevError u ->
  let rs := Pid.compute (windowOne cfg) st error gains dt in
  let r := PidUtil.compute cfg u error gains dt in
  Pid.output (fst rs) = fst r /\
  Pid.initialized (snd rs) = true /\
  (length (Pid.derivativeHistory (snd rs)) <= 1)%nat /\
  Pid.integral (snd rs) = PidUtil.integral (snd r) /\
  Pid.prevError (snd rs) = PidUtil.prevError (snd r).
Proof.
  intros Hi Hl HI HP rs r.
  assert (Hh : Pid.pushHistory (windowOne cfg) (Pid.derivativeHistory st)
                 (Pid.rawDerivative st error dt)
               = [Pid.rawDerivative st error dt]).
  { unfold Pid.pushHistory, JS.push, JS.shift; simpl.
    destruct (Pid.derivativeHistory st) as [|a [|b h]]; simpl in *;
      [reflexivity | reflexivity | lia]. }
  unfold rs, r, Pid.compute, PidUtil.compute, PidUtil.computePID; simpl.
  rewrite Hh. unfold Pid.mean, JS.sum, Pid.rawDerivative; simpl.
  rewrite Hi, HI, HP.
  repeat split; try reflexivity; try lia.
  unfold Rdiv. rewrite Rinv_1. ring.
Qed.

(** X6.  With a window of one sample the embedded controller, once it
    has been called, is the shared controller of utils/pidController.js:
    from states that agree on integral and previous error, the two give the
    same outputs on every sequence of calls.  On the very first call they
    differ by the derivative term [kd * error / dt], which only the shared
    controller applies. *)
Theorem window_one_is_shared_controller (cfg : PidUtil.Config) :
  (forall calls st u,
     Pid.initialized st = true ->
     (length (Pid.derivativeHistory st) <= 1)%nat ->
     Pid.integral st = PidUtil.integral u ->
     Pid.prevError st = PidUtil.prevError u ->
     map (fun rs => Pid.output (fst rs)) (Pid.run (windowOne cfg) st calls)
     = utilOutputs cfg u calls) /\
  (forall error gains dt,
     fst (PidUtil.compute cfg PidUtil.create error gains dt)
     - Pid.output (fst (Pid.compute (windowOne cfg) Pid.create
                                    error gains dt))
     = kd gains * (error / dt)).
Proof.
  split.
  - induction calls as [|[[error gains] dt] rest IH];
      intros st u Hi Hl HI HP; [reflexivity|].
    cbn [Pid.run utilOutputs map].
    destruct (window_one_step cfg st u error gains dt Hi Hl HI HP)
      as (Ho & Hi' & Hl' & HI' & HP').
    rewrite Ho. f_equal. apply IH; assumption.
  - intros error gains dt.
    unfold PidUtil.compute, PidUtil.computePID, Pid.compute,
      Pid.pushHistory, Pid.rawDerivative, Pid.mean, JS.sum; simpl.
    unfold Rdiv. ring.
Qed.

Lemma window_one_is_shared_controller_witness :
  let cfg := PidUtil.mkConfig (Some (-50)) (Some 50) in
  let g := mkGains 25 8 15 in
  let st := snd (Pid.compute (windowOne cfg) Pid.create 2 g 0.001) in
  let u := snd (PidUtil.compute cfg PidUtil.create 2 g 0.001) in
  Pid.initialized st = true /\
  (length (Pid.derivativeHistory st) <= 1)%nat /\
  map (fun rs => Pid.output (fst rs))
      (Pid.run (windowOne cfg) st [(3, g, 0.001); (1, g, 0.001)])
  = utilOutputs cfg u [(3, g, 0.001); (1, g, 0.001)].
Proof.
  intros cfg g st u.
  assert (H1 : Pid.initialized st = true) by reflexivity.
  assert (H2 : (length (Pid.derivativeHistory st) <= 1)%nat)
    by (simpl; lia).
  split; [exact H1|]. split; [exact H2|].
  exact (proj1 (window_one_is_shared_controller cfg)
           [(3, g, 0.001); (1, g, 0.001)] st u H1 H2 eq_refl eq_refl).
Defined.

Lemma integralAfter_unbounded (n : nat) :
  forall st error gains dt,
    integralAfter PidUtil.defaults n st error gains dt
    = PidUtil.integral st + INR n * (error * dt).
Proof.
  induction n as [|n IH]; intros st error gains dt.
  - simpl. ring.
  - cbn [integralAfter]. rewrite IH, S_INR.
    unfold PidUtil.compute, PidUtil.computePID; simpl. ring.
Qed.

Lemma integralAfter_saturates (lo hi : R) (n : nat) :
  lo <= hi ->
  forall st error gains dt,
    0 < error * dt ->
    let cfg := PidUtil.mkConfig (Some lo) (Some hi) in
    integralAfter cfg (S n) st error gains dt <= hi /\
    Rmin hi (PidUtil.integral st + INR (S n) * (error * dt))
      <= integralAfter cfg (S n) st error gains dt.
Proof.
  intros Hlh. induction n as [|n IH]; intros st error gains dt Hpos cfg.
  - cbn [integralAfter]. unfold PidUtil.compute, PidUtil.computePID; simpl.
    split.
    + apply Rmax_lub; [exact Hlh | apply Rmin_l].
    + rewrite Rmult_1_l. apply Rmax_r.
  - cbn [integralAfter].
    set (st1 := snd (PidUtil.compute cfg st error gains dt)).
    destruct (IH st1 error gains dt Hpos) as [U L]. fold cfg in U, L.
    split; [exact U|].
    eapply Rle_trans; [|exact L].
    assert (H1 : Rmin hi (PidUtil.integral st + error * dt)
                 <= PidUtil.integral st1).
    { unfold st1, cfg, PidUtil.compute, PidUtil.computePID; simpl.
      apply Rmax_r. }
    rewrite (S_INR (S n)).
    pose proof (pos_INR (S n)) as Hn.
    unfold Rmin in *.
    repeat match goal with
    | |- context [Rle_dec ?a ?b] => destruct (Rle_dec a b)
    | H : context [Rle_dec ?a ?b] |- _ => destruct (Rle_dec a b)
    end; nra.
Qed.

(** X7.  Integral wind-up in the shared controller.  With the default
    (infinite) bounds a constant error makes the integral grow by
    [error * dt] on every call, without limit; with finite ordered bounds
    and [error * dt > 0] the integral reaches [integralMax] as soon as the
    unclamped sum would, and equals it from then on. *)
Theorem integral_windup (st : PidUtil.State) (error : R) (gains : Gains)
    (dt : R) (n : nat) :
  integralAfter PidUtil.defaults n st error gains dt
    = PidUtil.integral st + INR n * (error * dt) /\
  forall lo hi m,
    lo <= hi -> 0 < error * dt -> (1 <= n)%nat -> (n <= m)%nat ->
    hi <= PidUtil.integral st + INR n * (error * dt) ->
    integralAfter (PidUtil.mkConfig (Some lo) (Some hi)) m st error gains dt
      = hi.
Proof.
  split; [apply integralAfter_unbounded|].
  intros lo hi m Hlh Hpos Hn Hm Hreach.
  destruct m as [|m]; [lia|].
  destruct (integralAfter_saturates lo hi m Hlh st error gains dt Hpos)
    as [U L].
  assert (Hge : hi <= PidUtil.integral st + INR (S m) * (error * dt)).
  { apply le_INR in Hm. nra. }
  rewrite Rmin_left in L by exact Hge. lra.
Qed.

Lemma integral_windup_witness :
  -50 <= 50 /\ 0 < 100 * 0.1 /\ (1 <= 5)%nat /\ (5 <= 7)%nat /\
  50 <= PidUtil.integral PidUtil.create + INR 5 * (100 * 0.1) /\
  integralAfter (PidUtil.mkConfig (Some (-50)) (Some 50)) 7
                PidUtil.create 100 (mkGains 25 8 15) 0.1 = 50.
Proof.
  assert (H1 : -50 <= 50) by lra.
  assert (H2 : 0 < 100 * 0.1) by lra.
  assert (H3 : (1 <= 5)%nat) by lia.
  assert (H4 : (5 <= 7)%nat) by lia.
  assert (H5 : 50 <= PidUtil.integral PidUtil.create + INR 5 * (100 * 0.1))
    by (simpl; lra).
  repeat (split; [assumption|]).
  exact (proj2 (integral_windup PidUtil.create 100 (mkGains 25 8 15) 0.1 5)
           (-50) 50 7%nat H1 H2 H3 H4 H5).
Defined.

(* ================================================================== *)
(** ** Invariants of the drones *)
(* ================================================================== *)

Lemma clamp_low (v lo hi : R) : lo <= hi -> v <= lo -> JS.clamp v lo hi = lo.
Proof.
  intros H Hv. destruct (clamp_cases v lo hi H) as [[_ E]|[[? E]|[? E]]];
    rewrite E; lra.
Qed.

Lemma clamp_high (v lo hi : R) : lo <= hi -> hi <= v -> JS.clamp v lo hi = hi.
Proof.
  intros H Hv. destruct (clamp_cases v lo hi H) as [[? E]|[[? E]|[_ E]]];
    rewrite E; lra.
Qed.

Lemma Drone_step_frame (st : Drone.State) (u : R) :
  Drone.mass (Drone.simulateStep u st) = Drone.mass st /\
  Drone.setpoint (Drone.simulateStep u st) = Drone.setpoint st.
Proof.
  unfold Drone.simulateStep.
  destruct (Drone.crashed st); [split; reflexivity|].
  destruct (orb _ _); split; reflexivity.
Qed.

Lemma Drone_step_safe (st : Drone.State) (u : R) :
  droneSafe st -> droneSafe (Drone.simulateStep u st).
Proof.
  intros Hs. pose proof Hs as (Ha & Hm & Ht & Htime & Hair & Hcr).
  destruct (Drone.crashed st) eqn:Hc.
  - unfold Drone.simulateStep. rewrite Hc. exact Hs.
  - assert (Hmass : 0 < Drone.mass st)
      by (unfold Drone.BASE_DRONE_MASS in Hm; lra).
    destruct (Drone_step_frame st u) as [Fm _].
    destruct (Drone_step st u Hc Hmass) as (Eth & _ & _ & Etime & Hok & Hbad).
    set (st' := Drone.simulateStep u st) in *.
    set (h1 := Drone.altitude st +
               (Drone.velocity st +
                ((Drone.BASE_DRONE_MASS * Drone.GRAVITY
                  + JS.clamp u Drone.MIN_THRUST Drone.MAX_THRUST)
                 - Drone.mass st * Drone.GRAVITY) / Drone.mass st
                * Drone.DT) * Drone.DT) in *.
    assert (Hth : Drone.MIN_THRUST <= Drone.thrust st' <= Drone.MAX_THRUST).
    { rewrite Eth. apply clamp_bounds.
      unfold Drone.MIN_THRUST, Drone.MAX_THRUST. lra. }
    assert (H100 : 0 <= Drone.MAX_ALTITUDE)
      by (unfold Drone.MAX_ALTITUDE; lra).
    assert (Htime' : 0 <= Drone.time st')
      by (rewrite Etime; unfold Drone.DT; lra).
    destruct (Rlt_dec 0 h1) as [P|P];
      [destruct (Rlt_dec h1 Drone.MAX_ALTITUDE) as [Q|Q]|].
    + destruct Hok as (Ev & Ea & Ec); [lra|].
      unfold droneSafe. rewrite Fm, Ea, Ec.
      repeat split; try lra; try discriminate.
    + destruct Hbad as (Ev & Ea & Ec); [right; lra|].
      unfold droneSafe. rewrite Fm, Ea, Ec, Ev.
      rewrite clamp_high by lra.
      repeat split; try lra; try discriminate.
    + destruct Hbad as (Ev & Ea & Ec); [left; lra|].
      unfold droneSafe. rewrite Fm, Ea, Ec, Ev.
      rewrite clamp_low by lra.
      repeat split; try lra; try discriminate.
Qed.

Lemma Drone_apply_safe (st : Drone.State) (ev : Drone.Event) :
  droneSafe st -> droneSafe (Drone.apply st ev).
Proof.
  intros Hs. destruct ev as [u|sp| |]; simpl.
  - apply Drone_step_safe. exact Hs.
  - unfold Drone.changeSetpoint.
    destruct (Drone.crashed st) eqn:Hc; [exact Hs|].
    destruct Hs as (Ha & Hm & Ht & Htime & Hair & Hcr).
    unfold droneSafe; simpl. repeat split; try tauto; try lra;
      try discriminate; apply Hair; reflexivity.
  - unfold Drone.addWeight.
    destruct (Drone.crashed st) eqn:Hc; [exact Hs|].
    destruct Hs as (Ha & Hm & Ht & Htime & Hair & Hcr).
    unfold droneSafe; simpl.
    unfold Drone.MASS_INCREMENT.
    repeat split; try tauto; try lra; try discriminate;
      apply Hair; reflexivity.
  - unfold Drone.resetSimulation, Drone.initial, droneSafe; simpl.
    unfold Drone.MAX_ALTITUDE, Drone.BASE_DRONE_MASS, Drone.MIN_THRUST,
      Drone.MAX_THRUST.
    repeat split; try lra; try discriminate.
Qed.

(** X8.  Whatever steps, setpoint changes, added weights and resets the
    drone component goes through from its initial state, the altitude
    stays in [[0, MAX_ALTITUDE]], the mass never falls below
    [BASE_DRONE_MASS], the recorded thrust stays in
    [[MIN_THRUST, MAX_THRUST]], a drone that has not crashed is strictly
    inside the altitude range, and a crashed one sits on the floor or the
    ceiling with zero velocity. *)
Theorem drone_invariants (evs : list Drone.Event) :
  droneSafe (fold_left Drone.apply evs Drone.initial).
Proof.
  assert (G : forall st, droneSafe st ->
                         droneSafe (fold_left Drone.apply evs st)).
  { induction evs as [|ev evs IH]; intros st Hs; [exact Hs|].
    simpl. apply IH. apply Drone_apply_safe. exact Hs. }
  apply G. unfold droneSafe, Drone.initial; simpl.
  unfold Drone.MAX_ALTITUDE, Drone.BASE_DRONE_MASS, Drone.MIN_THRUST,
    Drone.MAX_THRUST.
  repeat split; try lra; try discriminate.
Qed.

(** X9.  Hovering.  A drone of positive mass has zero acceleration
    exactly when the clamped control signal equals
    [(mass - BASE_DRONE_MASS) * GRAVITY] in the versions with a hover
    baseline, and exactly when it equals [mass * GRAVITY] in
    DroneAltitudeStandalone; with a zero control signal the first kind
    falls as soon as weight has been added and the second kind always
    falls. *)
Theorem hover_condition :
  (forall st u,
     0 < Drone.mass st ->
     (Drone.acceleration u st = 0 <->
      JS.clamp u Drone.MIN_THRUST Drone.MAX_THRUST
      = (Drone.mass st - Drone.BASE_DRONE_MASS) * Drone.GRAVITY) /\
     (Drone.BASE_DRONE_MASS < Drone.mass st ->
      Drone.acceleration 0 st < 0)) /\
  (forall st u,
     0 < DroneStandalone.mass st ->
     (DroneStandalone.acceleration u st = 0 <->
      JS.clamp u DroneStandalone.MIN_THRUST DroneStandalone.MAX_THRUST
      = DroneStandalone.mass st * DroneStandalone.GRAVITY) /\
     DroneStandalone.acceleration 0 st = - DroneStandalone.GRAVITY).
Proof.
  split.
  - intros st u Hm.
    assert (Ha : forall v, Drone.acceleration v st
                           = Drone.netForce v st / Drone.mass st).
    { intros v. unfold Drone.acceleration.
      destruct (Rlt_dec 0 (Drone.mass st)); [reflexivity | contradiction]. }
    assert (Hz : forall n, n / Drone.mass st = 0 <-> n = 0).
    { intros n. split; intros E.
      - apply (Rmult_eq_compat_r (Drone.mass st)) in E.
        replace (n / Drone.mass st * Drone.mass st) with n in E
          by (field; lra). lra.
      - rewrite E. unfold Rdiv. ring. }
    split.
    + rewrite Ha, Hz. unfold Drone.netForce, Drone.clampSignal, JS.clamp.
      split; intros E; lra.
    + intros Hw. rewrite Ha.
      unfold Drone.netForce, Drone.clampSignal.
      fold (JS.clamp 0 Drone.MIN_THRUST Drone.MAX_THRUST).
      rewrite clamp_id by (unfold Drone.MIN_THRUST, Drone.MAX_THRUST; lra).
      assert (N : Drone.BASE_DRONE_MASS * Drone.GRAVITY + 0
                  - Drone.mass st * Drone.GRAVITY < 0)
        by (unfold Drone.GRAVITY in *; nra).
      unfold Rdiv. pose proof (Rinv_0_lt_compat _ Hm). nra.
  - intros st u Hm.
    assert (Hz : forall n, n / DroneStandalone.mass st = 0 <-> n = 0).
    { intros n. split; intros E.
      - apply (Rmult_eq_compat_r (DroneStandalone.mass st)) in E.
        replace (n / DroneStandalone.mass st * DroneStandalone.mass st)
          with n in E by (field; lra). lra.
      - rewrite E. unfold Rdiv. ring. }
    split.
    + unfold DroneStandalone.acceleration. rewrite Hz.
      unfold DroneStandalone.netForce, DroneStandalone.clampSignal, JS.clamp.
      split; intros E; lra.
    + unfold DroneStandalone.acceleration, DroneStandalone.netForce,
        DroneStandalone.clampSignal.
      fold (JS.clamp 0 DroneStandalone.MIN_THRUST DroneStandalone.MAX_THRUST).
      rewrite clamp_id
        by (unfold DroneStandalone.MIN_THRUST, DroneStandalone.MAX_THRUST;
            lra).
      field. lra.
Qed.

Lemma hover_condition_witness :
  let st := Drone.mkState 50 0 3 50 0 0 false in
  0 < Drone.mass st /\ Drone.BASE_DRONE_MASS < Drone.mass st /\
  Drone.acceleration 0 st < 0.
Proof.
  intros st.
  assert (H1 : 0 < Drone.mass st) by (simpl; lra).
  assert (H2 : Drone.BASE_DRONE_MASS < Drone.mass st)
    by (simpl; unfold Drone.BASE_DRONE_MASS; lra).
  split; [exact H1|]. split; [exact H2|].
  exact (proj2 (proj1 hover_condition st 0 H1) H2).
Defined.

(** X10.  Proportional control alone cannot hold the standalone drone:
    with gains [{kp, 0, 0}] and the drone exactly on its setpoint, the
    loop iteration commands zero thrust whatever the controller's state,
    and the drone, if it stays inside the altitude range, leaves the
    iteration with its velocity lowered by [GRAVITY * DT]. *)
Theorem proportional_only_falls (cfg : DroneStandalone.SetpointConfig)
    (kp0 : R) (ctl : Pid.State) (st : DroneStandalone.State) :
  DroneStandalone.crashed st = false ->
  0 < DroneStandalone.mass st ->
  DroneStandalone.setpoint st = DroneStandalone.altitude st ->
  let out := DroneStandaloneControl.iteration cfg (mkGains kp0 0 0) (st, ctl) in
  let v1 := DroneStandalone.velocity st
            - DroneStandalone.GRAVITY * DroneStandalone.DT in
  let h1 := DroneStandalone.altitude st + v1 * DroneStandalone.DT in
  DroneStandalone.thrust (fst out) = 0 /\
  (0 < h1 < DroneStandalone.MAX_ALTITUDE ->
   DroneStandalone.velocity (fst out) = v1 /\
   DroneStandalone.altitude (fst out) = h1).
Proof.
  intros Hc Hm Hsp out v1 h1.
  assert (Eo : Pid.output
                 (fst (DroneStandaloneControl.computePIDThrust
                         (mkGains kp0 0 0) ctl st)) = 0).
  { unfold DroneStandaloneControl.computePIDThrust, Pid.compute; simpl.
    rewrite Hsp. ring. }
  assert (Eout : fst out = DroneStandalone.simulateStep cfg 0 st).
  { unfold out, DroneStandaloneControl.iteration.
    destruct (DroneStandaloneControl.computePIDThrust (mkGains kp0 0 0) ctl st)
      as [r c] eqn:E. simpl in Eo. simpl. rewrite Eo. reflexivity. }
  rewrite Eout.
  destruct (DroneStandalone_step cfg st 0 Hc Hm)
    as (Eth & _ & _ & _ & Hok & _).
  assert (Ec : JS.clamp 0 DroneStandalone.MIN_THRUST
                 DroneStandalone.MAX_THRUST = 0).
  { apply clamp_id.
    unfold DroneStandalone.MIN_THRUST, DroneStandalone.MAX_THRUST. lra. }
  rewrite Ec in Eth, Hok.
  assert (Ev : DroneStandalone.velocity st +
               (0 - DroneStandalone.mass st * DroneStandalone.GRAVITY)
               / DroneStandalone.mass st * DroneStandalone.DT = v1).
  { unfold v1. field. lra. }
  rewrite Ev in Hok. fold h1 in Hok.
  split; [exact Eth|]. intros Hh. destruct (Hok Hh) as (A & B & _).
  split; assumption.
Qed.

Lemma proportional_only_falls_witness :
  let cfg := DroneStandalone.mkSetpointConfig
               DroneStandalone.CONSTANT 50 20 0.1 20 0.1 in
  let st := DroneStandalone.mkState 50 0 10 50 0 0 false in
  DroneStandalone.crashed st = false /\ 0 < DroneStandalone.mass st /\
  DroneStandalone.setpoint st = DroneStandalone.altitude st /\
  DroneStandalone.thrust
    (fst (DroneStandaloneControl.iteration cfg (mkGains 50 0 0)
            (st, Pid.create))) = 0.
Proof.
  intros cfg st.
  assert (H2 : 0 < DroneStandalone.mass st) by (simpl; lra).
  split; [reflexivity|]. split; [exact H2|]. split; [reflexivity|].
  exact (proj1 (proportional_only_falls cfg 50 Pid.create st
                  eq_refl H2 eq_refl)).
Defined.

Lemma DroneSimulator_step_frame (st : DroneSimulator.State) (u : R) :
  let st' := DroneSimulator.simulateStep u st in
  DroneSimulator.mass st' = DroneSimulator.mass st /\
  DroneSimulator.setpoint st' = DroneSimulator.setpoint st /\
  DroneSimulator.integral st' = DroneSimulator.integral st /\
  DroneSimulator.prevError st' = DroneSimulator.prevError st /\
  DroneSimulator.massAdded st' = DroneSimulator.massAdded st.
Proof.
  unfold DroneSimulator.simulateStep.
  destruct (DroneSimulator.crashed st); [repeat split|].
  destruct (orb _ _); repeat split.
Qed.

Lemma DroneSimulator_step_safe (st : DroneSimulator.State) (u : R) :
  droneSimulatorSafe st ->
  droneSimulatorSafe (DroneSimulator.simulateStep u st).
Proof.
  intros Hs. pose proof Hs as (Ha & Hi & Hm & Hn & Hsp & Hcr).
  destruct (DroneSimulator.crashed st) eqn:Hc.
  - unfold DroneSimulator.simulateStep. rewrite Hc. exact Hs.
  - assert (Hmass : 0 < DroneSimulator.mass st).
    { rewrite Hm. unfold DroneSimulator.BASE_DRONE_MASS,
        DroneSimulator.MASS_INCREMENT. lra. }
    destruct (DroneSimulator_step_frame st u) as (Fm & Fs & Fi & _ & Fn).
    destruct (DroneSimulator_step st u Hc Hmass)
      as (_ & _ & _ & _ & Hok & Hbad).
    set (st' := DroneSimulator.simulateStep u st) in *.
    set (h1 := DroneSimulator.altitude st +
               (DroneSimulator.velocity st +
                ((DroneSimulator.BASE_DRONE_MASS * DroneSimulator.GRAVITY
                  + JS.clamp u DroneSimulator.MIN_THRUST
                             DroneSimulator.MAX_THRUST)
                 - DroneSimulator.mass st * DroneSimulator.GRAVITY)
                / DroneSimulator.mass st
                * DroneSimulator.DT) * DroneSimulator.DT) in *.
    assert (Hfc : DroneSimulator.CRASH_FLOOR <= DroneSimulator.CRASH_CEILING)
      by (unfold DroneSimulator.CRASH_FLOOR, DroneSimulator.CRASH_CEILING;
          lra).
    unfold droneSimulatorSafe. rewrite Fm, Fs, Fi, Fn.
    destruct (Rlt_dec DroneSimulator.CRASH_FLOOR h1) as [P|P];
      [destruct (Rlt_dec h1 DroneSimulator.CRASH_CEILING) as [Q|Q]|].
    + destruct Hok as (Ev & Ea & Ec); [lra|].
      rewrite Ea, Ec. repeat split; try lra; try discriminate; tauto.
    + destruct Hbad as (Ev & Ea & Ec); [right; lra|].
      rewrite Ea, Ev. rewrite clamp_high by lra.
      repeat split; try lra; tauto.
    + destruct Hbad as (Ev & Ea & Ec); [left; lra|].
      rewrite Ea, Ev. rewrite clamp_low by lra.
      repeat split; try lra; tauto.
Qed.

Lemma DroneSimulator_pid_safe (kp0 ki0 kd0 : R) (st : DroneSimulator.State) :
  droneSimulatorSafe st ->
  droneSimulatorSafe
    (snd (DroneSimulatorControl.computePIDThrust kp0 ki0 kd0 st)).
Proof.
  intros (Ha & Hi & Hm & Hn & Hsp & Hcr).
  unfold droneSimulatorSafe, DroneSimulatorControl.computePIDThrust; simpl.
  pose proof (clamp_bounds
                (DroneSimulator.integral st
                 + (DroneSimulator.setpoint st - DroneSimulator.altitude st)
                   * DroneSimulator.DT) (-50) 50 ltac:(lra)) as Hc.
  unfold JS.clamp in Hc.
  repeat split; try lra; tauto.
Qed.

Lemma DroneSimulator_apply_safe (st : DroneSimulator.State)
    (ev : DroneSimulatorControl.Event) :
  droneSimulatorEventOk ev ->
  droneSimulatorSafe st ->
  droneSimulatorSafe (DroneSimulatorControl.apply st ev).
Proof.
  intros Hev Hs. destruct ev as [mode ui kp0 ki0 kd0|random| |]; simpl.
  - unfold DroneSimulatorControl.iteration. destruct mode.
    + pose proof (DroneSimulator_pid_safe kp0 ki0 kd0 st Hs) as Hp.
      destruct (DroneSimulatorControl.computePIDThrust kp0 ki0 kd0 st)
        as [thrust st1]. simpl in Hp.
      apply DroneSimulator_step_safe. exact Hp.
    + apply DroneSimulator_step_safe. exact Hs.
  - simpl in Hev. unfold DroneSimulatorControl.changeSetpoint.
    destruct (DroneSimulator.crashed st) eqn:Hc; [exact Hs|].
    destruct Hs as (Ha & Hi & Hm & Hn & Hsp & Hcr).
    unfold droneSimulatorSafe; simpl.
    unfold DroneSimulatorControl.SETPOINT_MIN,
      DroneSimulatorControl.SETPOINT_MAX in *.
    repeat split; try lra; try discriminate.
  - unfold DroneSimulatorControl.addWeight.
    destruct (DroneSimulator.crashed st) eqn:Hc; [exact Hs|].
    destruct Hs as (Ha & Hi & Hm & Hn & Hsp & Hcr).
    unfold droneSimulatorSafe; simpl. rewrite Hm.
    repeat split; try lra; try discriminate.
  - unfold droneSimulatorSafe, DroneSimulatorControl.initial; simpl.
    unfold DroneSimulator.CRASH_FLOOR, DroneSimulator.CRASH_CEILING,
      DroneSimulatorControl.SETPOINT_MIN, DroneSimulatorControl.SETPOINT_MAX.
    repeat split; try lra; try discriminate.
Qed.

(** X11.  In drone_simulator.jsx, through any loop iterations (in either
    control mode), setpoint changes, added weights and resets from the
    initial state, the random numbers being in [[0, 1]]: the inline
    controller's integral stays in [[-50, 50]], the mass equals
    [BASE_DRONE_MASS + massAdded * MASS_INCREMENT], the setpoint stays in
    [[SETPOINT_MIN, SETPOINT_MAX]], the altitude stays between floor and
    ceiling and a crashed drone has zero velocity. *)
Theorem drone_simulator_invariants (evs : list DroneSimulatorControl.Event) :
  Forall droneSimulatorEventOk evs ->
  droneSimulatorSafe
    (fold_left DroneSimulatorControl.apply evs DroneSimulatorControl.initial).
Proof.
  assert (G : forall st, Forall droneSimulatorEventOk evs ->
                         droneSimulatorSafe st ->
                         droneSimulatorSafe
                           (fold_left DroneSimulatorControl.apply evs st)).
  { induction evs as [|ev evs IH]; intros st Hev Hs; [exact Hs|].
    apply Forall_cons_iff in Hev. destruct Hev as [H1 H2].
    simpl. apply IH; [exact H2|].
    apply DroneSimulator_apply_safe; assumption. }
  intros Hev. apply G; [exact Hev|].
  unfold droneSimulatorSafe, DroneSimulatorControl.initial; simpl.
  unfold DroneSimulator.CRASH_FLOOR, DroneSimulator.CRASH_CEILING,
    DroneSimulatorControl.SETPOINT_MIN, DroneSimulatorControl.SETPOINT_MAX.
  repeat split; try lra; try discriminate.
Qed.

Lemma drone_simulator_invariants_witness :
  let evs :=
    [DroneSimulatorControl.AddWeight;
     DroneSimulatorControl.Iterate DroneSimulatorControl.pid 0 25 8 15;
     DroneSimulatorControl.ChangeSetpoint 0.5;
     DroneSimulatorControl.Iterate DroneSimulatorControl.user 1 25 8 15] in
  Forall droneSimulatorEventOk evs /\
  droneSimulatorSafe
    (fold_left DroneSimulatorControl.apply evs DroneSimulatorControl.initial).
Proof.
  intros evs.
  assert (H : Forall droneSimulatorEventOk evs).
  { unfold evs. repeat constructor; simpl; lra. }
  split; [exact H|].
  exact (drone_simulator_invariants evs H).
Defined.

(* ================================================================== *)
(** ** More on the hot tub *)
(* ================================================================== *)

Lemma HotTub_step_safe (power : R) (st : HotTub.State) :
  hotTubSafe st -> hotTubSafe (HotTub.simulateStep power st).
Proof.
  intros (Ht & Hp & Hs & Ha & Htime).
  unfold hotTubSafe, HotTub.simulateStep; simpl.
  split; [apply (clamp_bounds _ 0 50); lra|].
  split.
  { apply (clamp_bounds power HotTub.MIN_HEATER_POWER HotTub.MAX_HEATER_POWER).
    unfold HotTub.MIN_HEATER_POWER, HotTub.MAX_HEATER_POWER. lra. }
  unfold HotTub.DT. repeat split; lra.
Qed.

Lemma HotTub_apply_safe (s : HotTub.State * PidUtil.State)
    (ev : HotTubEvents.Event) :
  hotTubEventOk ev -> hotTubSafe (fst s) ->
  hotTubSafe (fst (HotTubEvents.apply s ev)).
Proof.
  intros Hev Hs. destruct s as [st ctl]. simpl in Hs.
  destruct ev as [mode ui g|random|random|]; simpl.
  - destruct mode; simpl.
    + destruct (HotTub.computePIDPower g ctl st) as [power ctl']. simpl.
      apply HotTub_step_safe. exact Hs.
    + apply HotTub_step_safe. exact Hs.
  - simpl in Hev. destruct Hs as (Ht & Hp & Hsp & Ha & Htime).
    unfold hotTubSafe; simpl.
    unfold HotTubEvents.SETPOINT_MIN, HotTubEvents.SETPOINT_MAX in *.
    repeat split; lra.
  - simpl in Hev. destruct Hs as (Ht & Hp & Hsp & Ha & Htime).
    unfold hotTubSafe; simpl.
    unfold HotTubEvents.AMBIENT_MIN, HotTubEvents.AMBIENT_MAX in *.
    repeat split; lra.
  - unfold hotTubSafe, HotTub.initial; simpl.
    unfold HotTub.MIN_HEATER_POWER, HotTub.MAX_HEATER_POWER,
      HotTubEvents.SETPOINT_MIN, HotTubEvents.SETPOINT_MAX,
      HotTubEvents.AMBIENT_MIN, HotTubEvents.AMBIENT_MAX.
    repeat split; lra.
Qed.

(** X12.  Through any loop iterations (PID or manual, with any gains and
    any manual input), setpoint changes, ambient changes and resets from
    the initial state, the random numbers being in [[0, 1]]: the water
    temperature stays in [[0, 50]], the recorded heater power in
    [[0, MAX_HEATER_POWER]], the setpoint in [[30, 42]], the ambient in
    [[-10, 35]], and the clock is never negative. *)
Theorem hot_tub_invariants (evs : list HotTubEvents.Event) :
  Forall hotTubEventOk evs ->
  hotTubSafe
    (fst (fold_left HotTubEvents.apply evs (HotTub.initial, PidUtil.create))).
Proof.
  assert (G : forall s, Forall hotTubEventOk evs -> hotTubSafe (fst s) ->
                        hotTubSafe (fst (fold_left HotTubEvents.apply evs s))).
  { induction evs as [|ev evs IH]; intros s Hev Hs; [exact Hs|].
    apply Forall_cons_iff in Hev. destruct Hev as [H1 H2].
    simpl. apply IH; [exact H2|]. apply HotTub_apply_safe; assumption. }
  intros Hev. apply G; [exact Hev|].
  unfold hotTubSafe, HotTub.initial; simpl.
  unfold HotTub.MIN_HEATER_POWER, HotTub.MAX_HEATER_POWER,
    HotTubEvents.SETPOINT_MIN, HotTubEvents.SETPOINT_MAX,
    HotTubEvents.AMBIENT_MIN, HotTubEvents.AMBIENT_MAX.
  repeat split; lra.
Qed.

Lemma hot_tub_invariants_witness :
  let evs :=
    [HotTubEvents.ChangeAmbient 0;
     HotTubEvents.Iterate HotTub.pid 0 (mkGains 2500 0 0);
     HotTubEvents.ChangeSetpoint 1;
     HotTubEvents.Iterate HotTub.user 1 (mkGains 2500 0 0)] in
  Forall hotTubEventOk evs /\
  hotTubSafe
    (fst (fold_left HotTubEvents.apply evs (HotTub.initial, PidUtil.create))).
Proof.
  intros evs.
  assert (H : Forall hotTubEventOk evs).
  { unfold evs. repeat constructor; simpl; lra. }
  split; [exact H|].
  exact (hot_tub_invariants evs H).
Defined.

(** X13.  No overshoot.  Under a constant power within the heater bounds,
    a step never carries the temperature across the steady state nor away
    from it: from below, the temperature rises without passing it; from
    above, it falls without passing it. *)
Theorem hot_tub_no_overshoot (P : R) (st : HotTub.State) :
  0 <= P <= HotTub.MAX_HEATER_POWER ->
  let T := HotTub.temperature st in
  let T' := HotTub.temperature (HotTub.simulateStep P st) in
  let target := steadyState (HotTub.ambient st) P in
  (T <= target -> T <= T' <= target) /\
  (target <= T -> target <= T' <= T).
Proof.
  intros H T T' target.
  unfold T'. rewrite (HotTub_step_temperature P st H).
  unfold target, steadyState. fold T.
  unfold HotTub.MAX_HEATER_POWER in H.
  unfold HotTub.HEAT_LOSS_COEFFICIENT, HotTub.DT, HotTub.THERMAL_MASS,
    HotTub.WATER_MASS, HotTub.SPECIFIC_HEAT.
  set (A := HotTub.ambient st).
  assert (H050 : 0 <= 50) by lra.
  destruct (clamp_cases (T + (P - 500 * (T - A)) * 0.1 / (1500 * 4186))
              0 50 H050) as [[? ->]|[[? ->]|[? ->]]];
  destruct (clamp_cases (A + P / 500) 0 50 H050) as [[? ->]|[[? ->]|[? ->]]];
  split; intros; lra.
Qed.

Lemma hot_tub_no_overshoot_witness :
  0 <= 15000 <= HotTub.MAX_HEATER_POWER /\
  HotTub.temperature HotTub.initial
    <= steadyState (HotTub.ambient HotTub.initial) 15000 /\
  HotTub.temperature HotTub.initial
    <= HotTub.temperature (HotTub.simulateStep 15000 HotTub.initial)
    <= steadyState (HotTub.ambient HotTub.initial) 15000.
Proof.
  assert (H1 : 0 <= 15000 <= HotTub.MAX_HEATER_POWER)
    by (unfold HotTub.MAX_HEATER_POWER; lra).
  assert (H2 : HotTub.temperature HotTub.initial
               <= steadyState (HotTub.ambient HotTub.initial) 15000).
  { unfold steadyState, HotTub.HEAT_LOSS_COEFFICIENT; simpl.
    rewrite clamp_high; lra. }
  split; [exact H1|]. split; [exact H2|].
  exact (proj1 (hot_tub_no_overshoot 15000 HotTub.initial H1) H2).
Defined.

(** X14.  The heater cannot cool.  A commanded power below 0 acts as 0
    and one above [MAX_HEATER_POWER] acts as [MAX_HEATER_POWER]; and
    whatever the commanded power, water that is at or above the ambient
    temperature (and not above 50) is still at or above it after the
    step. *)
Theorem hot_tub_cannot_cool (power : R) (st : HotTub.State) :
  (power <= 0 -> HotTub.simulateStep power st = HotTub.simulateStep 0 st) /\
  (HotTub.MAX_HEATER_POWER <= power ->
   HotTub.simulateStep power st
   = HotTub.simulateStep HotTub.MAX_HEATER_POWER st) /\
  (HotTub.ambient st <= HotTub.temperature st <= 50 ->
   HotTub.ambient st
   <= HotTub.temperature (HotTub.simulateStep power st)).
Proof.
  assert (Hb : HotTub.MIN_HEATER_POWER <= HotTub.MAX_HEATER_POWER)
    by (unfold HotTub.MIN_HEATER_POWER, HotTub.MAX_HEATER_POWER; lra).
  split; [|split].
  - intros Hp. unfold HotTub.simulateStep.
    fold (JS.clamp power HotTub.MIN_HEATER_POWER HotTub.MAX_HEATER_POWER).
    fold (JS.clamp 0 HotTub.MIN_HEATER_POWER HotTub.MAX_HEATER_POWER).
    rewrite (clamp_low power)
      by (unfold HotTub.MIN_HEATER_POWER, HotTub.MAX_HEATER_POWER; lra).
    rewrite (clamp_low 0)
      by (unfold HotTub.MIN_HEATER_POWER, HotTub.MAX_HEATER_POWER; lra).
    reflexivity.
  - intros Hp. unfold HotTub.simulateStep.
    fold (JS.clamp power HotTub.MIN_HEATER_POWER HotTub.MAX_HEATER_POWER).
    fold (JS.clamp HotTub.MAX_HEATER_POWER HotTub.MIN_HEATER_POWER
                   HotTub.MAX_HEATER_POWER).
    rewrite (clamp_high power) by lra.
    rewrite (clamp_high HotTub.MAX_HEATER_POWER) by lra.
    reflexivity.
  - intros [HA HT]. unfold HotTub.simulateStep; simpl.
    pose proof (clamp_bounds power HotTub.MIN_HEATER_POWER
                  HotTub.MAX_HEATER_POWER Hb) as [Hp _].
    unfold JS.clamp, HotTub.MIN_HEATER_POWER in Hp.
    set (p := Rmax 0 (Rmin HotTub.MAX_HEATER_POWER power)) in *.
    unfold HotTub.MIN_HEATER_POWER. fold p.
    unfold HotTub.HEAT_LOSS_COEFFICIENT, HotTub.DT, HotTub.THERMAL_MASS,
      HotTub.WATER_MASS, HotTub.SPECIFIC_HEAT.
    eapply Rle_trans; [|apply Rmax_r].
    apply Rmin_glb; lra.
Qed.

Lemma hot_tub_cannot_cool_witness :
  HotTub.ambient HotTub.initial <= HotTub.temperature HotTub.initial <= 50 /\
  HotTub.ambient HotTub.initial
  <= HotTub.temperature (HotTub.simulateStep (-7000) HotTub.initial).
Proof.
  assert (H : HotTub.ambient HotTub.initial
              <= HotTub.temperature HotTub.initial <= 50) by (simpl; lra).
  split; [exact H|].
  exact (proj2 (proj2 (hot_tub_cannot_cool (-7000) HotTub.initial)) H).
Defined.

(* ================================================================== *)
(** ** More on the accumulator loop *)
(* ================================================================== *)

(** X15.  The stall cap.  Starting a frame with the accumulator in
    [[0, dt*1000)] and a non-negative time scale, however late the frame
    comes, the loop runs [k] physics steps with
    [k * dt*1000 <= accumulator + 50 * timeScale], ends with the
    accumulator back in [[0, dt*1000)], and a frame that comes 50 ms or
    more after the last one does exactly what a frame after 50 ms does. *)
Theorem stall_cap (Sim : Type) (tick : Sim -> Sim) (dt timeScale : R)
    (ls : Loop.LoopState Sim) (currentTime : R) :
  0 < dt -> 0 <= timeScale ->
  0 <= Loop.accumulator Sim ls < dt * 1000 ->
  Loop.lastTime Sim ls <= currentTime ->
  exists k : nat,
    dt * 1000 * INR k <= Loop.accumulator Sim ls + 50 * timeScale /\
    forall fuel,
      (k < fuel)%nat ->
      exists ls',
        Loop.loop Sim tick dt timeScale fuel ls currentTime = Some ls' /\
        Loop.lastTime Sim ls' = currentTime /\
        Loop.sim Sim ls' = Loop.iter tick k (Loop.sim Sim ls) /\
        Loop.stepped Sim ls' =
          Loop.stepped Sim ls ++ Loop.trace tick k (Loop.sim Sim ls) /\
        0 <= Loop.accumulator Sim ls' < dt * 1000 /\
        (50 <= currentTime - Loop.lastTime Sim ls ->
         Loop.loop Sim tick dt timeScale fuel ls (Loop.lastTime Sim ls + 50)
         = Some (Loop.mkLoopState Sim (Loop.lastTime Sim ls + 50)
                   (Loop.accumulator Sim ls') (Loop.sim Sim ls')
                   (Loop.stepped Sim ls'))).
Proof.
  intros Hdt Hts Hacc Hlate.
  pose proof (step_pos dt Hdt) as Hs.
  set (delta := Rmin (currentTime - Loop.lastTime Sim ls) 50).
  assert (Hd : 0 <= delta <= 50).
  { unfold delta. split; [apply Rmin_glb; lra | apply Rmin_r]. }
  set (a := Loop.accumulator Sim ls + delta * timeScale).
  assert (Ha : 0 <= a) by (unfold a; nra).
  destruct (whole_exists (dt * 1000) Hs a) as [k [Hk1 Hk2]].
  exists k. split.
  { destruct k as [|k]; [simpl; nra|].
    specialize (Hk2 ltac:(discriminate)). unfold a in Hk2. nra. }
  intros fuel Hf.
  assert (Hdrain : Loop.drain Sim tick dt fuel a (Loop.sim Sim ls)
                     (Loop.stepped Sim ls)
                   = Some (a - dt * 1000 * INR k,
                           Loop.iter tick k (Loop.sim Sim ls),
                           Loop.stepped Sim ls
                           ++ Loop.trace tick k (Loop.sim Sim ls))).
  { apply drain_whole; [exact Hdt | split; assumption | exact Hf]. }
  assert (Hrange : 0 <= a - dt * 1000 * INR k < dt * 1000).
  { split; [|lra]. destruct k as [|k]; [simpl; lra|].
    specialize (Hk2 ltac:(discriminate)). lra. }
  eexists. split; [|split; [|split; [|split; [|split]]]].
  - unfold Loop.loop. fold delta. fold a. rewrite Hdrain. reflexivity.
  - reflexivity.
  - reflexivity.
  - reflexivity.
  - exact Hrange.
  - intros H50. simpl.
    assert (E : delta = 50) by (unfold delta; apply Rmin_right; lra).
    unfold Loop.loop.
    replace (Loop.lastTime Sim ls + 50 - Loop.lastTime Sim ls) with 50
      by ring.
    rewrite (Rmin_left 50 50) by lra.
    unfold a in Hdrain. rewrite E in Hdrain. rewrite Hdrain. unfold a.
    rewrite E. reflexivity.
Qed.

Lemma stall_cap_witness :
  let tick := HotTub.tick HotTub.user 1 (mkGains 2500 0 0) in
  let ls := Loop.start (HotTub.State * PidUtil.State) 1000
                       (HotTub.initial, PidUtil.create) in
  0 < HotTub.DT /\ 0 <= HotTub.TIME_SCALE /\
  0 <= Loop.accumulator _ ls < HotTub.DT * 1000 /\
  Loop.lastTime _ ls <= 9000 /\
  exists k : nat,
    HotTub.DT * 1000 * INR k
      <= Loop.accumulator _ ls + 50 * HotTub.TIME_SCALE /\
    forall fuel,
      (k < fuel)%nat ->
      exists ls',
        Loop.loop _ tick HotTub.DT HotTub.TIME_SCALE fuel ls 9000 = Some ls' /\
        Loop.lastTime _ ls' = 9000 /\
        Loop.sim _ ls' = Loop.iter tick k (Loop.sim _ ls) /\
        Loop.stepped _ ls' =
          Loop.stepped _ ls ++ Loop.trace tick k (Loop.sim _ ls) /\
        0 <= Loop.accumulator _ ls' < HotTub.DT * 1000 /\
        (50 <= 9000 - Loop.lastTime _ ls ->
         Loop.loop _ tick HotTub.DT HotTub.TIME_SCALE fuel ls
                   (Loop.lastTime _ ls + 50)
         = Some (Loop.mkLoopState _ (Loop.lastTime _ ls + 50)
                   (Loop.accumulator _ ls') (Loop.sim _ ls')
                   (Loop.stepped _ ls'))).
Proof.
  intros tick ls.
  assert (H1 : 0 < HotTub.DT) by (unfold HotTub.DT; lra).
  assert (H2 : 0 <= HotTub.TIME_SCALE) by (unfold HotTub.TIME_SCALE; lra).
  assert (H3 : 0 <= Loop.accumulator _ ls < HotTub.DT * 1000)
    by (simpl; unfold HotTub.DT; lra).
  assert (H4 : Loop.lastTime _ ls <= 9000) by (simpl; lra).
  split; [exact H1|]. split; [exact H2|]. split; [exact H3|].
  split; [exact H4|].
  exact (stall_cap _ tick HotTub.DT HotTub.TIME_SCALE ls 9000 H1 H2 H3 H4).
Defined.

Lemma HotTub_tick_time (mode : HotTub.ControlMode) (userInput : R)
    (gains : Gains) (n : nat) :
  forall s,
    HotTub.time (fst (Loop.iter (HotTub.tick mode userInput gains) n s))
    = HotTub.time (fst s) + INR n * HotTub.DT.
Proof.
  induction n as [|n IH]; intros s.
  - simpl. ring.
  - cbn [Loop.iter]. rewrite IH, S_INR.
    assert (E : HotTub.time (fst (HotTub.tick mode userInput gains s))
                = HotTub.time (fst s) + HotTub.DT).
    { destruct s as [st ctl]. unfold HotTub.tick. destruct mode.
      - destruct (HotTub.computePIDPower gains ctl st). reflexivity.
      - reflexivity. }
    rewrite E. ring.
Qed.

(** X16.  The hot tub's clock follows the wall clock.  After frames whose
    deltas lie in [[0, 50]] ms, run from a fresh loop with fuel for the
    steps, the simulated time has advanced by a whole number of [DT]s and
    lags the scaled wall time, [TIME_SCALE * elapsed / 1000] seconds, by
    less than one [DT]. *)
Theorem hot_tub_clock (mode : HotTub.ControlMode) (userInput : R)
    (gains : Gains) (now : R) (s0 : HotTub.State * PidUtil.State)
    (deltas : list R) :
  Forall (fun d => 0 <= d <= 50) deltas ->
  exists (n : nat) (final : Loop.LoopState (HotTub.State * PidUtil.State)),
    (forall fuel,
       (n < fuel)%nat ->
       HotTubLoop.frames mode userInput gains fuel
         (Loop.start _ now s0) (Loop.stampsFrom now deltas) = Some final) /\
    let simulated :=
      HotTub.time (fst (Loop.sim _ final)) - HotTub.time (fst s0) in
    let scaled := HotTub.TIME_SCALE * Loop.total deltas / 1000 in
    simulated = INR n * HotTub.DT /\
    0 <= scaled - simulated < HotTub.DT.
Proof.
  intros Hd.
  assert (Hdt : 0 < HotTub.DT) by (unfold HotTub.DT; lra).
  assert (Hts : 0 <= HotTub.TIME_SCALE) by (unfold HotTub.TIME_SCALE; lra).
  pose proof (step_pos HotTub.DT Hdt) as Hs.
  pose proof (total_nonneg deltas Hd) as Hnn.
  destruct (whole_exists (HotTub.DT * 1000) Hs
              (Loop.total deltas * HotTub.TIME_SCALE)) as [n Hn].
  exists n,
    (Loop.mkLoopState _ (now + Loop.total deltas)
       (0 + HotTub.DT * 1000 * INR 0
        + Loop.total deltas * HotTub.TIME_SCALE - HotTub.DT * 1000 * INR n)
       (Loop.iter (HotTub.tick mode userInput gains) n s0)
       (Loop.trace (HotTub.tick mode userInput gains) n s0)).
  split.
  - intros fuel Hf. unfold HotTubLoop.frames, Loop.start.
    apply (frames_whole _ (HotTub.tick mode userInput gains)
             HotTub.DT HotTub.TIME_SCALE Hdt s0 n fuel Hts Hf
             deltas now 0 0%nat Hd).
    + lra.
    + simpl. replace (0 + HotTub.DT * 1000 * 0
                      + Loop.total deltas * HotTub.TIME_SCALE)
        with (Loop.total deltas * HotTub.TIME_SCALE) by ring.
      exact Hn.
  - cbn [Loop.sim]. rewrite HotTub_tick_time.
    destruct Hn as [Hn1 Hn2].
    unfold HotTub.DT, HotTub.TIME_SCALE in *.
    split; [ring|].
    destruct n as [|n].
    + simpl in *. lra.
    + specialize (Hn2 ltac:(discriminate)). lra.
Qed.

Lemma hot_tub_clock_witness :
  Forall (fun d => 0 <= d <= 50) [16; 17; 16] /\
  exists (n : nat) (final : Loop.LoopState (HotTub.State * PidUtil.State)),
    (forall fuel,
       (n < fuel)%nat ->
       HotTubLoop.frames HotTub.pid 0 (mkGains 2500 0 0) fuel
         (Loop.start _ 0 (HotTub.initial, PidUtil.create))
         (Loop.stampsFrom 0 [16; 17; 16]) = Some final) /\
    let simulated :=
      HotTub.time (fst (Loop.sim _ final))
      - HotTub.time (fst (HotTub.initial, PidUtil.create)) in
    let scaled := HotTub.TIME_SCALE * Loop.total [16; 17; 16] / 1000 in
    simulated = INR n * HotTub.DT /\
    0 <= scaled - simulated < HotTub.DT.
Proof.
  assert (H : Forall (fun d => 0 <= d <= 50) [16; 17; 16])
    by (repeat constructor; lra).
  split; [exact H|].
  exact (hot_tub_clock HotTub.pid 0 (mkGains 2500 0 0) 0
           (HotTub.initial, PidUtil.create) [16; 17; 16] H).
Defined.

(* ================================================================== *)
(** ** More on the pendulums *)
(* ================================================================== *)

Lemma wrapDown_turns (n : nat) :
  forall theta, exists j : nat, JS.wrapDown n theta = theta - 2 * PI * INR j.
Proof.
  induction n as [|n IH]; intros theta.
  - exists 0%nat. simpl. ring.
  - simpl. destruct (Rgt_dec theta PI).
    + destruct (IH (theta - 2 * PI)) as [j Hj].
      exists (S j). rewrite Hj, S_INR. ring.
    + exists 0%nat. simpl. ring.
Qed.

Lemma wrapUp_turns (n : nat) :
  forall theta, exists j : nat, JS.wrapUp n theta = theta + 2 * PI * INR j.
Proof.
  induction n as [|n IH]; intros theta.
  - exists 0%nat. simpl. ring.
  - simpl. destruct (Rlt_dec theta (- PI)).
    + destruct (IH (theta + 2 * PI)) as [j Hj].
      exists (S j). rewrite Hj, S_INR. ring.
    + exists 0%nat. simpl. ring.
Qed.

(** X17.  The two normalisation loops of the pendulum step bring any
    angle into [[-PI, PI]] by adding a whole number of turns, and leave an
    angle already in that range alone; normalising twice is normalising
    once. *)
Theorem normalize_angle (theta : R) :
  - PI <= JS.normalizeAngle theta <= PI /\
  (exists k : Z, JS.normalizeAngle theta = theta + 2 * PI * IZR k) /\
  (- PI <= theta <= PI -> JS.normalizeAngle theta = theta) /\
  JS.normalizeAngle (JS.normalizeAngle theta) = JS.normalizeAngle theta.
Proof.
  pose proof (normalizeAngle_range theta) as Hr.
  split; [exact Hr|]. split; [|split].
  - unfold JS.normalizeAngle.
    destruct (wrapDown_turns (JS.turns theta) theta) as [j Hj].
    destruct (wrapUp_turns (JS.turns theta)
                (JS.wrapDown (JS.turns theta) theta)) as [j' Hj'].
    exists (Z.of_nat j' - Z.of_nat j)%Z.
    rewrite Hj', Hj, minus_IZR, <- !INR_IZR_INZ. ring.
  - apply normalizeAngle_id.
  - apply normalizeAngle_id. exact Hr.
Qed.

Lemma normalize_angle_witness :
  - PI <= 1 <= PI /\ JS.normalizeAngle 1 = 1.
Proof.
  pose proof PI2_3_2 as Hpi.
  assert (H : - PI <= 1 <= PI) by lra.
  split; [exact H|].
  exact (proj1 (proj2 (proj2 (normalize_angle 1))) H).
Defined.

Lemma sign_times_limit (x limit : R) :
  0 <= limit -> Rabs x > limit -> Rabs (JS.sign x * limit) = limit.
Proof.
  intros Hl Hx. unfold JS.sign.
  destruct (Rlt_dec 0 x) as [P|P].
  - rewrite Rmult_1_l. apply Rabs_pos_eq. exact Hl.
  - destruct (Rlt_dec x 0) as [N|N].
    + replace (-1 * limit) with (- limit) by ring.
      rewrite Rabs_Ropp. apply Rabs_pos_eq. exact Hl.
    + assert (x = 0) by lra. subst x. rewrite Rabs_R0 in Hx. lra.
Qed.

Lemma Pendulum_step_safe (force random : R) (st : Pendulum.State) :
  pendulumSafe st -> pendulumSafe (Pendulum.simulateStep force random st).
Proof.
  intros Hs. unfold Pendulum.simulateStep.
  destruct (Pendulum.fallen st); [exact Hs|].
  destruct Hs as (Hx & Hi & Ht & Htime).
  set (post := Pendulum.integrate force random st).
  assert (Hth : - PI <= Pendulum.theta post <= PI)
    by apply normalizeAngle_range.
  assert (Hint : Pendulum.integral post = Pendulum.integral st)
    by reflexivity.
  assert (Htm : Pendulum.time post = Pendulum.time st + Pendulum.DT)
    by reflexivity.
  clearbody post.
  assert (Hlim : 0 <= Pendulum.TRACK_WIDTH / 2 - 0.2)
    by (unfold Pendulum.TRACK_WIDTH; lra).
  unfold Pendulum.checks, pendulumSafe.
  destruct (Rgt_dec (Rabs (Pendulum.x post)) (Pendulum.TRACK_WIDTH / 2 - 0.2))
    as [G|G]; simpl; rewrite ?Hint, ?Htm; unfold Pendulum.DT.
  - rewrite sign_times_limit by assumption. repeat split; lra.
  - repeat split; lra.
Qed.

Lemma Pendulum_pid_safe (kp0 ki0 kd0 : R) (st : Pendulum.State) :
  pendulumSafe st ->
  pendulumSafe (snd (PendulumControl.computePIDForce kp0 ki0 kd0 st)).
Proof.
  intros (Hx & Hi & Ht & Htime).
  unfold pendulumSafe, PendulumControl.computePIDForce; simpl.
  pose proof (clamp_bounds
                (Pendulum.integral st + Pendulum.theta st * Pendulum.DT)
                (-10) 10 ltac:(lra)) as Hc.
  unfold JS.clamp in Hc. repeat split; lra.
Qed.

Lemma Pendulum_iteration_safe (i : PendulumControl.Inputs)
    (st : Pendulum.State) :
  pendulumSafe st -> pendulumSafe (PendulumControl.iteration i st).
Proof.
  intros Hs. unfold PendulumControl.iteration, PendulumControl.commandedForce.
  destruct (PendulumControl.controlMode i).
  - pose proof (Pendulum_pid_safe (PendulumControl.kp i)
                  (PendulumControl.ki i) (PendulumControl.kd i) st Hs) as Hp.
    destruct (PendulumControl.computePIDForce _ _ _ st) as [f st1].
    apply Pendulum_step_safe. exact Hp.
  - apply Pendulum_step_safe. exact Hs.
Qed.

(** X18.  In the pendulum of hooks/usePhysicsSimulation.js, through any
    loop iterations (PID or manual, any gains, any nudge) and resets, the
    random number of a reset being in [[0, 1]]: the cart never ends an
    iteration beyond the track limit [TRACK_WIDTH/2 - 0.2], the inline
    controller's integral stays in [[-10, 10]] and the angle stays in
    [[-PI, PI]]. *)
Theorem pendulum_invariants (evs : list PendulumControl.Event) :
  Forall pendulumEventOk evs ->
  pendulumSafe (fold_left PendulumControl.apply evs PendulumControl.initial).
Proof.
  pose proof PI2_3_2 as Hpi.
  assert (G : forall st, Forall pendulumEventOk evs -> pendulumSafe st ->
                         pendulumSafe (fold_left PendulumControl.apply evs st)).
  { induction evs as [|ev evs IH]; intros st Hev Hs; [exact Hs|].
    apply Forall_cons_iff in Hev. destruct Hev as [H1 H2].
    simpl. apply IH; [exact H2|].
    destruct ev as [i|random]; simpl.
    - apply Pendulum_iteration_safe. exact Hs.
    - simpl in H1. unfold pendulumSafe, Pendulum.resetSimulation; simpl.
      unfold Pendulum.TRACK_WIDTH. rewrite Rabs_R0.
      repeat split; lra. }
  intros Hev. apply G; [exact Hev|].
  unfold pendulumSafe, PendulumControl.initial; simpl.
  unfold Pendulum.TRACK_WIDTH. rewrite Rabs_R0. repeat split; lra.
Qed.

Lemma pendulum_invariants_witness :
  let evs :=
    [PendulumControl.Iterate
       (PendulumControl.mkInputs PendulumControl.pid 0 50 150 20 40 0.5);
     PendulumControl.Reset 0.25;
     PendulumControl.Iterate
       (PendulumControl.mkInputs PendulumControl.user 1 0 150 20 40 1)] in
  Forall pendulumEventOk evs /\
  pendulumSafe (fold_left PendulumControl.apply evs PendulumControl.initial).
Proof.
  intros evs.
  assert (H : Forall pendulumEventOk evs).
  { unfold evs. repeat constructor; simpl; lra. }
  split; [exact H|].
  exact (pendulum_invariants evs H).
Defined.

(** X19.  A fallen pendulum is frozen only as far as the physics goes.  An
    iteration of the loop of hooks/usePhysicsSimulation.js on a fallen
    pendulum leaves angle, angular velocity, position, velocity, time and
    the flag as they are; in manual mode the whole state is unchanged, but
    in PID mode the inline controller still runs and moves [integral] to
    [clamp(integral + theta*DT, -10, 10)] and [prevError] to [theta]. *)
Theorem fallen_pendulum_iteration (i : PendulumControl.Inputs)
    (st : Pendulum.State) :
  Pendulum.fallen st = true ->
  let st' := PendulumControl.iteration i st in
  Pendulum.theta st' = Pendulum.theta st /\
  Pendulum.thetaDot st' = Pendulum.thetaDot st /\
  Pendulum.x st' = Pendulum.x st /\
  Pendulum.xDot st' = Pendulum.xDot st /\
  Pendulum.time st' = Pendulum.time st /\
  Pendulum.fallen st' = true /\
  (PendulumControl.controlMode i = PendulumControl.user -> st' = st) /\
  (PendulumControl.controlMode i = PendulumControl.pid ->
   Pendulum.integral st' =
     JS.clamp (Pendulum.integral st + Pendulum.theta st * Pendulum.DT)
              (-10) 10 /\
   Pendulum.prevError st' = Pendulum.theta st).
Proof.
  intros Hf st'. unfold st', PendulumControl.iteration,
    PendulumControl.commandedForce.
  destruct (PendulumControl.controlMode i); simpl.
  - unfold Pendulum.simulateStep; simpl. rewrite Hf. simpl.
    repeat split; try reflexivity; try assumption. discriminate.
  - unfold Pendulum.simulateStep. rewrite Hf.
    repeat split; try reflexivity; try assumption; discriminate.
Qed.

Lemma fallen_pendulum_iteration_witness :
  let st := Pendulum.mkState 2 0 1 0 3 0 5 true in
  let i := PendulumControl.mkInputs PendulumControl.pid 0 0 150 20 40 0.5 in
  Pendulum.fallen st = true /\
  Pendulum.integral (PendulumControl.iteration i st)
    = JS.clamp (3 + 2 * Pendulum.DT) (-10) 10.
Proof.
  intros st i. split; [reflexivity|].
  destruct (fallen_pendulum_iteration i st eq_refl)
    as (_ & _ & _ & _ & _ & _ & _ & Hpid).
  exact (proj1 (Hpid eq_refl)).
Defined.

Lemma nudge_size (d : PendulumStandaloneControl.Disturbance) (t : R) :
  Rabs (PendulumStandaloneControl.calculateNudgeForce d t)
  <= Rabs (PendulumStandaloneControl.nudgeAmplitude d).
Proof.
  unfold PendulumStandaloneControl.calculateNudgeForce.
  pose proof (Rabs_pos (PendulumStandaloneControl.nudgeAmplitude d)) as Hp.
  destruct (PendulumStandaloneControl.disturbanceType d);
    try (rewrite Rabs_R0; exact Hp).
  destruct (Rlt_dec _ _); [|rewrite Rabs_R0; exact Hp].
  destruct (Rlt_dec _ _).
  - rewrite Rmult_1_r. lra.
  - replace (PendulumStandaloneControl.nudgeAmplitude d * -1)
      with (- PendulumStandaloneControl.nudgeAmplitude d) by ring.
    rewrite Rabs_Ropp. lra.
Qed.

(** X20.  The force limits of the pendulum controllers.  The standalone
    simulator's [totalForce] and the inline controller's force always lie
    in [[-50, 50]], whatever the gains, the state and the controller's
    history; the force that reaches the standalone plant exceeds that range
    by at most the nudge amplitude; and in the manual mode of the inline
    version an input in [[-1, 1]] commands at most 30 N before the nudge is
    added. *)
Theorem pendulum_force_limits :
  (forall gains ctl st,
     -50 <= PendulumStandaloneControl.totalForce
              (fst (PendulumStandaloneControl.computePIDForce gains ctl st))
         <= 50) /\
  (forall gains d ctl st,
     let force :=
       PendulumStandaloneControl.totalForce
         (fst (PendulumStandaloneControl.computePIDForce gains ctl st))
       + PendulumStandaloneControl.calculateNudgeForce
           d (PendulumStandalone.time st) in
     Rabs force <= 50 + Rabs (PendulumStandaloneControl.nudgeAmplitude d)) /\
  (forall kp0 ki0 kd0 st,
     -50 <= fst (PendulumControl.computePIDForce kp0 ki0 kd0 st) <= 50) /\
  (forall i st,
     PendulumControl.controlMode i = PendulumControl.user ->
     -1 <= PendulumControl.userInput i <= 1 ->
     -30 <= fst (PendulumControl.commandedForce i st)
            - PendulumControl.nudgeForce i <= 30).
Proof.
  assert (H50 : -50 <= 50) by lra.
  assert (A : forall gains ctl st,
     -50 <= PendulumStandaloneControl.totalForce
              (fst (PendulumStandaloneControl.computePIDForce gains ctl st))
         <= 50).
  { intros gains ctl st.
    unfold PendulumStandaloneControl.computePIDForce.
    destruct (Pid.compute _ _ _ _ _) as [r c]. simpl.
    apply (clamp_bounds _ (-50) 50 H50). }
  split; [exact A|]. split; [|split].
  - intros gains d ctl st force. unfold force.
    pose proof (A gains ctl st) as Ht.
    pose proof (nudge_size d (PendulumStandalone.time st)) as Hn.
    eapply Rle_trans; [apply Rabs_triang|].
    apply Rplus_le_compat; [|exact Hn].
    apply Rabs_le. lra.
  - intros kp0 ki0 kd0 st. unfold PendulumControl.computePIDForce; simpl.
    apply (clamp_bounds _ (-50) 50 H50).
  - intros i st Hm Hu. unfold PendulumControl.commandedForce.
    rewrite Hm. simpl. lra.
Qed.

Lemma pendulum_force_limits_witness :
  let i := PendulumControl.mkInputs PendulumControl.user 1 50 150 20 40 0.5 in
  PendulumControl.controlMode i = PendulumControl.user /\
  -1 <= PendulumControl.userInput i <= 1 /\
  -30 <= fst (PendulumControl.commandedForce i PendulumControl.initial)
         - PendulumControl.nudgeForce i <= 30.
Proof.
  intros i.
  assert (H : -1 <= PendulumControl.userInput i <= 1) by (simpl; lra).
  split; [reflexivity|]. split; [exact H|].
  exact (proj2 (proj2 (proj2 pendulum_force_limits))
           i PendulumControl.initial eq_refl H).
Defined.

(** X21.  The standalone pendulum after a failure.  Once [localFallen] is
    set, every further iteration of the [while] loop leaves the plant as it
    is and the flag set, but still calls the controller: with the default
    (unbounded) configuration its integral grows by [theta * DT] per
    iteration, so after the iterations of [randoms] it has moved by
    [length randoms * theta * DT]. *)
Theorem standalone_fallen_iterations (gains : Gains)
    (d : PendulumStandaloneControl.Disturbance) (randoms : list R)
    (v : PendulumStandaloneControl.LoopVars) :
  PendulumStandaloneControl.localFallen v = true ->
  let v' :=
    fold_left (fun w random =>
                 PendulumStandaloneControl.iteration gains d random w)
              randoms v in
  PendulumStandaloneControl.plant v' = PendulumStandaloneControl.plant v /\
  PendulumStandaloneControl.localFallen v' = true /\
  Pid.integral (PendulumStandaloneControl.controller v')
  = Pid.integral (PendulumStandaloneControl.controller v)
    + INR (length randoms)
      * (PendulumStandalone.theta (PendulumStandaloneControl.plant v)
         * PendulumStandalone.DT).
Proof.
  revert v. induction randoms as [|r rs IH]; intros v Hf; cbn zeta.
  - cbn [fold_left length INR]. repeat split; [assumption | ring].
  - cbn [fold_left].
    assert (Hstep :
      PendulumStandaloneControl.plant
        (PendulumStandaloneControl.iteration gains d r v)
      = PendulumStandaloneControl.plant v /\
      PendulumStandaloneControl.localFallen
        (PendulumStandaloneControl.iteration gains d r v) = true /\
      Pid.integral (PendulumStandaloneControl.controller
        (PendulumStandaloneControl.iteration gains d r v))
      = Pid.integral (PendulumStandaloneControl.controller v)
        + PendulumStandalone.theta (PendulumStandaloneControl.plant v)
          * PendulumStandalone.DT).
    { unfold PendulumStandaloneControl.iteration,
        PendulumStandaloneControl.computePIDForce,
        PendulumStandalone.simulateStep, Pid.compute.
      rewrite Hf. cbn. repeat split. }
    destruct Hstep as (Hp & Hl & Hi).
    destruct (IH _ Hl) as (Hp' & Hl' & Hi'). cbn zeta in Hp', Hl', Hi'.
    repeat split.
    + rewrite Hp'. exact Hp.
    + exact Hl'.
    + rewrite Hi', Hi, Hp.
      change (length (r :: rs)) with (S (length rs)). rewrite S_INR. ring.
Qed.

Lemma standalone_fallen_iterations_witness :
  let v := PendulumStandaloneControl.mkLoopVars
             (PendulumStandalone.mkState 2 0 0 0 1 0 0) Pid.create true in
  let d := PendulumStandaloneControl.mkDisturbance
             PendulumStandaloneControl.OFF 0 1 0 1 in
  PendulumStandaloneControl.localFallen v = true /\
  Pid.integral (PendulumStandaloneControl.controller
    (fold_left (fun w random =>
                  PendulumStandaloneControl.iteration (mkGains 150 20 40) d
                                                      random w)
               [0.5; 0.5; 0.5] v))
  = 0 + INR 3 * (2 * PendulumStandalone.DT).
Proof.
  intros v d. split; [reflexivity|].
  exact (proj2 (proj2
    (standalone_fallen_iterations (mkGains 150 20 40) d [0.5; 0.5; 0.5] v
                                  eq_refl))).
Defined.

(* ================================================================== *)
(** ** The chart's axes *)
(* ================================================================== *)

Lemma fold_Rmin_le (rest : list R) (first : R) :
  fold_left Rmin rest first <= first /\
  forall v, In v rest -> fold_left Rmin rest first <= v.
Proof.
  revert first. induction rest as [|a rest IH]; intros first; cbn [fold_left].
  - split; [lra | intros v []].
  - destruct (IH (Rmin first a)) as [H1 H2].
    pose proof (Rmin_l first a). pose proof (Rmin_r first a).
    split; [lra|].
    intros v [<- | Hv]; [lra | exact (H2 v Hv)].
Qed.

Lemma fold_Rmax_ge (rest : list R) (first : R) :
  first <= fold_left Rmax rest first /\
  forall v, In v rest -> v <= fold_left Rmax rest first.
Proof.
  revert first. induction rest as [|a rest IH]; intros first; cbn [fold_left].
  - split; [lra | intros v []].
  - destruct (IH (Rmax first a)) as [H1 H2].
    pose proof (Rmax_l first a). pose proof (Rmax_r first a).
    split; [lra|].
    intros v [<- | Hv]; [lra | exact (H2 v Hv)].
Qed.

Lemma minOf_le (values : list R) (v : R) :
  In v values -> Chart.minOf values <= v.
Proof.
  destruct values as [|first rest]; [intros []|].
  intros [<- | Hv]; cbn [Chart.minOf].
  - exact (proj1 (fold_Rmin_le rest first)).
  - exact (proj2 (fold_Rmin_le rest first) v Hv).
Qed.

Lemma maxOf_ge (values : list R) (v : R) :
  In v values -> v <= Chart.maxOf values.
Proof.
  destruct values as [|first rest]; [intros []|].
  intros [<- | Hv]; cbn [Chart.maxOf].
  - exact (proj1 (fold_Rmax_ge rest first)).
  - exact (proj2 (fold_Rmax_ge rest first) v Hv).
Qed.

Lemma orOne_pos (r : R) : 0 <= r -> 0 < Chart.orOne r.
Proof.
  intros Hr. unfold Chart.orOne. destruct (Req_dec_T r 0); lra.
Qed.

(** The bounds computed from a set of values hold each of them. *)
Lemma boundsOf_contains (errorOrControl : bool) (values : list R) (v : R) :
  In v values ->
  let b := Chart.boundsOf errorOrControl values in
  Chart.min b <= v <= Chart.max b /\
  (errorOrControl = true -> Chart.min b = - Chart.max b) /\
  (errorOrControl = false -> Chart.min b < v < Chart.max b).
Proof.
  intros Hv b.
  pose proof (minOf_le values v Hv) as Hlo.
  pose proof (maxOf_ge values v Hv) as Hhi.
  unfold b, Chart.boundsOf. destruct errorOrControl; cbn [Chart.min Chart.max].
  - pose proof (Rmax_l (Rabs (Chart.minOf values))
                       (Rabs (Chart.maxOf values))) as Hl.
    pose proof (Rmax_r (Rabs (Chart.minOf values))
                       (Rabs (Chart.maxOf values))) as Hr.
    pose proof (Rabs_pos (Chart.minOf values)) as Hp.
    pose proof (Rle_abs (Chart.maxOf values)) as Ha.
    pose proof (Rle_abs (- Chart.minOf values)) as Hb.
    rewrite Rabs_Ropp in Hb.
    repeat split; try lra; discriminate.
  - pose proof (orOne_pos (Chart.maxOf values - Chart.minOf values)) as Hr.
    repeat split; try lra; discriminate.
Qed.

Lemma group_member (series : list Chart.Series) (s : Chart.Series)
    (key : String.string) :
  In s series -> Chart.sharedAxis s = Some key ->
  In s (Chart.group series key).
Proof.
  intros Hs Hk. unfold Chart.group. apply filter_In. split; [exact Hs|].
  rewrite Hk. apply String.eqb_refl.
Qed.

Lemma boundsFor_contains (series : list Chart.Series) (s : Chart.Series)
    (v : R) :
  In s series -> In v (Chart.data s) ->
  let b := Chart.boundsFor series s in
  Chart.min b <= v <= Chart.max b /\
  (Chart.isErrorOrControl s = true -> Chart.min b = - Chart.max b) /\
  (Chart.isErrorOrControl s = false -> Chart.min b < v < Chart.max b).
Proof.
  intros Hs Hv. unfold Chart.boundsFor.
  destruct (Chart.data s) as [|d0 ds] eqn:Hd; [destruct Hv|].
  destruct (Chart.sharedAxis s) as [key|] eqn:Hk.
  - pose proof (group_member series s key Hs Hk) as Hg.
    destruct (Chart.group series key) as [|g0 gs] eqn:Hgr; [destruct Hg|].
    apply boundsOf_contains. unfold Chart.allValues. rewrite Hgr.
    apply in_flat_map. exists s. split; [exact Hg|]. rewrite Hd. exact Hv.
  - apply boundsOf_contains. exact Hv.
Qed.

(** X22.  The y axis of a series holds the series.  For every series of
    the chart, each of its values lies within the bounds [seriesBounds]
    computes for it, whether the axis is its own or shared with other
    series; an axis of an error or control series is symmetric about 0, and
    on any other axis the values lie strictly inside the bounds. *)
Theorem chart_bounds_hold_series (series : list Chart.Series) (i : nat)
    (s : Chart.Series) (v : R) :
  nth_error series i = Some s ->
  In v (Chart.data s) ->
  exists b, nth_error (Chart.seriesBounds series) i = Some b /\
    Chart.min b <= v <= Chart.max b /\
    (Chart.isErrorOrControl s = true -> Chart.min b = - Chart.max b) /\
    (Chart.isErrorOrControl s = false -> Chart.min b < v < Chart.max b).
Proof.
  intros Hi Hv. exists (Chart.boundsFor series s). split.
  - unfold Chart.seriesBounds. rewrite nth_error_map, Hi. reflexivity.
  - apply boundsFor_contains; [|exact Hv].
    apply nth_error_In with i. exact Hi.
Qed.

Lemma chart_bounds_hold_series_witness :
  let setpoint := Chart.mkSeries [38; 38; 40] false (Some Chart.temperature) in
  let measured := Chart.mkSeries [20; 25; 31] false (Some Chart.temperature) in
  let series := [setpoint; measured] in
  nth_error series 1 = Some measured /\
  In 25 (Chart.data measured) /\
  exists b, nth_error (Chart.seriesBounds series) 1 = Some b /\
    Chart.min b <= 25 <= Chart.max b /\
    (Chart.isErrorOrControl measured = true -> Chart.min b = - Chart.max b) /\
    (Chart.isErrorOrControl measured = false ->
     Chart.min b < 25 < Chart.max b).
Proof.
  intros setpoint measured series.
  assert (Hi : nth_error series 1 = Some measured) by reflexivity.
  assert (Hv : In 25 (Chart.data measured)) by (simpl; tauto).
  split; [exact Hi|]. split; [exact Hv|].
  exact (chart_bounds_hold_series series 1 measured 25 Hi Hv).
Defined.

Lemma unit_ratio (a r : R) :
  0 <= a <= r -> 0 <= a / Chart.orOne r <= 1.
Proof.
  intros [Ha Hr]. unfold Chart.orOne.
  destruct (Req_dec_T r 0) as [E|E].
  - replace a with 0 by lra. unfold Rdiv. rewrite Rmult_0_l. lra.
  - assert (Hp : 0 < r) by lra.
    pose proof (Rinv_0_lt_compat r Hp) as Hi.
    assert (Hone : r * / r = 1) by (apply Rinv_r; lra).
    unfold Rdiv. split.
    + apply Rmult_le_pos; lra.
    + rewrite <- Hone. apply Rmult_le_compat_r; lra.
Qed.

Lemma scale_unit (base len ratio : R) :
  0 <= len -> 0 <= ratio <= 1 ->
  base <= base + ratio * len <= base + len /\
  base <= base + len - ratio * len <= base + len.
Proof. intros Hl [H0 H1]. nra. Qed.

Lemma time_in_axis (timeHistory : list R) (i : nat) :
  Forall (fun t => 0 <= t) timeHistory ->
  0 <= nth i timeHistory 0 - Chart.min (Chart.xBounds timeHistory)
    <= Chart.max (Chart.xBounds timeHistory)
       - Chart.min (Chart.xBounds timeHistory).
Proof.
  intros Hpos. unfold Chart.xBounds. cbn [Chart.min Chart.max].
  rewrite Forall_forall in Hpos.
  destruct timeHistory as [|t0 ts] eqn:E.
  - destruct i; cbn [nth]; lra.
  - rewrite <- E in *.
    assert (H0 : In t0 timeHistory) by (rewrite E; left; reflexivity).
    pose proof (Hpos t0 H0) as Ht0.
    pose proof (maxOf_ge timeHistory t0 H0) as Hmax.
    destruct (Nat.lt_ge_cases i (length timeHistory)) as [Hi|Hi].
    + pose proof (nth_In timeHistory 0 Hi) as Hin.
      pose proof (Hpos _ Hin). pose proof (maxOf_ge _ _ Hin). lra.
    + rewrite (nth_overflow timeHistory 0 Hi). lra.
Qed.

(** X23.  The curve stays inside the plot area.  When the plot area has
    non-negative width and height and the recorded times are non-negative,
    every point [generatePoints] gives a series, drawn against the bounds
    [seriesBounds] computed for it, lies within the plot rectangle:
    [leftPadding <= x <= leftPadding + plotWidth] and
    [topPadding <= y <= topPadding + plotHeight]. *)
Theorem chart_points_in_plot (width height : R) (series : list Chart.Series)
    (timeHistory : list R) (s : Chart.Series) (p : R * R) :
  0 <= Chart.plotWidth width (length series) ->
  0 <= Chart.plotHeight height ->
  Forall (fun t => 0 <= t) timeHistory ->
  In s series ->
  In p (Chart.generatePoints width height (length series) timeHistory
          (Chart.data s) (Chart.boundsFor series s)) ->
  Chart.leftPadding (length series) <= fst p
    <= Chart.leftPadding (length series)
       + Chart.plotWidth width (length series) /\
  Chart.topPadding <= snd p <= Chart.topPadding + Chart.plotHeight height.
Proof.
  intros Hw Hh Hpos Hs Hp. unfold Chart.generatePoints in Hp.
  destruct (_ || _)%bool; [destruct Hp|].
  apply in_map_iff in Hp. destruct Hp as [[i v] [<- Hiv]].
  apply in_combine_r in Hiv. cbn [fst snd].
  destruct (boundsFor_contains series s v Hs Hiv) as [Hb _].
  split.
  - unfold Chart.pointX.
    pose proof (unit_ratio _ _ (time_in_axis timeHistory i Hpos)) as Hr.
    apply (scale_unit _ _ _ Hw Hr).
  - unfold Chart.pointY.
    assert (Hr : 0 <= v - Chart.min (Chart.boundsFor series s)
                 <= Chart.max (Chart.boundsFor series s)
                    - Chart.min (Chart.boundsFor series s)) by lra.
    apply unit_ratio in Hr.
    apply (scale_unit _ _ _ Hh Hr).
Qed.

Lemma chart_points_in_plot_witness :
  let measured := Chart.mkSeries [20; 25] false (Some Chart.temperature) in
  let series := [measured] in
  let timeHistory := [0; 1] in
  let p := (Chart.pointX 300 1 timeHistory 1,
            Chart.pointY 200 (Chart.boundsFor series measured) 25) in
  0 <= Chart.plotWidth 300 (length series) /\
  0 <= Chart.plotHeight 200 /\
  Forall (fun t => 0 <= t) timeHistory /\
  In measured series /\
  In p (Chart.generatePoints 300 200 (length series) timeHistory
          (Chart.data measured) (Chart.boundsFor series measured)) /\
  Chart.leftPadding (length series) <= fst p
    <= Chart.leftPadding (length series)
       + Chart.plotWidth 300 (length series) /\
  Chart.topPadding <= snd p <= Chart.topPadding + Chart.plotHeight 200.
Proof.
  intros measured series timeHistory p.
  assert (Hw : 0 <= Chart.plotWidth 300 (length series)).
  { unfold Chart.plotWidth, Chart.leftPadding, Chart.baseLeftPadding,
      Chart.axisSpacing, Chart.rightPadding. simpl. lra. }
  assert (Hh : 0 <= Chart.plotHeight 200).
  { unfold Chart.plotHeight, Chart.topPadding, Chart.bottomPadding. lra. }
  assert (Hpos : Forall (fun t => 0 <= t) timeHistory).
  { repeat constructor; lra. }
  assert (Hs : In measured series) by (left; reflexivity).
  assert (Hp : In p (Chart.generatePoints 300 200 (length series) timeHistory
                       (Chart.data measured)
                       (Chart.boundsFor series measured))).
  { right. left. reflexivity. }
  repeat (split; [assumption|]).
  exact (chart_points_in_plot 300 200 series timeHistory measured p
           Hw Hh Hpos Hs Hp).
Defined.

Lemma nth_error_seq0 (count i : nat) :
  (i < count)%nat -> nth_error (seq 0 count) i = Some i.
Proof.
  intros Hi.
  rewrite (nth_error_nth' (seq 0 count) 0%nat)
    by (rewrite length_seq; exact Hi).
  rewrite seq_nth by exact Hi. reflexivity.
Qed.

(** X24.  The ticks of a y axis.  For a count of at least two,
    [generateTicks] gives that many ticks; the first carries the lower
    bound and sits on the bottom edge of the plot, the last carries the
    upper bound and sits on the top edge; every tick value lies between the
    bounds; and, unless the bounds coincide, a tick is drawn at the very
    height at which [generatePoints] draws its value. *)
Theorem chart_ticks (height : R) (bounds : Chart.Bounds) (count : nat) :
  (2 <= count)%nat ->
  Chart.min bounds <= Chart.max bounds ->
  let ticks := Chart.generateTicks height bounds count in
  length ticks = count /\
  (exists t, nth_error ticks 0 = Some t /\
     Chart.value t = Chart.min bounds /\
     Chart.y t = Chart.topPadding + Chart.plotHeight height) /\
  (exists t, nth_error ticks (count - 1) = Some t /\
     Chart.value t = Chart.max bounds /\
     Chart.y t = Chart.topPadding) /\
  (forall t, In t ticks ->
     Chart.min bounds <= Chart.value t <= Chart.max bounds) /\
  (Chart.min bounds <> Chart.max bounds ->
   forall t, In t ticks ->
     Chart.pointY height bounds (Chart.value t) = Chart.y t).
Proof.
  intros Hc Hb ticks. unfold ticks, Chart.generateTicks.
  assert (Hn : 2 <= INR count) by (apply (le_INR 2); exact Hc).
  assert (Hd : INR count - 1 <> 0) by lra.
  split; [rewrite length_map, length_seq; reflexivity|].
  split; [|split; [|split]].
  - exists (Chart.tickAt height bounds count 0). split.
    + apply map_nth_error. apply nth_error_seq0. lia.
    + unfold Chart.tickAt; cbn [Chart.value Chart.y INR]. unfold Rdiv.
      rewrite Rmult_0_l. split; ring.
  - exists (Chart.tickAt height bounds count (count - 1)). split.
    + apply map_nth_error. apply nth_error_seq0. lia.
    + unfold Chart.tickAt; cbn [Chart.value Chart.y].
      rewrite minus_INR by lia. change (INR 1) with 1.
      split; field; exact Hd.
  - intros t Ht. apply in_map_iff in Ht. destruct Ht as [i [<- Hi]].
    apply in_seq in Hi.
    assert (Hi' : 0 <= INR i <= INR count - 1).
    { split; [apply pos_INR|].
      replace (INR count - 1) with (INR (count - 1))
        by (rewrite minus_INR by lia; reflexivity).
      apply le_INR. lia. }
    unfold Chart.tickAt; cbn [Chart.value].
    assert (Hr : 0 <= INR i / (INR count - 1) <= 1).
    { assert (Hp : 0 < INR count - 1) by lra.
      pose proof (Rinv_0_lt_compat _ Hp) as Hinv.
      assert (Hone : (INR count - 1) * / (INR count - 1) = 1)
        by (apply Rinv_r; exact Hd).
      assert (Hle : INR i * / (INR count - 1)
                    <= (INR count - 1) * / (INR count - 1))
        by (apply Rmult_le_compat_r; lra).
      unfold Rdiv. split; [apply Rmult_le_pos; lra | lra]. }
    nra.
  - intros Hne t Ht. apply in_map_iff in Ht. destruct Ht as [i [<- Hi]].
    unfold Chart.pointY, Chart.tickAt, Chart.orOne;
      cbn [Chart.value Chart.y].
    destruct (Req_dec_T (Chart.max bounds - Chart.min bounds) 0) as [E|E];
      [exfalso; lra|].
    field. split; assumption.
Qed.

Lemma chart_ticks_witness :
  let bounds := Chart.mkBounds 18 42 in
  let ticks := Chart.generateTicks 200 bounds 5 in
  (2 <= 5)%nat /\
  Chart.min bounds <= Chart.max bounds /\
  length ticks = 5%nat /\
  (forall t, In t ticks ->
     Chart.min bounds <= Chart.value t <= Chart.max bounds).
Proof.
  intros bounds ticks.
  assert (Hc : (2 <= 5)%nat) by lia.
  assert (Hb : Chart.min bounds <= Chart.max bounds) by (simpl; lra).
  split; [exact Hc|]. split; [exact Hb|].
  destruct (chart_ticks 200 bounds 5 Hc Hb) as (Hl & _ & _ & Hin & _).
  split; [exact Hl | exact Hin].
Defined.
